(** * gltf_conv: material override resolution and texture-key deduplication

    A shallow embedding of the Python sources

      - [gltf_conv/utils.py]                  (modules [Utils], [Store])
      - [gltf_conv/gltf_src.py]               (modules [Src], [SrcDxtf])
      - [gltf_conv/gltf_material_utils.py]    (module [GLTF])
      - [gltf_conv/dxspec_material_utils.py]  (module [DXSpec])
      - [gltf_conv/dxtf_material_utils.py]    (module [Dxtf])
      - [gltf_conv/__main__.py]               (modules [Main], [Parse])

    followed by the statements proved about them.

    Python values that come out of [json.load] are modelled by [pyval];
    a Python [float] is an IEEE binary64 number, i.e. Rocq's primitive
    [float]; a Python [int] is a [Z]; a [dict] is an insertion-ordered
    association list with pairwise distinct keys.  Code that can raise
    returns a [result].  [recursive_overwrite], which mutates its
    argument, is also modelled on a store of dict objects ([Store]) and
    shown there to compute what its version on values computes. *)

From Stdlib Require Import ZArith Floats Bool Lia.
From Stdlib Require Import Ascii String List.
From stdpp Require Import base decidable list strings.
Import ListNotations.

Local Open Scope string_scope.
Local Open Scope Z_scope.

(* ===================================================================== *)
(** * Python values, exceptions and dictionaries                          *)
(* ===================================================================== *)

Module Py.

(** Values produced by [json.load], plus tuples (which the code builds
    with [tuple(...)]). *)
Unset Elimination Schemes.
Inductive pyval : Type :=
| PNone
| PBool (b : bool)
| PInt (z : Z)
| PFloat (f : float)
| PStr (s : string)
| PList (l : list pyval)
| PTuple (l : list pyval)
| PDict (d : list (string * pyval)).
Set Elimination Schemes.

Abbreviation pydict := (list (string * pyval)).

(** What a texture's [uri] attribute can hold: a [pathlib.Path] built by
    [GLTFSrc.texture_idx2uri], or the plain [str] an override supplies.
    [None] is the outer [option]. *)
Inductive pyuri : Type :=
| UPath (p : string)
| UStr (s : string).

(** [DDSFormat] literals are kept as the strings the code writes. *)
Abbreviation DDSFormat := string (only parsing).

(** [DXSpec_TextureKey]:
    [tuple[tuple[tuple[Optional[Path], str], ...], DDSFormat, tuple[int, int]]]. *)
Abbreviation DXSpec_TextureKey :=
  (list (option pyuri * string) * DDSFormat * list Z)%type.

(** The messages of the [ValueError]s the code raises. *)
Inductive value_error : Type :=
| UnknownOperator (op : pyval)
| CannotModulateNone
| OriginalNotNumeric
| ValueNotNumeric
| FloatByTuple
| LengthMismatch
| UnknownOverrides (rest : pydict)
| NoEmissiveSource
| OutnameExists
| OutnameInverseExists
| CannotFold (key : DXSpec_TextureKey)
| UnknownMaterials (names : list string)
| MaterialError (name : string) (cause : value_error)
| UnknownFormat (f : string).

Inductive exn : Type :=
| ValueError (why : value_error)
| AssertionError
| AttributeError (attr : string)
| KeyError
| IndexError
| TypeError
| OverflowError
(** the value lies outside the declared type of the parameter it is
    passed to; what the source does with it is not modelled *)
| IllTyped (what : string).

Inductive result (A : Type) : Type :=
| Ok (a : A)
| Raise (e : exn).
Arguments Ok {A} a.
Arguments Raise {A} e.

Definition bind {A B} (m : result A) (k : A -> result B) : result B :=
  match m with
  | Ok a => k a
  | Raise e => Raise e
  end.

Definition is_some {A} (o : option A) : bool :=
  match o with Some _ => true | None => false end.

Definition is_ok {A} (m : result A) : bool :=
  match m with Ok _ => true | Raise _ => false end.

(** [[f(x) for x in xs]], left to right, stopping at the first exception. *)
Fixpoint mapM {A B} (f : A -> result B) (xs : list A) : result (list B) :=
  match xs with
  | [] => Ok []
  | x :: xs' =>
      bind (f x) (fun y => bind (mapM f xs') (fun ys => Ok (y :: ys)))
  end.

(** ** Dictionaries: insertion-ordered association lists *)
Section Dict.
Context {K V : Type} `{EqDecision K}.

Fixpoint dict_get (d : list (K * V)) (k : K) : option V :=
  match d with
  | [] => None
  | (k', v) :: d' => if decide (k' = k) then Some v else dict_get d' k
  end.

Definition dict_mem (k : K) (d : list (K * V)) : bool :=
  match dict_get d k with Some _ => true | None => false end.

(** [d[k] = v]: an existing key keeps its place, a new one goes last. *)
Fixpoint dict_set (d : list (K * V)) (k : K) (v : V) : list (K * V) :=
  match d with
  | [] => [(k, v)]
  | (k', v') :: d' =>
      if decide (k' = k) then (k, v) :: d' else (k', v') :: dict_set d' k v
  end.

Fixpoint dict_del (d : list (K * V)) (k : K) : list (K * V) :=
  match d with
  | [] => []
  | (k', v') :: d' =>
      if decide (k' = k) then d' else (k', v') :: dict_del d' k
  end.

(** [d.pop(k)] *)
Definition dict_pop (d : list (K * V)) (k : K) : result (V * list (K * V)) :=
  match dict_get d k with
  | Some v => Ok (v, dict_del d k)
  | None => Raise KeyError
  end.

(** [d.pop(k, default)] *)
Definition dict_pop_default (d : list (K * V)) (k : K) (default : V)
  : V * list (K * V) :=
  match dict_get d k with
  | Some v => (v, dict_del d k)
  | None => (default, d)
  end.

Definition dict_keys (d : list (K * V)) : list K := map fst d.
End Dict.

(** ** Numbers *)

(** [float(z)] for an [int]: round to nearest, ties to even;
    [OverflowError] when the integer is beyond the finite doubles. *)
Definition float_of_int (z : Z) : result float :=
  let f := SF2Prim (binary_normalize prec emax z 0 false) in
  if is_infinity f then Raise OverflowError else Ok f.

Inductive pynum : Type :=
| NInt (z : Z)
| NFloat (f : float).

(** [bool] is a subclass of [int]. *)
Definition as_num (v : pyval) : option pynum :=
  match v with
  | PBool b => Some (NInt (Z.b2z b))
  | PInt z => Some (NInt z)
  | PFloat f => Some (NFloat f)
  | _ => None
  end.

Definition num_binop (opZ : Z -> Z -> Z) (opF : float -> float -> float)
    (a b : pyval) : result pyval :=
  match as_num a, as_num b with
  | Some (NInt x), Some (NInt y) => Ok (PInt (opZ x y))
  | Some (NFloat x), Some (NFloat y) => Ok (PFloat (opF x y))
  | Some (NInt x), Some (NFloat y) =>
      bind (float_of_int x) (fun x' => Ok (PFloat (opF x' y)))
  | Some (NFloat x), Some (NInt y) =>
      bind (float_of_int y) (fun y' => Ok (PFloat (opF x y')))
  | _, _ => Raise TypeError
  end.

(** [a * b] and [a + b] on numbers *)
Definition py_mul : pyval -> pyval -> result pyval := num_binop Z.mul PrimFloat.mul.
Definition py_add : pyval -> pyval -> result pyval := num_binop Z.add PrimFloat.add.

(** [float(v)]; parsing a [str] is not modelled. *)
Definition py_float (v : pyval) : result float :=
  match v with
  | PFloat f => Ok f
  | PInt z => float_of_int z
  | PBool b => float_of_int (Z.b2z b)
  | PStr _ => Raise (IllTyped "float(str)")
  | _ => Raise TypeError
  end.

(** Truth value of a float: [0.0] and [-0.0] are false, NaN is true. *)
Definition float_truthy (f : float) : bool := negb (PrimFloat.eqb f 0%float).

(** [bool(v)] *)
Definition py_truthy (v : pyval) : bool :=
  match v with
  | PNone => false
  | PBool b => b
  | PInt z => negb (z =? 0)
  | PFloat f => float_truthy f
  | PStr s => negb (String.eqb s "")
  | PList l | PTuple l => match l with [] => false | _ => true end
  | PDict d => match d with [] => false | _ => true end
  end.

(** [v == s] for a string literal [s] *)
Definition py_eq_str (v : pyval) (s : string) : bool :=
  match v with
  | PStr s' => String.eqb s' s
  | _ => false
  end.

(** [v in [s1, s2, ...]] for string literals *)
Definition py_in_strs (v : pyval) (ss : list string) : bool :=
  existsb (py_eq_str v) ss.

(** [tuple(v)] *)
Definition py_tuple (v : pyval) : result (list pyval) :=
  match v with
  | PList l | PTuple l => Ok l
  | PDict d => Ok (map (fun kv => PStr (fst kv)) d)
  | PStr s => Ok (map (fun c => PStr (String c EmptyString)) (list_ascii_of_string s))
  | _ => Raise TypeError
  end.

(** Python sequence index: negative indices count from the end. *)
Definition seq_index {A} (l : list A) (i : Z) : result A :=
  let n := Z.of_nat (length l) in
  let j := if i <? 0 then i + n else i in
  if (j <? 0) || (n <=? j) then Raise IndexError
  else match nth_error l (Z.to_nat j) with
       | Some x => Ok x
       | None => Raise IndexError
       end.

(** [c[k]] *)
Definition py_getitem (c k : pyval) : result pyval :=
  match c with
  | PDict d =>
      match k with
      | PStr s => match dict_get d s with Some v => Ok v | None => Raise KeyError end
      | PList _ | PDict _ => Raise TypeError
      | _ => Raise KeyError
      end
  | PList l | PTuple l =>
      match k with
      | PInt i => seq_index l i
      | PBool b => seq_index l (Z.b2z b)
      | _ => Raise TypeError
      end
  | PStr s =>
      match k with
      | PInt i => bind (seq_index (list_ascii_of_string s) i)
                    (fun c => Ok (PStr (String c EmptyString)))
      | PBool b => bind (seq_index (list_ascii_of_string s) (Z.b2z b))
                    (fun c => Ok (PStr (String c EmptyString)))
      | _ => Raise TypeError
      end
  | _ => Raise TypeError
  end.

End Py.
Import Py.

Declare Scope py_scope.
Delimit Scope py_scope with py.
Notation "x <- e ;; k" := (bind e (fun x => k))
  (at level 20, e at level 99, k at level 200, only parsing) : py_scope.
Notation "' pat <- e ;; k" := (bind e (fun x => match x with pat => k end))
  (at level 20, pat pattern, e at level 99, k at level 200, only parsing) : py_scope.
Local Open Scope py_scope.

(* ===================================================================== *)
(** * utils.py                                                            *)
(* ===================================================================== *)

Module Utils.

Definition format_get_channels (f : DDSFormat) : result Z :=
  let p := String.substring 0 3 f in
  if String.eqb p "BC1" then Ok 4
  else if String.eqb p "BC3" then Ok 4
  else if String.eqb p "BC4" then Ok 1
  else if String.eqb p "BC5" then Ok 2
  else if String.eqb p "BC6" then Ok 3
  else if String.eqb p "BC7" then Ok 4
  else Raise (ValueError (UnknownFormat f)).

(** [isinstance(obj, (int, float))] *)
Definition is_numeric (obj : pyval) : bool :=
  match obj with
  | PBool _ | PInt _ | PFloat _ => true
  | _ => false
  end.

(** [isinstance(obj, (tuple, list)) and all(isinstance(o, (int, float)) for o in obj)] *)
Definition is_numeric_sequence (obj : pyval) : bool :=
  match obj with
  | PList l | PTuple l => forallb is_numeric l
  | _ => false
  end.

(** The elements of a list or tuple (iteration). *)
Definition items_of (obj : pyval) : list pyval :=
  match obj with
  | PList l | PTuple l => l
  | _ => []
  end.

(** [match op: case 'mult': ... case 'add': ... case _: assert False] *)
Definition match_op {A} (op : pyval) (on_mult on_add : result A) : result A :=
  if py_eq_str op "mult" then on_mult
  else if py_eq_str op "add" then on_add
  else Raise AssertionError.

(** [zip] of two sequences, applying [f] pairwise. *)
Fixpoint zipM (f : pyval -> pyval -> result pyval) (xs ys : list pyval)
  : result (list pyval) :=
  match xs, ys with
  | x :: xs', y :: ys' =>
      r <- f x y ;; rs <- zipM f xs' ys' ;; Ok (r :: rs)
  | _, _ => Ok []
  end.

Definition _modulate (original modulator : pyval) : result pyval :=
  match modulator with
  | PDict d =>
      '(op, d1) <- dict_pop d "op" ;;
      '(value, _) <- dict_pop d1 "value" ;;
      if negb (py_in_strs op ["mult"; "add"]) then
        Raise (ValueError (UnknownOperator op))
      else if match original with PNone => true | _ => false end then
        Raise (ValueError CannotModulateNone)
      else if negb (is_numeric original || is_numeric_sequence original) then
        Raise (ValueError OriginalNotNumeric)
      else if negb (is_numeric value || is_numeric_sequence value) then
        Raise (ValueError ValueNotNumeric)
      else if is_numeric original && is_numeric value then
        match_op op (py_mul original value) (py_add original value)
      else if is_numeric original && is_numeric_sequence value then
        Raise (ValueError FloatByTuple)
      else if is_numeric_sequence original && is_numeric value then
        match_op op
          (r <- mapM (fun o => py_mul o value) (items_of original) ;; Ok (PTuple r))
          (r <- mapM (fun o => py_add o value) (items_of original) ;; Ok (PTuple r))
      else if is_numeric_sequence original && is_numeric_sequence value then
        if negb (length (items_of original) =? length (items_of value))%nat then
          Raise (ValueError LengthMismatch)
        else
          match_op op
            (r <- zipM py_mul (items_of original) (items_of value) ;; Ok (PTuple r))
            (r <- zipM py_add (items_of original) (items_of value) ;; Ok (PTuple r))
      else Raise AssertionError
  | _ => Ok modulator
  end.

Definition modulate (original modulator : pyval) : result pyval :=
  out <- _modulate original modulator ;;
  if negb (Bool.eqb (is_numeric original) (is_numeric out)) then Raise AssertionError
  else if negb (Bool.eqb (is_numeric_sequence original) (is_numeric_sequence out)) then
    Raise AssertionError
  else Ok out.

(** [init(cls, obj, key, default)]: [cls(obj[key])] when the key is
    present, the default otherwise. *)
Definition init {T} (cls : pyval -> result T) (obj : pydict) (key : string)
    (default : option T) : result (option T) :=
  match dict_get obj key with
  | Some v => t <- cls v ;; Ok (Some t)
  | None => Ok default
  end.

(** [recursive_overwrite(A, B)].  The loop runs over the items of [B];
    the recursive call is on a value stored in [B], so the recursion is
    structural in [B].  [copy.deepcopy(v)] is the value [v] itself; the
    module [Store] below has the function on objects. *)
Fixpoint overwrite_with (b : pyval) (A : pydict) {struct b} : pydict :=
  match b with
  | PDict items =>
      (fix loop (items : pydict) (A : pydict) {struct items} : pydict :=
         match items with
         | [] => A
         | (k, v) :: rest =>
             loop rest
               match dict_get A k, v with
               | Some (PDict a), PDict _ => dict_set A k (PDict (overwrite_with v a))
               | _, _ => dict_set A k v
               end
         end) items A
  | _ => A
  end.

Definition recursive_overwrite (A B : pydict) : pydict :=
  overwrite_with (PDict B) A.

End Utils.

(* ===================================================================== *)
(** * utils.py, on a store of dict objects                                *)
(* ===================================================================== *)

(** [recursive_overwrite] mutates its first argument and stores copies of
    what it takes from the second.  Here the dicts are objects of a store
    and a variable holds a reference, so that two references can be told
    to share an object or not.  Numbers, strings and lists are held by
    value.  The functions recurse on a bound [n] of the nesting depth. *)

Module Store.
Local Open Scope nat_scope.

(** A value as a Python variable holds it: an immutable literal, or a
    reference to a dict object of the store. *)
Inductive hval : Type :=
| HLit (v : pyval)
| HRef (l : nat).

(** A dict object, and a store of them: the address of an object is its
    position, and allocation appends. *)
Abbreviation hdict := (list (string * hval)).
Abbreviation store := (list hdict).

(** The values of the items of an object, given those of its fields. *)
Fixpoint items_value (f : hval -> option pyval) (items : hdict) : option pydict :=
  match items with
  | [] => Some []
  | (k, hv) :: rest =>
      match f hv, items_value f rest with
      | Some v, Some d => Some ((k, v) :: d)
      | _, _ => None
      end
  end.

(** The value a reference stands for, read off the store down to [n]
    levels of nesting.  A dict is always an object: a literal that is a
    dict stands for nothing. *)
Fixpoint value_at (n : nat) (s : store) (hv : hval) : option pyval :=
  match hv with
  | HLit v => match v with PDict _ => None | _ => Some v end
  | HRef l =>
      match n with
      | O => None
      | S n' =>
          match s !! l with
          | Some items => option_map PDict (items_value (value_at n' s) items)
          | None => None
          end
      end
  end.

(** The objects reachable from a value. *)
Fixpoint cells (n : nat) (s : store) (hv : hval) : list nat :=
  match hv with
  | HLit _ => []
  | HRef l =>
      match n with
      | O => []
      | S n' =>
          l :: match s !! l with
               | Some items => flat_map (fun kv => cells n' s (snd kv)) items
               | None => []
               end
      end
  end.

(** The items of a copy, each field copied in turn. *)
Fixpoint copy_items (copy : store -> hval -> option (store * hval))
    (s : store) (items : hdict) : option (store * hdict) :=
  match items with
  | [] => Some (s, [])
  | (k, hv) :: rest =>
      match copy s hv with
      | Some (s1, hv') =>
          match copy_items copy s1 rest with
          | Some (s2, rest') => Some (s2, (k, hv') :: rest')
          | None => None
          end
      | None => None
      end
  end.

(** [copy.deepcopy(v)]: a literal is returned as it is, a dict is rebuilt
    in a new object from copies of its fields. *)
Fixpoint deepcopy (n : nat) (s : store) (hv : hval) : option (store * hval) :=
  match hv with
  | HLit v => Some (s, HLit v)
  | HRef l =>
      match n with
      | O => None
      | S n' =>
          match s !! l with
          | Some items =>
              match copy_items (deepcopy n') s items with
              | Some (s1, items') => Some ((s1 ++ [items'])%list, HRef (length s1))
              | None => None
              end
          | None => None
          end
      end
  end.

(** [A[k] = copy.deepcopy(v)] *)
Definition assign_copy (copy : store -> hval -> option (store * hval))
    (A : nat) (s : store) (k : string) (v : hval) : option store :=
  match copy s v with
  | Some (s1, v') =>
      match s1 !! A with
      | Some a1 => Some (<[A := dict_set a1 k v']> s1)
      | None => None
      end
  | None => None
  end.

(** One round of the loop of [recursive_overwrite], on the object [A]. *)
Definition overwrite_item (recurse : store -> nat -> nat -> option store)
    (copy : store -> hval -> option (store * hval)) (A : nat)
    (s : store) (kv : string * hval) : option store :=
  let '(k, v) := kv in
  match s !! A with
  | Some a =>
      match dict_get a k, v with
      | Some (HRef a'), HRef b' => recurse s a' b'
      | _, _ => assign_copy copy A s k v
      end
  | None => None
  end.

Fixpoint fold_items (f : store -> string * hval -> option store)
    (items : hdict) (s : store) : option store :=
  match items with
  | [] => Some s
  | kv :: rest =>
      match f s kv with
      | Some s1 => fold_items f rest s1
      | None => None
      end
  end.

(** [recursive_overwrite(A, B)], on the objects [A] and [B]: the loop over
    the items of [B], each round acting on the store the round before
    left. *)
Fixpoint recursive_overwrite_at (n : nat) (s : store) (A B : nat) : option store :=
  match n with
  | O => None
  | S n' =>
      match s !! B with
      | Some items =>
          fold_items (overwrite_item (recursive_overwrite_at n') (deepcopy n') A) items s
      | None => None
      end
  end.

End Store.

(* ===================================================================== *)
(** * gltf_src.py                                                         *)
(* ===================================================================== *)

Module Src.

(** ** [os.path.join] and [pathlib.Path], POSIX flavour *)

Definition starts_with (p s : string) : bool :=
  String.eqb (String.substring 0 (String.length p) s) p.

Definition ends_with_slash (s : string) : bool :=
  match rev (list_ascii_of_string s) with
  | c :: _ => Ascii.eqb c "/"
  | [] => false
  end.

(** [os.path.join(a, b)] *)
Definition path_join (a b : string) : string :=
  if starts_with "/" b then b
  else if String.eqb a "" || ends_with_slash a then a ++ b
  else a ++ "/" ++ b.

(** The pieces of [s] between slashes. *)
Fixpoint split_slash (s : string) (cur : string) : list string :=
  match s with
  | EmptyString => [cur]
  | String c s' =>
      if Ascii.eqb c "/" then cur :: split_slash s' ""
      else split_slash s' (cur ++ String c EmptyString)
  end.

(** The parts [pathlib] keeps: empty pieces and ["."] are dropped. *)
Definition path_parts (s : string) : list string :=
  filter (fun c => c <> "" /\ c <> ".") (split_slash s "").

(** The root of a POSIX path: ["/"], or ["//"] for exactly two leading
    slashes, or none. *)
Definition path_root (s : string) : string :=
  if starts_with "///" s then "/"
  else if starts_with "//" s then "//"
  else if starts_with "/" s then "/"
  else "".

(** [Path(s)]: the value is the normalised text, so that two [Path]s are
    equal in Python exactly when their [UPath] payloads are. *)
Definition Path (s : string) : pyuri :=
  let body := String.concat "/" (path_parts s) in
  let root := path_root s in
  UPath (if String.eqb root "" && String.eqb body "" then "." else root ++ body).

(** Position of the last ["."] of [s], if any. *)
Fixpoint rfind_dot (s : string) (i : nat) (found : option nat) : option nat :=
  match s with
  | EmptyString => found
  | String c s' =>
      rfind_dot s' (S i) (if Ascii.eqb c "." then Some i else found)
  end.

(** [Path.name]: the last part. *)
Definition path_name (p : string) : string :=
  List.last (path_parts p) "".

(** [Path.stem]: the name without its last suffix; a leading or a
    trailing dot does not start a suffix. *)
Definition path_stem (p : string) : string :=
  let name := path_name p in
  match rfind_dot name 0 None with
  | Some i =>
      if ((0 <? i) && (i <? String.length name - 1))%nat
      then String.substring 0 i name
      else name
  | None => name
  end.

(** ** [GLTFSrc]: the loaded source document *)
Record GLTFSrc : Type := {
  file : string;
  src_dir : string;
  data : pyval
}.

Definition src_textures (self : GLTFSrc) : result pyval :=
  py_getitem (data self) (PStr "textures").

Definition src_images (self : GLTFSrc) : result pyval :=
  py_getitem (data self) (PStr "images").

Definition texture_idx2uri (self : GLTFSrc) (index : pyval) : result (option pyuri) :=
  match index with
  | PNone => Ok None
  | _ =>
      textures <- src_textures self ;;
      texture <- py_getitem textures index ;;
      texture_src <- py_getitem texture (PStr "source") ;;
      images <- src_images self ;;
      image <- py_getitem images texture_src ;;
      image_uri <- py_getitem image (PStr "uri") ;;
      match image_uri with
      | PStr u => Ok (Some (Path (path_join (src_dir self) u)))
      | _ => Raise TypeError
      end
  end.

End Src.
Import Src.

(* ===================================================================== *)
(** * gltf_material_utils.py                                              *)
(* ===================================================================== *)

Module GLTF.

Record GLTF_TextureInfo : Type := { index : pyval }.

Record GLTF_NormalTexture : Type := {
  normal_index : pyval;
  scale : pyval
}.

Record GLTF_OcclusionTexture : Type := {
  occlusion_index : pyval;
  strength : pyval
}.

Record GLTF_PBRMetallicRoughness : Type := {
  base_color_factor : list pyval;
  base_color_texture : option GLTF_TextureInfo;
  metallic_factor : option float;
  roughness_factor : option float;
  metallic_roughness_texture : option GLTF_TextureInfo
}.

Record GLTF_Material : Type := {
  name : string;
  pbr_metallic_roughness : option GLTF_PBRMetallicRoughness;
  normal_texture : option GLTF_NormalTexture;
  occlusion_texture : option GLTF_OcclusionTexture;
  emissive_texture : option GLTF_TextureInfo;
  emissive_factor : option (list pyval);
  alpha_mode : pyval;
  alpha_cutoff : option float;
  double_sided : pyval
}.

(** [obj.get(key, default)] on a value that already answered [obj['index']],
    hence a dict. *)
Definition py_get (obj : pyval) (key : string) (default : pyval) : result pyval :=
  match obj with
  | PDict d => Ok (match dict_get d key with Some v => v | None => default end)
  | _ => Raise (AttributeError "get")
  end.

Definition GLTF_TextureInfo_init (obj : pyval) : result GLTF_TextureInfo :=
  i <- py_getitem obj (PStr "index") ;;
  Ok {| index := i |}.

Definition GLTF_NormalTexture_init (obj : pyval) : result GLTF_NormalTexture :=
  i <- py_getitem obj (PStr "index") ;;
  s <- py_get obj "scale" (PFloat 1) ;;
  Ok {| normal_index := i; scale := s |}.

Definition GLTF_OcclusionTexture_init (obj : pyval) : result GLTF_OcclusionTexture :=
  i <- py_getitem obj (PStr "index") ;;
  s <- py_get obj "strength" (PFloat 1) ;;
  Ok {| occlusion_index := i; strength := s |}.

Definition GLTF_PBRMetallicRoughness_init (obj : pyval)
  : result GLTF_PBRMetallicRoughness :=
  match obj with
  | PDict d =>
      bcf <- py_tuple (match dict_get d "baseColorFactor" with
                       | Some v => v
                       | None => PList [PFloat 1; PFloat 1; PFloat 1; PFloat 1]
                       end) ;;
      bct <- Utils.init GLTF_TextureInfo_init d "baseColorTexture" None ;;
      mf <- Utils.init py_float d "metallicFactor" None ;;
      rf <- Utils.init py_float d "roughnessFactor" None ;;
      mrt <- Utils.init GLTF_TextureInfo_init d "metallicRoughnessTexture" None ;;
      Ok {| base_color_factor := bcf;
            base_color_texture := bct;
            metallic_factor := mf;
            roughness_factor := rf;
            metallic_roughness_texture := mrt |}
  | _ => Raise (AttributeError "get")
  end.

(** [GLTF_Material.__init__(self, obj)]; [name] is declared [str]. *)
Definition GLTF_Material_init (obj : pydict) : result GLTF_Material :=
  nm <- match dict_get obj "name" with
        | Some (PStr s) => Ok s
        | Some _ => Raise (IllTyped "name")
        | None => Raise KeyError
        end ;;
  pbr <- Utils.init GLTF_PBRMetallicRoughness_init obj "pbrMetallicRoughness" None ;;
  nt <- Utils.init GLTF_NormalTexture_init obj "normalTexture" None ;;
  ot <- Utils.init GLTF_OcclusionTexture_init obj "occlusionTexture" None ;;
  et <- Utils.init GLTF_TextureInfo_init obj "emissiveTexture" None ;;
  ef <- Utils.init py_tuple obj "emissiveFactor" None ;;
  let am := match dict_get obj "alphaMode" with
            | Some v => v
            | None => PStr "OPAQUE"
            end in
  ac <- Utils.init py_float obj "alphaCuttoff"
          (if py_eq_str am "MASK" then Some 0.5%float else None) ;;
  let ds := match dict_get obj "doubleSided" with
            | Some v => v
            | None => PBool false
            end in
  Ok {| name := nm;
        pbr_metallic_roughness := pbr;
        normal_texture := nt;
        occlusion_texture := ot;
        emissive_texture := et;
        emissive_factor := ef;
        alpha_mode := am;
        alpha_cutoff := ac;
        double_sided := ds |}.

End GLTF.

(* ===================================================================== *)
(** * dxspec_material_utils.py                                            *)
(* ===================================================================== *)

Module DXSpec.

(** [DXSpec_TextureInfo] ([uri], [swizzle]) together with the one numeric
    attribute each subclass adds: [scale] for [DXSpec_NormalTexture],
    [strength] for the diffuse, occlusion, roughness and metalness
    classes. *)
Record DXSpec_TextureInfo : Type := {
  uri : option pyuri;
  swizzle : string;
  strength : pyval
}.

(** An override's [uri] is declared [Path | None]; [json.load] gives a
    [str] or [None]. *)
Definition as_uri (v : pyval) : result (option pyuri) :=
  match v with
  | PNone => Ok None
  | PStr s => Ok (Some (UStr s))
  | _ => Raise (IllTyped "uri")
  end.

(** A slot's [override] parameter is declared [dict | None]. *)
Definition as_override (v : pyval) : result (option pydict) :=
  match v with
  | PNone => Ok None
  | PDict d => Ok (Some d)
  | _ => Raise (IllTyped "override")
  end.

(** The [if override:] block shared, up to the swizzle written with a new
    [uri] and the name of the numeric key, by the normal, occlusion,
    roughness, metalness and diffuse classes.  ['k' in override] followed
    by [override.pop('k')] is one lookup and one deletion. *)
Definition apply_override (tex_swizzle key : string)
    (self : DXSpec_TextureInfo) (override : option pydict)
  : result DXSpec_TextureInfo :=
  match override with
  | Some ((_ :: _) as d) =>
      '(self1, d1) <-
        match dict_get d "uri" with
        | Some v =>
            u <- as_uri v ;;
            Ok ({| uri := u; swizzle := tex_swizzle; strength := strength self |},
                dict_del d "uri")
        | None => Ok (self, d)
        end ;;
      '(self2, d2) <-
        match dict_get d1 key with
        | Some m =>
            s <- Utils.modulate (strength self1) m ;;
            Ok ({| uri := uri self1; swizzle := swizzle self1; strength := s |},
                dict_del d1 key)
        | None => Ok (self1, d1)
        end ;;
      if (0 <? length d2)%nat then Raise (ValueError (UnknownOverrides d2))
      else Ok self2
  | _ => Ok self
  end.

Definition DXSpec_NormalTexture_init (obj : option GLTF.GLTF_NormalTexture)
    (src : GLTFSrc) (override : option pydict) : result DXSpec_TextureInfo :=
  self <- match obj with
          | None => Ok {| uri := None; swizzle := "hh"; strength := PFloat 1 |}
          | Some o =>
              u <- texture_idx2uri src (GLTF.normal_index o) ;;
              Ok {| uri := u; swizzle := "rg"; strength := GLTF.scale o |}
          end ;;
  apply_override "rg" "scale" self override.

Definition normal_get_texture_key (self : DXSpec_TextureInfo) (resolution : list Z)
  : DXSpec_TextureKey :=
  ([(uri self, swizzle self)], "BC5_UNORM", resolution).

Definition DXSpec_OcclusionTexture_init (obj : option GLTF.GLTF_OcclusionTexture)
    (src : GLTFSrc) (override : option pydict) : result DXSpec_TextureInfo :=
  self <- match obj with
          | None => Ok {| uri := None; swizzle := "1"; strength := PFloat 1 |}
          | Some o =>
              u <- texture_idx2uri src (GLTF.occlusion_index o) ;;
              Ok {| uri := u; swizzle := "r"; strength := GLTF.strength o |}
          end ;;
  apply_override "r" "strength" self override.

(** [x or default] for [x : Optional[float]]: the default replaces [None]
    and every falsy float. *)
Definition float_or (x : option float) (default : float) : float :=
  match x with
  | Some f => if float_truthy f then f else default
  | None => default
  end.

Definition roughness_default_strength : float := 1%float.
Definition metalness_default_strength : float := 0%float.

Definition DXSpec_RoughnessTexture_init (obj : option GLTF.GLTF_PBRMetallicRoughness)
    (src : GLTFSrc) (override : option pydict) : result DXSpec_TextureInfo :=
  self <- match obj with
          | None =>
              Ok {| uri := None; swizzle := "1";
                    strength := PFloat roughness_default_strength |}
          | Some o =>
              match GLTF.metallic_roughness_texture o with
              | Some texture =>
                  u <- texture_idx2uri src (GLTF.index texture) ;;
                  Ok {| uri := u; swizzle := "g";
                        strength := PFloat (float_or (GLTF.roughness_factor o) 1) |}
              | None =>
                  Ok {| uri := None; swizzle := "1";
                        strength := PFloat (float_or (GLTF.roughness_factor o)
                                              roughness_default_strength) |}
              end
          end ;;
  apply_override "g" "strength" self override.

Definition DXSpec_MetalnessTexture_init (obj : option GLTF.GLTF_PBRMetallicRoughness)
    (src : GLTFSrc) (override : option pydict) : result DXSpec_TextureInfo :=
  self <- match obj with
          | None =>
              Ok {| uri := None; swizzle := "1";
                    strength := PFloat metalness_default_strength |}
          | Some o =>
              match GLTF.metallic_roughness_texture o with
              | Some texture =>
                  u <- texture_idx2uri src (GLTF.index texture) ;;
                  Ok {| uri := u; swizzle := "b";
                        strength := PFloat (float_or (GLTF.metallic_factor o) 1) |}
              | None =>
                  Ok {| uri := None; swizzle := "1";
                        strength := PFloat (float_or (GLTF.metallic_factor o)
                                              metalness_default_strength) |}
              end
          end ;;
  apply_override "b" "strength" self override.

(** ['rgb1' if alpha_mode == 'OPAQUE' else 'rgba'] *)
Definition diffuse_swizzle (alpha_mode : string) : string :=
  if String.eqb alpha_mode "OPAQUE" then "rgb1" else "rgba".

Definition DXSpec_DiffuseTexture_init (obj : option GLTF.GLTF_PBRMetallicRoughness)
    (alpha_mode : string) (src : GLTFSrc) (override : option pydict)
  : result DXSpec_TextureInfo :=
  self <- match obj with
          | None =>
              Ok {| uri := None; swizzle := "1111";
                    strength := PTuple [PFloat 1; PFloat 1; PFloat 1; PFloat 1] |}
          | Some o =>
              match GLTF.base_color_texture o with
              | Some texture =>
                  u <- texture_idx2uri src (GLTF.index texture) ;;
                  Ok {| uri := u; swizzle := diffuse_swizzle alpha_mode;
                        strength := PTuple (GLTF.base_color_factor o) |}
              | None =>
                  Ok {| uri := None; swizzle := "1111";
                        strength := PTuple (GLTF.base_color_factor o) |}
              end
          end ;;
  apply_override (diffuse_swizzle alpha_mode) "strength" self override.

(** [s[-1] == '1'] *)
Definition last_is_one (s : string) : result bool :=
  match rev (list_ascii_of_string s) with
  | c :: _ => Ok (Ascii.eqb c "1")
  | [] => Raise IndexError
  end.

Definition diffuse_get_texture_key (self : DXSpec_TextureInfo) (resolution : list Z)
  : result DXSpec_TextureKey :=
  one <- last_is_one (swizzle self) ;;
  Ok ([(uri self, swizzle self)],
      if one then "BC1_UNORM_SRGB" else "BC3_UNORM_SRGB",
      resolution).

Record DXSpec_OcclusionRoughnessMetalness : Type := {
  occlusion : DXSpec_TextureInfo;
  roughness : DXSpec_TextureInfo;
  metalness : DXSpec_TextureInfo
}.

(** The constructor pops its three sub-records from the caller's dict;
    the dict it leaves behind is returned with the object. *)
Definition DXSpec_OcclusionRoughnessMetalness_init (obj : GLTF.GLTF_Material)
    (src : GLTFSrc) (override : option pydict)
  : result (DXSpec_OcclusionRoughnessMetalness * pydict) :=
  let override := match override with Some d => d | None => [] end in
  let '(o_over, override) := dict_pop_default override "occlusion" PNone in
  o_over <- as_override o_over ;;
  occ <- DXSpec_OcclusionTexture_init (GLTF.occlusion_texture obj) src o_over ;;
  let '(r_over, override) := dict_pop_default override "roughness" PNone in
  r_over <- as_override r_over ;;
  rough <- DXSpec_RoughnessTexture_init (GLTF.pbr_metallic_roughness obj) src r_over ;;
  let '(m_over, override) := dict_pop_default override "metalness" PNone in
  m_over <- as_override m_over ;;
  metal <- DXSpec_MetalnessTexture_init (GLTF.pbr_metallic_roughness obj) src m_over ;;
  Ok ({| occlusion := occ; roughness := rough; metalness := metal |}, override).

Definition orm_get_texture_key (self : DXSpec_OcclusionRoughnessMetalness)
    (resolution : list Z) : DXSpec_TextureKey :=
  let texs := [occlusion self; roughness self; metalness self] in
  (map (fun tex => (uri tex, swizzle tex)) texs, "BC7_UNORM", resolution).

(** [DXSpec_EmissiveTexture]: the constructor can return without having
    assigned an attribute; [None] is an attribute that was never set, and
    reading it raises [AttributeError]. *)
Record DXSpec_EmissiveTexture : Type := {
  em_uri : option (option pyuri);
  em_swizzle : option string;
  em_factor : option pyval
}.

Definition getattr {A} (attr : string) (slot : option A) : result A :=
  match slot with
  | Some a => Ok a
  | None => Raise (AttributeError attr)
  end.

(** Truth value of an [Optional[tuple]]. *)
Definition tuple_truthy (t : option (list pyval)) : bool :=
  match t with
  | Some (_ :: _) => true
  | _ => false
  end.

Definition DXSpec_EmissiveTexture_init (obj : GLTF.GLTF_Material)
    (src : GLTFSrc) (override : option pydict) : result DXSpec_EmissiveTexture :=
  let texture := GLTF.emissive_texture obj in
  let factor := GLTF.emissive_factor obj in
  self <-
    (if is_some texture || tuple_truthy factor then
       u <- match texture with
            | Some t => texture_idx2uri src (GLTF.index t)
            | None => Ok None
            end ;;
       Ok {| em_uri := Some u;
             em_swizzle := Some (if is_some texture then "rgb" else "111");
             em_factor := Some (PTuple (if tuple_truthy factor
                                        then default [] factor
                                        else [PFloat 1; PFloat 1; PFloat 1])) |}
     else
       match override with
       | None => Raise (ValueError NoEmissiveSource)
       | Some _ => Ok {| em_uri := None; em_swizzle := None; em_factor := None |}
       end) ;;
  match override with
  | Some ((_ :: _) as d) =>
      '(self1, d1) <-
        match dict_get d "uri" with
        | Some v =>
            u <- as_uri v ;;
            Ok ({| em_uri := Some u; em_swizzle := Some "rgb";
                   em_factor := em_factor self |},
                dict_del d "uri")
        | None => Ok (self, d)
        end ;;
      '(self2, d2) <-
        match dict_get d1 "factor" with
        | Some m =>
            f <- getattr "factor" (em_factor self1) ;;
            f' <- Utils.modulate f m ;;
            Ok ({| em_uri := em_uri self1; em_swizzle := em_swizzle self1;
                   em_factor := Some f' |},
                dict_del d1 "factor")
        | None => Ok (self1, d1)
        end ;;
      if (0 <? length d2)%nat then Raise (ValueError (UnknownOverrides d2))
      else Ok self2
  | _ => Ok self
  end.

Definition emissive_get_texture_key (self : DXSpec_EmissiveTexture)
    (resolution : list Z) : result DXSpec_TextureKey :=
  u <- getattr "uri" (em_uri self) ;;
  s <- getattr "swizzle" (em_swizzle self) ;;
  Ok ([(u, s)], "BC6H_UF16", resolution).

Record DXSpec_Material : Type := {
  name : string;
  src_file : string;
  diffuse : DXSpec_TextureInfo;
  normal : DXSpec_TextureInfo;
  orm : DXSpec_OcclusionRoughnessMetalness;
  emissive : option DXSpec_EmissiveTexture;
  blend_mode : string;
  alpha_cutoff : pyval;
  double_sided : bool;
  resolution : list Z
}.

(** [assert self.blend_mode in [ 'OPAQUE', 'MASK', 'BLEND' ]] *)
Definition assert_blend_mode (v : pyval) : result string :=
  match v with
  | PStr s =>
      if py_in_strs v ["OPAQUE"; "MASK"; "BLEND"] then Ok s
      else Raise AssertionError
  | _ => Raise AssertionError
  end.

(** [assert isinstance( self.alpha_cutoff, int | float | NoneType )] *)
Definition assert_alpha_cutoff (v : pyval) : result pyval :=
  match v with
  | PNone | PBool _ | PInt _ | PFloat _ => Ok v
  | _ => Raise AssertionError
  end.

(** [assert isinstance( self.double_sided, bool )] *)
Definition assert_double_sided (v : pyval) : result bool :=
  match v with
  | PBool b => Ok b
  | _ => Raise AssertionError
  end.

Definition of_optional_float (x : option float) : pyval :=
  match x with
  | Some f => PFloat f
  | None => PNone
  end.

(** [resolution] is declared [tuple[int, int]]. *)
Definition as_int (v : pyval) : result Z :=
  match v with
  | PInt z => Ok z
  | PBool b => Ok (Z.b2z b)
  | _ => Raise (IllTyped "resolution")
  end.

(** The [if ... 'emissive' in override: ... else: self.emissive = None]
    statement of [DXSpec_Material.__init__], with the dict it leaves. *)
Definition emissive_slot (obj : GLTF.GLTF_Material) (src : GLTFSrc) (override : pydict)
  : result (option DXSpec_EmissiveTexture * pydict) :=
  if is_some (GLTF.emissive_texture obj) || tuple_truthy (GLTF.emissive_factor obj)
     || dict_mem "emissive" override
  then
    let '(e_over, override) := dict_pop_default override "emissive" PNone in
    e_over <- as_override e_over ;;
    e <- DXSpec_EmissiveTexture_init obj src e_over ;;
    Ok (Some e, override)
  else Ok (None, override).

Definition DXSpec_Material_init (obj : GLTF.GLTF_Material) (src : GLTFSrc)
    (override : option pydict) : result DXSpec_Material :=
  let override := match override with Some d => d | None => [] end in
  let '(bm, override) := dict_pop_default override "blend_mode" (GLTF.alpha_mode obj) in
  bm <- assert_blend_mode bm ;;
  let '(ac, override) :=
    dict_pop_default override "alpha_cutoff" (of_optional_float (GLTF.alpha_cutoff obj)) in
  ac <- assert_alpha_cutoff ac ;;
  let '(ds, override) := dict_pop_default override "double_sided" (GLTF.double_sided obj) in
  ds <- assert_double_sided ds ;;
  let '(d_over, override) := dict_pop_default override "diffuse" PNone in
  d_over <- as_override d_over ;;
  diff <- DXSpec_DiffuseTexture_init (GLTF.pbr_metallic_roughness obj) bm src d_over ;;
  let '(n_over, override) := dict_pop_default override "normal" PNone in
  n_over <- as_override n_over ;;
  norm <- DXSpec_NormalTexture_init (GLTF.normal_texture obj) src n_over ;;
  '(orm_, override) <- DXSpec_OcclusionRoughnessMetalness_init obj src (Some override) ;;
  '(em, override) <- emissive_slot obj src override ;;
  let '(res, override) :=
    dict_pop_default override "resolution" (PList [PInt (-1); PInt (-1)]) in
  res <- py_tuple res ;;
  res <- mapM as_int res ;;
  if (0 <? length override)%nat then Raise (ValueError (UnknownOverrides override))
  else
    Ok {| name := GLTF.name obj;
          src_file := file src;
          diffuse := diff;
          normal := norm;
          orm := orm_;
          emissive := em;
          blend_mode := bm;
          alpha_cutoff := ac;
          double_sided := ds;
          resolution := res |}.

Definition get_diffuse_texture_key (self : DXSpec_Material) : result DXSpec_TextureKey :=
  diffuse_get_texture_key (diffuse self) (resolution self).

Definition get_normal_texture_key (self : DXSpec_Material) : DXSpec_TextureKey :=
  normal_get_texture_key (normal self) (resolution self).

Definition get_orm_texture_key (self : DXSpec_Material) : DXSpec_TextureKey :=
  orm_get_texture_key (orm self) (resolution self).

Definition get_emissive_texture_key (self : DXSpec_Material)
  : result (option DXSpec_TextureKey) :=
  match emissive self with
  | Some e => k <- emissive_get_texture_key e (resolution self) ;; Ok (Some k)
  | None => Ok None
  end.

(** ** The three containers *)

(** One value per slot kind: the [diffuse], [normal], [orm] and
    [emissive] fields of [_Key2List], [_Str2Key] and [_Key2Str]. *)
Record PerSlot (A : Type) : Type := {
  on_diffuse : A;
  on_normal : A;
  on_orm : A;
  on_emissive : A
}.
Arguments on_diffuse {A} _.
Arguments on_normal {A} _.
Arguments on_orm {A} _.
Arguments on_emissive {A} _.

#[global] Instance pyuri_eq_dec : EqDecision pyuri.
Proof. solve_decision. Defined.

(** [for x in xs: s = f(s, x)], stopping at the first exception. *)
Fixpoint foldM {A S} (f : S -> A -> result S) (xs : list A) (s : S) : result S :=
  match xs with
  | [] => Ok s
  | x :: xs' => s' <- f s x ;; foldM f xs' s'
  end.

(** [d[key].append( mat_name )] on a [DefaultDict( list )] *)
Definition key2list_append (d : list (DXSpec_TextureKey * list string))
    (key : DXSpec_TextureKey) (mat_name : string)
  : list (DXSpec_TextureKey * list string) :=
  dict_set d key (default [] (dict_get d key) ++ [mat_name])%list.

(** [{ v: k for k, vs in d.items() for v in vs }] *)
Definition invert_key2list (d : list (DXSpec_TextureKey * list string))
  : list (string * DXSpec_TextureKey) :=
  fold_left
    (fun acc kvs => fold_left (fun acc v => dict_set acc v (fst kvs)) (snd kvs) acc)
    d [].

Record DXSpec_TextureKeysContainer : Type := {
  key2list : PerSlot (list (DXSpec_TextureKey * list string));
  keys_str2key : PerSlot (list (string * DXSpec_TextureKey))
}.

(** The body of the loop over [dxspec_material_db.items()]. *)
Definition add_material (k2l : PerSlot (list (DXSpec_TextureKey * list string)))
    (item : string * DXSpec_Material)
  : result (PerSlot (list (DXSpec_TextureKey * list string))) :=
  let '(mat_name, spec_mat) := item in
  diff_key <- get_diffuse_texture_key spec_mat ;;
  let norm_key := get_normal_texture_key spec_mat in
  let orm_key := get_orm_texture_key spec_mat in
  em_key <- get_emissive_texture_key spec_mat ;;
  Ok {| on_diffuse := key2list_append (on_diffuse k2l) diff_key mat_name;
        on_normal := key2list_append (on_normal k2l) norm_key mat_name;
        on_orm := key2list_append (on_orm k2l) orm_key mat_name;
        on_emissive := match em_key with
                       | Some k => key2list_append (on_emissive k2l) k mat_name
                       | None => on_emissive k2l
                       end |}.

Definition DXSpec_TextureKeysContainer_init
    (dxspec_material_db : list (string * DXSpec_Material))
  : result DXSpec_TextureKeysContainer :=
  k2l <- foldM add_material dxspec_material_db
           {| on_diffuse := []; on_normal := []; on_orm := []; on_emissive := [] |} ;;
  Ok {| key2list := k2l;
        keys_str2key :=
          {| on_diffuse := invert_key2list (on_diffuse k2l);
             on_normal := invert_key2list (on_normal k2l);
             on_orm := invert_key2list (on_orm k2l);
             on_emissive := invert_key2list (on_emissive k2l) |} |}.

Definition replace_backslash (s : string) : string :=
  string_of_list_ascii
    (map (fun c => if Ascii.eqb c "\" then "/"%char else c) (list_ascii_of_string s)).

Definition name_fold (key : DXSpec_TextureKey) (default : string) : result string :=
  let paths := omap fst (fst (fst key)) in
  match paths with
  | [] => Ok default
  | p0 :: _ =>
      if forallb (fun p => bool_decide (p = p0)) paths then
        match p0 with
        | UPath p => Ok (replace_backslash (path_stem p ++ ".dds"))
        | UStr _ => Raise (AttributeError "stem")
        end
      else Raise (ValueError (CannotFold key))
  end.

(** The body of the loop over [texture_keys.keys()]; [texture_outs] maps
    names to keys, [texture_outs_inv] keys to names. *)
Definition register (default : string)
    (st : list (string * DXSpec_TextureKey) * list (DXSpec_TextureKey * string))
    (key : DXSpec_TextureKey)
  : result (list (string * DXSpec_TextureKey) * list (DXSpec_TextureKey * string)) :=
  let '(texture_outs, texture_outs_inv) := st in
  key_name_fold <- name_fold key default ;;
  texture_outs <-
    (if negb (dict_mem key_name_fold texture_outs)
     then Ok (dict_set texture_outs key_name_fold key)
     else Raise (ValueError OutnameExists)) ;;
  texture_outs_inv <-
    (if negb (dict_mem key texture_outs_inv)
     then Ok (dict_set texture_outs_inv key key_name_fold)
     else Raise (ValueError OutnameInverseExists)) ;;
  Ok (texture_outs, texture_outs_inv).

Definition fold_names (texture_keys : list (DXSpec_TextureKey * list string))
    (default : string)
  : result (list (string * DXSpec_TextureKey) * list (DXSpec_TextureKey * string)) :=
  foldM (register default) (dict_keys texture_keys) ([], []).

Record DXSpec_TextureSpecContainer : Type := {
  key2str : PerSlot (list (DXSpec_TextureKey * string));
  str2key : PerSlot (list (string * DXSpec_TextureKey))
}.

Definition DXSpec_TextureSpecContainer_init
    (dxspec_texture_keys_db : DXSpec_TextureKeysContainer)
  : result DXSpec_TextureSpecContainer :=
  let k2l := key2list dxspec_texture_keys_db in
  d <- fold_names (on_diffuse k2l) "$DEFAULT_DIFFUSE" ;;
  n <- fold_names (on_normal k2l) "$DEFAULT_NORMAL" ;;
  o <- fold_names (on_orm k2l) "$DEFAULT_ORM" ;;
  e <- fold_names (on_emissive k2l) "$DEFAULT_EMISSIVE" ;;
  Ok {| key2str := {| on_diffuse := snd d; on_normal := snd n;
                      on_orm := snd o; on_emissive := snd e |};
        str2key := {| on_diffuse := fst d; on_normal := fst n;
                      on_orm := fst o; on_emissive := fst e |} |}.

(** [{ k: tex_outs[v] for k, v in tex_keys.items() }] *)
Definition compose_names (tex_outs : list (DXSpec_TextureKey * string))
    (tex_keys : list (string * DXSpec_TextureKey))
  : result (list (string * string)) :=
  mapM (fun kv =>
          match dict_get tex_outs (snd kv) with
          | Some n => Ok (fst kv, n)
          | None => Raise KeyError
          end) tex_keys.

Definition DXSpec_Mat2TextureContainer_init
    (dxspec_texture_keys_db : DXSpec_TextureKeysContainer)
    (dxspec_texture_outs_db : DXSpec_TextureSpecContainer)
  : result (PerSlot (list (string * string))) :=
  let tex_outs := key2str dxspec_texture_outs_db in
  let tex_keys := keys_str2key dxspec_texture_keys_db in
  d <- compose_names (on_diffuse tex_outs) (on_diffuse tex_keys) ;;
  n <- compose_names (on_normal tex_outs) (on_normal tex_keys) ;;
  o <- compose_names (on_orm tex_outs) (on_orm tex_keys) ;;
  e <- compose_names (on_emissive tex_outs) (on_emissive tex_keys) ;;
  Ok {| on_diffuse := d; on_normal := n; on_orm := o; on_emissive := e |}.

End DXSpec.

(* ===================================================================== *)
(** * __main__.py                                                         *)
(* ===================================================================== *)

Module Main.



(** The three statements of [main] that turn the material database into
    the material-to-filename table. *)
Definition texture_tables (dxspec_material_db : list (string * DXSpec.DXSpec_Material))
  : result (DXSpec.PerSlot (list (string * string))) :=
  dxspec_texture_keys_db <- DXSpec.DXSpec_TextureKeysContainer_init dxspec_material_db ;;
  dxspec_texture_outs_db <- DXSpec.DXSpec_TextureSpecContainer_init dxspec_texture_keys_db ;;
  DXSpec.DXSpec_Mat2TextureContainer_init dxspec_texture_keys_db dxspec_texture_outs_db.

End Main.

(* ===================================================================== *)
(** * __main__.py: [parse_materials]                                      *)
(* ===================================================================== *)

Module Parse.









End Parse.

(* ===================================================================== *)
(** * dxtf_material_utils.py                                              *)
(* ===================================================================== *)

Module Dxtf.

(** ** [DXTF_Material] *)

Record DXTF_DiffuseTexture : Type := {
  diffuse_texture : string;
  diffuse_strength : pyval
}.

Record DXTF_NormalTexture : Type := {
  normal_texture : string;
  normal_strength : pyval
}.

Record DXTF_ORMTexture : Type := {
  orm_texture : string;
  occlusion_strength : pyval;
  roughness_strength : pyval;
  metalness_strength : pyval
}.

Record DXTF_EmissiveTexture : Type := {
  emissive_texture : string;
  emissive_strength : pyval
}.

Record DXTF_Material : Type := {
  name : string;
  diffuse : DXTF_DiffuseTexture;
  normal : DXTF_NormalTexture;
  orm : DXTF_ORMTexture;
  emissive : option DXTF_EmissiveTexture;
  blend_mode : string;
  alpha_cutoff : pyval;
  double_sided : bool
}.

(** [d[k]] on a [dict[str, str]] *)
Definition table_getitem (d : list (string * string)) (k : string) : result string :=
  match dict_get d k with
  | Some v => Ok v
  | None => Raise KeyError
  end.

(** [DXTF_Material.__init__( self, src, tex )].  [if src.emissive:] tests
    an object, which is true, against [None]. *)
Definition DXTF_Material_init (src : DXSpec.DXSpec_Material)
    (tex : DXSpec.PerSlot (list (string * string))) : result DXTF_Material :=
  let name := DXSpec.name src in
  dt <- table_getitem (DXSpec.on_diffuse tex) name ;;
  nt <- table_getitem (DXSpec.on_normal tex) name ;;
  ot <- table_getitem (DXSpec.on_orm tex) name ;;
  em <- match DXSpec.emissive src with
        | Some e =>
            et <- table_getitem (DXSpec.on_emissive tex) name ;;
            f <- DXSpec.getattr "factor" (DXSpec.em_factor e) ;;
            Ok (Some {| emissive_texture := et; emissive_strength := f |})
        | None => Ok None
        end ;;
  Ok {| name := name;
        diffuse := {| diffuse_texture := dt;
                      diffuse_strength := DXSpec.strength (DXSpec.diffuse src) |};
        normal := {| normal_texture := nt;
                     normal_strength := DXSpec.strength (DXSpec.normal src) |};
        orm := {| orm_texture := ot;
                  occlusion_strength :=
                    DXSpec.strength (DXSpec.occlusion (DXSpec.orm src));
                  roughness_strength :=
                    DXSpec.strength (DXSpec.roughness (DXSpec.orm src));
                  metalness_strength :=
                    DXSpec.strength (DXSpec.metalness (DXSpec.orm src)) |};
        emissive := em;
        blend_mode := DXSpec.blend_mode src;
        alpha_cutoff := DXSpec.alpha_cutoff src;
        double_sided := DXSpec.double_sided src |}.

(** [dataclasses.asdict( self )]: the fields in the order of the class,
    each nested dataclass a dict of its own fields. *)
Definition asdict (self : DXTF_Material) : pydict :=
  [("name", PStr (name self));
   ("diffuse", PDict [("texture", PStr (diffuse_texture (diffuse self)));
                      ("strength", diffuse_strength (diffuse self))]);
   ("normal", PDict [("texture", PStr (normal_texture (normal self)));
                     ("strength", normal_strength (normal self))]);
   ("orm", PDict [("texture", PStr (orm_texture (orm self)));
                  ("occlusion_strength", occlusion_strength (orm self));
                  ("roughness_strength", roughness_strength (orm self));
                  ("metalness_strength", metalness_strength (orm self))]);
   ("emissive", match emissive self with
                | Some e => PDict [("texture", PStr (emissive_texture e));
                                   ("strength", emissive_strength e)]
                | None => PNone
                end);
   ("blend_mode", PStr (blend_mode self));
   ("alpha_cutoff", alpha_cutoff self);
   ("double_sided", PBool (double_sided self))].

(** [out.pop( k )], for the dict that remains *)
Definition popped (out : pydict) (k : string) : result pydict :=
  '(_, out) <- dict_pop out k ;; Ok out.

Definition as_dict (self : DXTF_Material) : result pydict :=
  let out := asdict self in
  out <- (if negb (is_some (emissive self)) then popped out "emissive" else Ok out) ;;
  out <- (if negb (String.eqb (blend_mode self) "MASK")
          then popped out "alpha_cutoff" else Ok out) ;;
  Ok out.

Definition as_nameless_dict (self : DXTF_Material) : result pydict :=
  out <- as_dict self ;;
  popped out "name".

(** [DXTF_Material.list_from_texture_specs]:
    [[ cls( v, dxspec_mat2textures_db ) for v in dxspec_material_db.values() ]] *)
Definition list_from_texture_specs
    (dxspec_material_db : list (string * DXSpec.DXSpec_Material))
    (dxspec_mat2textures_db : DXSpec.PerSlot (list (string * string)))
  : result (list DXTF_Material) :=
  mapM (fun kv => DXTF_Material_init (snd kv) dxspec_mat2textures_db) dxspec_material_db.

(** ** [DXTF_Tex2DDS] *)

Record DXTF_Tex2DDS : Type := {
  format : string;
  srgb : pyval;
  output_path : pyuri;
  channels : list (option pyuri * string);
  resolution : list Z
}.

(** How a statement of this class ends: with a value, with an exception of
    the modules above, or with the [ValueError] of [DXTF_Tex2DDS.__init__],
    whose message names the format, [expected_channels] and
    [actual_channels]. *)
Inductive outcome (A : Type) : Type :=
| Done (a : A)
| Raised (e : exn)
| RaisedChannels (format : string) (expected_channels : Z) (actual_channels : bool).
Arguments Done {A} a.
Arguments Raised {A} e.
Arguments RaisedChannels {A} format expected_channels actual_channels.

Definition obind {A B} (m : outcome A) (k : A -> outcome B) : outcome B :=
  match m with
  | Done a => k a
  | Raised e => Raised e
  | RaisedChannels f e a => RaisedChannels f e a
  end.

Definition lift {A} (r : result A) : outcome A :=
  match r with
  | Ok a => Done a
  | Raise e => Raised e
  end.

(** [s in 'rgba'] for a character [s] *)
Definition in_rgba (s : ascii) : bool :=
  existsb (Ascii.eqb s) (list_ascii_of_string "rgba").

(** [for s in swizzle: self.channels.append( ( tex if s in 'rgba' else None, s ) )] *)
Definition swizzle_channels (tex : option pyuri) (swizzle : string)
  : list (option pyuri * string) :=
  map (fun s => (if in_rgba s then tex else None, String s EmptyString))
      (list_ascii_of_string swizzle).

(** [for tex, swizzle in texture_key[0]: ...] *)
Definition key_channels (sub_keys : list (option pyuri * string))
  : list (option pyuri * string) :=
  flat_map (fun sk => swizzle_channels (fst sk) (snd sk)) sub_keys.

(** [while len( self.channels ) < expected_channels:
       self.channels.append( ( None, '1' ) )], for at most [fuel] rounds. *)
Fixpoint pad_channels (fuel : nat) (expected_channels : Z)
    (channels : list (option pyuri * string)) : list (option pyuri * string) :=
  match fuel with
  | O => channels
  | S fuel' =>
      if Z.of_nat (length channels) <? expected_channels
      then pad_channels fuel' expected_channels (channels ++ [(None, "1")])%list
      else channels
  end.

(** [DXTF_Tex2DDS.__init__].  In
    [if actual_channels := len( self.channels ) > expected_channels:]
    the name is bound to the comparison, a [bool]. *)
Definition DXTF_Tex2DDS_init (texture_path : string) (texture_key : DXSpec_TextureKey)
    (out_path : string) (srgb : pyval) : outcome DXTF_Tex2DDS :=
  let format := snd (fst texture_key) in
  let output_path := Path (path_join out_path texture_path) in
  let resolution := snd texture_key in
  let channels := key_channels (fst (fst texture_key)) in
  obind (lift (Utils.format_get_channels format)) (fun expected_channels =>
  let actual_channels := expected_channels <? Z.of_nat (length channels) in
  if actual_channels then RaisedChannels format expected_channels actual_channels
  else
    Done {| format := format;
            srgb := srgb;
            output_path := output_path;
            channels := pad_channels (Z.to_nat expected_channels) expected_channels
                          channels;
            resolution := resolution |}).

(** [str( f )] and the truth value of [f], for a [Path] or a [str] *)
Definition uri_str (u : pyuri) : string :=
  match u with
  | UPath p => p
  | UStr s => s
  end.

Definition uri_truthy (u : pyuri) : bool :=
  match u with
  | UPath _ => true
  | UStr s => negb (String.eqb s "")
  end.

(** [{ 'file': str( f ).replace( '\\', '/' ) if f else None, 'src': s }] *)
Definition channel_dict (c : option pyuri * string) : pyval :=
  PDict [("file", match fst c with
                  | Some f =>
                      if uri_truthy f
                      then PStr (DXSpec.replace_backslash (uri_str f))
                      else PNone
                  | None => PNone
                  end);
         ("src", PStr (snd c))].

Definition tex2dds_as_dict (self : DXTF_Tex2DDS) : pydict :=
  [("output_path", PStr (DXSpec.replace_backslash (uri_str (output_path self))));
   ("srgb", srgb self);
   ("format", PStr (format self));
   ("resolution", PList (map PInt (resolution self)));
   ("channels", PList (map channel_dict (channels self)))].

Definition tex2dds_as_nameless_dict (self : DXTF_Tex2DDS) : result pydict :=
  popped (tex2dds_as_dict self) "output_path".

(** ['$' in k] *)
Definition contains_dollar (k : string) : bool :=
  existsb (Ascii.eqb "$") (list_ascii_of_string k).

(** The body of the inner loop of [DXTF_Tex2DDS.list_from_texture_specs];
    [key] is the name of the slot kind. *)
Definition add_tex2dds (dx_textures_path : string) (tex2dds_settings : pyval)
    (key : string) (dxtf_tex2dds_db : list DXTF_Tex2DDS)
    (item : string * DXSpec_TextureKey) : outcome (list DXTF_Tex2DDS) :=
  let '(k, v) := item in
  if contains_dollar k then Done dxtf_tex2dds_db
  else
    obind (lift (s <- py_getitem tex2dds_settings (PStr key) ;;
                 py_getitem s (PStr "srgb"))) (fun srgb =>
    obind (DXTF_Tex2DDS_init k v dx_textures_path srgb) (fun t =>
    Done (dxtf_tex2dds_db ++ [t])%list)).

Fixpoint ofold {A S} (f : S -> A -> outcome S) (xs : list A) (s : S) : outcome S :=
  match xs with
  | [] => Done s
  | x :: xs' => obind (f s x) (ofold f xs')
  end.

Definition tex2dds_list_from_texture_specs
    (dxspec_texture_outs_db : DXSpec.DXSpec_TextureSpecContainer)
    (dx_textures_path : string) (tex2dds_settings : pyval)
  : outcome (list DXTF_Tex2DDS) :=
  let str2key := DXSpec.str2key dxspec_texture_outs_db in
  ofold (fun db tk =>
           ofold (add_tex2dds dx_textures_path tex2dds_settings (snd tk)) (fst tk) db)
    [(DXSpec.on_diffuse str2key, "diffuse");
     (DXSpec.on_normal str2key, "normal");
     (DXSpec.on_orm str2key, "orm");
     (DXSpec.on_emissive str2key, "emissive")]
    [].

End Dxtf.

(* ===================================================================== *)
(** * gltf_src.py: [as_dxtf]                                              *)
(* ===================================================================== *)

Module SrcDxtf.

(** [s.replace( old, new )] for a non-empty [old]: the occurrences of
    [old] are found from the left and do not overlap.  [skip] counts the
    characters of an occurrence still to be passed over. *)
Fixpoint replace_from (old new s : string) (skip : nat) : string :=
  match s with
  | EmptyString => EmptyString
  | String c s' =>
      match skip with
      | S k => replace_from old new s' k
      | O =>
          if String.prefix old s
          then new ++ replace_from old new s' (String.length old - 1)
          else String c (replace_from old new s' O)
      end
  end.

Definition str_replace (old new s : string) : string := replace_from old new s O.

(** The body of [for b in dxtf[ 'buffers' ]:] *)
Definition rename_buffer (b : pyval) : result pyval :=
  match b with
  | PDict d =>
      match dict_get d "uri" with
      | Some (PStr u) =>
          Ok (PDict (dict_set d "uri" (PStr (str_replace ".comp.bin" ".dxtf_mdl" u))))
      | Some _ => Raise (AttributeError "replace")
      | None => Raise KeyError
      end
  | _ => Raise TypeError
  end.

(** [for k in list( mat.keys() ): if k != 'name': mat.pop( k )] *)
Definition pop_unless_name (mat : pydict) (k : string) : pydict :=
  if negb (String.eqb k "name") then dict_del mat k else mat.

(** The body of [for mat in dxtf[ 'materials' ]:] *)
Definition strip_material (mat : pyval) : result pyval :=
  match mat with
  | PDict d => Ok (PDict (fold_left pop_unless_name (dict_keys d) d))
  | _ => Raise (AttributeError "keys")
  end.

(** [for x in v: body( x )] where the body mutates [x]: the elements of a
    list are replaced by what the body leaves; the keys of a dict and the
    characters of a [str] are visited, and nothing is replaced. *)
Definition for_each (body : pyval -> result pyval) (v : pyval) : result pyval :=
  match v with
  | PList l => l' <- mapM body l ;; Ok (PList l')
  | PTuple l => l' <- mapM body l ;; Ok (PTuple l')
  | _ => xs <- py_tuple v ;; _ <- mapM body xs ;; Ok v
  end.

(** [GLTFSrc.as_dxtf( self )]; [copy.deepcopy( self.data )] is the value
    of [self.data]. *)
Definition as_dxtf (self : GLTFSrc) : result pyval :=
  match data self with
  | PDict d =>
      let dxtf := dict_del d "textures" in
      let dxtf := dict_del dxtf "images" in
      let dxtf := dict_del dxtf "samples" in
      buffers <- py_getitem (PDict dxtf) (PStr "buffers") ;;
      buffers <- for_each rename_buffer buffers ;;
      let dxtf := dict_set dxtf "buffers" buffers in
      materials <- py_getitem (PDict dxtf) (PStr "materials") ;;
      materials <- for_each strip_material materials ;;
      Ok (PDict (dict_set dxtf "materials" materials))
  | PList _ => Raise TypeError
  | _ => Raise (AttributeError "pop")
  end.

End SrcDxtf.

(* ===================================================================== *)
(** * Vocabulary of the statements                                        *)
(* ===================================================================== *)

Import Utils Store.

Module Vocabulary.

(** A modifier is a literal when it is not a directive dict. *)
Definition is_literal (modifier : pyval) : bool :=
  match modifier with
  | PDict _ => false
  | _ => true
  end.

(** The two assertions of [modulate]: same scalar-ness and same
    vector-ness. *)
Definition same_shape (a b : pyval) : bool :=
  Bool.eqb (is_numeric a) (is_numeric b)
  && Bool.eqb (is_numeric_sequence a) (is_numeric_sequence b).

(** Python's [*] or [+], by the operator name of a directive. *)
Definition py_arith (op : string) : pyval -> pyval -> result pyval :=
  if String.eqb op "mult" then py_mul else py_add.

(** A number whose conversion to [float], if it is an [int], does not
    overflow; floats, bools and ints up to the largest double qualify. *)
Definition fits_float (v : pyval) : bool :=
  match v with
  | PInt z => is_ok (float_of_int z)
  | _ => true
  end.

(** [d.get(k, v)] *)
Definition get_or (d : pydict) (k : string) (v : pyval) : pyval :=
  default v (dict_get d k).

(** The four slot kinds, and the field of a [PerSlot] each one names. *)
Inductive slot_kind : Type := Diffuse | Normal | ORM | Emissive.

Definition at_slot {A} (s : slot_kind) (p : DXSpec.PerSlot A) : A :=
  match s with
  | Diffuse => DXSpec.on_diffuse p
  | Normal => DXSpec.on_normal p
  | ORM => DXSpec.on_orm p
  | Emissive => DXSpec.on_emissive p
  end.

(** The default name [DXSpec_TextureSpecContainer] passes to [name_fold]
    for each slot kind. *)
Definition default_name (s : slot_kind) : string :=
  match s with
  | Diffuse => "$DEFAULT_DIFFUSE"
  | Normal => "$DEFAULT_NORMAL"
  | ORM => "$DEFAULT_ORM"
  | Emissive => "$DEFAULT_EMISSIVE"
  end.

(** Two dicts that are each other's inverse. *)
Definition mutually_inverse {K N} `{EqDecision K} `{EqDecision N}
    (key2name : list (K * N)) (name2key : list (N * K)) : Prop :=
  forall k n, dict_get key2name k = Some n <-> dict_get name2key n = Some k.

(** [isinstance(v, Mapping)] *)
Definition is_mapping (v : pyval) : bool :=
  match v with
  | PDict _ => true
  | _ => false
  end.

(** One round of the loop of [recursive_overwrite]: the item [(k, v)] of
    the overlay written into [A]. *)
Definition merge_entry (A : pydict) (k : string) (v : pyval) : pydict :=
  match dict_get A k, v with
  | Some (PDict a), PDict b => dict_set A k (PDict (recursive_overwrite a b))
  | _, _ => dict_set A k v
  end.

(** The value the merge leaves under a key of the overlay that holds [v],
    when the base holds [old] (or nothing) there. *)
Definition merged_value (old : option pyval) (v : pyval) : pyval :=
  match old, v with
  | Some (PDict a), PDict b => PDict (recursive_overwrite a b)
  | _, _ => v
  end.


(** A value as [json.load] builds it: no dict, at any depth, has a key
    twice. *)
Fixpoint well_formed (v : pyval) : bool :=
  match v with
  | PDict d =>
      bool_decide (NoDup (map fst d))
      && (fix all (l : pydict) : bool :=
            match l with
            | [] => true
            | (_, v') :: l' => well_formed v' && all l'
            end) d
  | PList l | PTuple l =>
      (fix all (l : list pyval) : bool :=
         match l with
         | [] => true
         | v' :: l' => well_formed v' && all l'
         end) l
  | _ => true
  end.

(** ** Override records read by lookups

    The constructors consume an override by popping one key after the
    other and raise on what is left.  The definitions below compute the
    same objects from lookups in the whole record; the lemmas
    [apply_override_eq], [DXSpec_EmissiveTexture_init_eq] and
    [DXSpec_Material_init_eq] relate them to the constructors. *)

(** [d] with each of the keys [ks] popped, in that order. *)
Definition without_keys (ks : list string) (d : pydict) : pydict :=
  fold_left dict_del ks d.

(** The items of [d] under one of the keys [ks]. *)
Definition only_keys (ks : list string) (d : pydict) : pydict :=
  List.filter (fun kv => existsb (String.eqb (fst kv)) ks) d.

(** Two records that agree on the keys [ks]. *)
Definition agree_on (ks : list string) (d d' : pydict) : Prop :=
  forall k, In k ks -> dict_get d' k = dict_get d k.

(** The final statement of every constructor:
    [if len( override ) > 0: raise ValueError( f'Unknown overrides: {override}' )]. *)
Definition reject_leftover {A} (rest : pydict) (a : A) : result A :=
  if (0 <? length rest)%nat then Raise (ValueError (UnknownOverrides rest)) else Ok a.

(** The six classes that take a slot-level override record, the key each
    one has under the material's override, and the key of its numeric
    field. *)
Inductive slot_class : Type :=
  | NormalTexture | OcclusionTexture | RoughnessTexture | MetalnessTexture
  | DiffuseTexture | EmissiveTexture.

Definition sub_record_key (c : slot_class) : string :=
  match c with
  | NormalTexture => "normal"
  | OcclusionTexture => "occlusion"
  | RoughnessTexture => "roughness"
  | MetalnessTexture => "metalness"
  | DiffuseTexture => "diffuse"
  | EmissiveTexture => "emissive"
  end.



Definition material_keys : list string :=
  ["blend_mode"; "alpha_cutoff"; "double_sided"; "diffuse"; "normal";
   "occlusion"; "roughness"; "metalness"; "emissive"; "resolution"].

(** The constructor of a slot class, applied to the part of the source
    material it reads. *)
Definition construct (c : slot_class) (obj : GLTF.GLTF_Material) (alpha_mode : string)
    (src : GLTFSrc) (override : option pydict)
  : result (DXSpec.DXSpec_TextureInfo + DXSpec.DXSpec_EmissiveTexture) :=
  match c with
  | NormalTexture =>
      t <- DXSpec.DXSpec_NormalTexture_init (GLTF.normal_texture obj) src override ;;
      Ok (inl t)
  | OcclusionTexture =>
      t <- DXSpec.DXSpec_OcclusionTexture_init (GLTF.occlusion_texture obj) src override ;;
      Ok (inl t)
  | RoughnessTexture =>
      t <- DXSpec.DXSpec_RoughnessTexture_init (GLTF.pbr_metallic_roughness obj) src override ;;
      Ok (inl t)
  | MetalnessTexture =>
      t <- DXSpec.DXSpec_MetalnessTexture_init (GLTF.pbr_metallic_roughness obj) src override ;;
      Ok (inl t)
  | DiffuseTexture =>
      t <- DXSpec.DXSpec_DiffuseTexture_init (GLTF.pbr_metallic_roughness obj) alpha_mode
             src override ;;
      Ok (inl t)
  | EmissiveTexture =>
      e <- DXSpec.DXSpec_EmissiveTexture_init obj src override ;;
      Ok (inr e)
  end.

(** The two recognized fields of a slot-level record, applied to [self]. *)
Definition override_fields (tex_swizzle key : string)
    (self : DXSpec.DXSpec_TextureInfo) (d : pydict) : result DXSpec.DXSpec_TextureInfo :=
  self1 <-
    match dict_get d "uri" with
    | Some v =>
        u <- DXSpec.as_uri v ;;
        Ok {| DXSpec.uri := u; DXSpec.swizzle := tex_swizzle;
              DXSpec.strength := DXSpec.strength self |}
    | None => Ok self
    end ;;
  match dict_get d key with
  | Some m =>
      s <- modulate (DXSpec.strength self1) m ;;
      Ok {| DXSpec.uri := DXSpec.uri self1; DXSpec.swizzle := DXSpec.swizzle self1;
            DXSpec.strength := s |}
  | None => Ok self1
  end.

(** The same for the emissive class. *)
Definition emissive_fields (self : DXSpec.DXSpec_EmissiveTexture) (d : pydict)
  : result DXSpec.DXSpec_EmissiveTexture :=
  self1 <-
    match dict_get d "uri" with
    | Some v =>
        u <- DXSpec.as_uri v ;;
        Ok {| DXSpec.em_uri := Some u; DXSpec.em_swizzle := Some "rgb";
              DXSpec.em_factor := DXSpec.em_factor self |}
    | None => Ok self
    end ;;
  match dict_get d "factor" with
  | Some m =>
      f <- DXSpec.getattr "factor" (DXSpec.em_factor self1) ;;
      f' <- modulate f m ;;
      Ok {| DXSpec.em_uri := DXSpec.em_uri self1;
            DXSpec.em_swizzle := DXSpec.em_swizzle self1;
            DXSpec.em_factor := Some f' |}
  | None => Ok self1
  end.

(** What [DXSpec_EmissiveTexture] sets before it looks at the fields of the
    override. *)
Definition emissive_base (obj : GLTF.GLTF_Material) (src : GLTFSrc)
    (override : option pydict) : result DXSpec.DXSpec_EmissiveTexture :=
  let texture := GLTF.emissive_texture obj in
  let factor := GLTF.emissive_factor obj in
  if is_some texture || DXSpec.tuple_truthy factor then
    u <- match texture with
         | Some t => texture_idx2uri src (GLTF.index t)
         | None => Ok None
         end ;;
    Ok {| DXSpec.em_uri := Some u;
          DXSpec.em_swizzle := Some (if is_some texture then "rgb" else "111");
          DXSpec.em_factor := Some (PTuple (if DXSpec.tuple_truthy factor
                                            then default [] factor
                                            else [PFloat 1; PFloat 1; PFloat 1])) |}
  else
    match override with
    | None => Raise (ValueError NoEmissiveSource)
    | Some _ => Ok {| DXSpec.em_uri := None; DXSpec.em_swizzle := None;
                      DXSpec.em_factor := None |}
    end.

(** The three sub-slots of the ORM object, from the material's override. *)
Definition orm_fields (obj : GLTF.GLTF_Material) (src : GLTFSrc) (d : pydict)
  : result DXSpec.DXSpec_OcclusionRoughnessMetalness :=
  o_over <- DXSpec.as_override (get_or d "occlusion" PNone) ;;
  occ <- DXSpec.DXSpec_OcclusionTexture_init (GLTF.occlusion_texture obj) src o_over ;;
  r_over <- DXSpec.as_override (get_or d "roughness" PNone) ;;
  rough <- DXSpec.DXSpec_RoughnessTexture_init (GLTF.pbr_metallic_roughness obj) src r_over ;;
  m_over <- DXSpec.as_override (get_or d "metalness" PNone) ;;
  metal <- DXSpec.DXSpec_MetalnessTexture_init (GLTF.pbr_metallic_roughness obj) src m_over ;;
  Ok {| DXSpec.occlusion := occ; DXSpec.roughness := rough; DXSpec.metalness := metal |}.

(** The optional emissive slot, from the material's override. *)
Definition emissive_field (obj : GLTF.GLTF_Material) (src : GLTFSrc) (d : pydict)
  : result (option DXSpec.DXSpec_EmissiveTexture) :=
  if is_some (GLTF.emissive_texture obj) || DXSpec.tuple_truthy (GLTF.emissive_factor obj)
     || dict_mem "emissive" d
  then
    e_over <- DXSpec.as_override (get_or d "emissive" PNone) ;;
    e <- DXSpec.DXSpec_EmissiveTexture_init obj src e_over ;;
    Ok (Some e)
  else Ok None.

(** The whole material, from the material's override. *)
Definition material_fields (obj : GLTF.GLTF_Material) (src : GLTFSrc) (d : pydict)
  : result DXSpec.DXSpec_Material :=
  bm <- DXSpec.assert_blend_mode (get_or d "blend_mode" (GLTF.alpha_mode obj)) ;;
  ac <- DXSpec.assert_alpha_cutoff
          (get_or d "alpha_cutoff" (DXSpec.of_optional_float (GLTF.alpha_cutoff obj))) ;;
  ds <- DXSpec.assert_double_sided (get_or d "double_sided" (GLTF.double_sided obj)) ;;
  d_over <- DXSpec.as_override (get_or d "diffuse" PNone) ;;
  diff <- DXSpec.DXSpec_DiffuseTexture_init (GLTF.pbr_metallic_roughness obj) bm src
            d_over ;;
  n_over <- DXSpec.as_override (get_or d "normal" PNone) ;;
  norm <- DXSpec.DXSpec_NormalTexture_init (GLTF.normal_texture obj) src n_over ;;
  orm_ <- orm_fields obj src d ;;
  em <- emissive_field obj src d ;;
  res <- py_tuple (get_or d "resolution" (PList [PInt (-1); PInt (-1)])) ;;
  res <- mapM DXSpec.as_int res ;;
  Ok {| DXSpec.name := GLTF.name obj;
        DXSpec.src_file := file src;
        DXSpec.diffuse := diff;
        DXSpec.normal := norm;
        DXSpec.orm := orm_;
        DXSpec.emissive := em;
        DXSpec.blend_mode := bm;
        DXSpec.alpha_cutoff := ac;
        DXSpec.double_sided := ds;
        DXSpec.resolution := res |}.


(** ** Dict objects of a store *)

(** The objects reachable from the items of an object. *)
Abbreviation cells_of c items :=
  (flat_map (fun kv : string * hval => c (snd kv)) items).

(** What a copy is: the same value, held in objects allocated after the
    store [s] it was taken in, each reached once. *)
Definition fresh_copy (n : nat) (s s' : store) (hv' : hval) (v : pyval) : Prop :=
  value_at n s' hv' = Some v
  /\ NoDup (cells n s' hv')
  /\ forall l, In l (cells n s' hv') -> (length s <= l)%nat.

Definition fresh_items (n : nat) (s s' : store) (items' : hdict) (d : pydict) : Prop :=
  items_value (value_at n s') items' = Some d
  /\ NoDup (cells_of (cells n s') items')
  /\ forall l, In l (cells_of (cells n s') items') -> (length s <= l)%nat.

(** What [recursive_overwrite] has done to the store [s] when it holds
    [s']: the object [A] stands for [r], it reaches each of its objects
    once, these are objects it reached before or new ones, and no other
    object of [s] has changed. *)
Definition overwritten (n : nat) (s : store) (A : nat) (s' : store) (r : pydict) : Prop :=
  value_at n s' (HRef A) = Some (PDict r)
  /\ NoDup (cells n s' (HRef A))
  /\ (forall l, In l (cells n s' (HRef A)) ->
        In l (cells n s (HRef A)) \/ (length s <= l)%nat)
  /\ (forall l, (l < length s)%nat -> ~ In l (cells n s (HRef A)) ->
        s' !! l = s !! l)
  /\ (length s <= length s')%nat.

(** [recursive_overwrite(A, B)] at depth [n]: on two dicts that share no
    object the call returns and leaves the store as [overwritten] says. *)
Definition overwrites (n : nat) : Prop :=
  forall s A B a b,
    value_at n s (HRef A) = Some (PDict a) ->
    value_at n s (HRef B) = Some (PDict b) ->
    NoDup (cells n s (HRef A) ++ cells n s (HRef B)) ->
    exists s', recursive_overwrite_at n s A B = Some s'
               /\ overwritten n s A s' (recursive_overwrite a b).

(** ** Records, texture keys and the files of a run *)

Import DXSpec.

(** The nesting depth of dicts in a value. *)
Fixpoint depth (v : pyval) : nat :=
  match v with
  | PDict d =>
      S ((fix deepest (l : pydict) : nat :=
            match l with
            | [] => O
            | (_, v') :: l' => Nat.max (depth v') (deepest l')
            end) d)
  | _ => O
  end.

(** The texture key of a material for a slot kind, as
    [DXSpec_TextureKeysContainer] asks for it; there is none for a material
    without emissive slot. *)
Definition slot_key (s : slot_kind) (m : DXSpec_Material)
  : result (option DXSpec_TextureKey) :=
  match s with
  | Diffuse => k <- get_diffuse_texture_key m ;; Ok (Some k)
  | Normal => Ok (Some (get_normal_texture_key m))
  | ORM => Ok (Some (get_orm_texture_key m))
  | Emissive => get_emissive_texture_key m
  end.

(** The [uri] attributes of the slots of a material that are set. *)
Definition material_uris (m : DXSpec_Material) : list (option pyuri) :=
  ([uri (diffuse m); uri (normal m);
    uri (occlusion (orm m)); uri (roughness (orm m)); uri (metalness (orm m))]
   ++ match emissive m with
      | Some e => match em_uri e with Some u => [u] | None => [] end
      | None => []
      end)%list.

(** The [uri] attributes of the three ORM sub-slots. *)
Definition orm_uris (m : DXSpec_Material) : list (option pyuri) :=
  map uri [occlusion (orm m); roughness (orm m); metalness (orm m)].


(** What [DXTF_Tex2DDS( ... )] did when it returns [t] for the key [key]. *)
Definition tex2dds_built (key : DXSpec_TextureKey) (t : Dxtf.DXTF_Tex2DDS) : Prop :=
  format_get_channels (Dxtf.format t) = Ok (Z.of_nat (length (Dxtf.channels t)))
  /\ Dxtf.format t = snd (fst key)
  /\ Dxtf.resolution t = snd key
  /\ (exists n, Dxtf.channels t
                = (Dxtf.key_channels (fst (fst key)) ++ repeat (None, "1") n)%list)
  /\ (forall f s, In (Some f, s) (Dxtf.channels t) ->
        In s ["r"; "g"; "b"; "a"]).

(** The keys a material can have for a slot kind: one source with one of
    the swizzles of the slot, or the three sources of the ORM slot. *)
Definition slot_key_shape (s : slot_kind) (key : DXSpec_TextureKey) : Prop :=
  match s with
  | Diffuse =>
      exists u sw f, fst key = ([(u, sw)], f)
        /\ In sw ["1111"; "rgb1"; "rgba"] /\ In f ["BC1_UNORM_SRGB"; "BC3_UNORM_SRGB"]
  | Normal => exists u sw, fst key = ([(u, sw)], "BC5_UNORM") /\ In sw ["hh"; "rg"]
  | ORM =>
      exists u1 s1 u2 s2 u3 s3,
        fst key = ([(u1, s1); (u2, s2); (u3, s3)], "BC7_UNORM")
        /\ In s1 ["1"; "r"] /\ In s2 ["1"; "g"] /\ In s3 ["1"; "b"]
  | Emissive => exists u sw, fst key = ([(u, sw)], "BC6H_UF16") /\ In sw ["rgb"; "111"]
  end.

(** The name of a slot kind in [tex2dds_settings]. *)
Definition slot_label (s : slot_kind) : string :=
  match s with
  | Diffuse => "diffuse"
  | Normal => "normal"
  | ORM => "orm"
  | Emissive => "emissive"
  end.

(** The names of the spec container with their keys, in the order
    [list_from_texture_specs] visits them. *)
Definition named_textures (c : DXSpec_TextureSpecContainer)
  : list (slot_kind * (string * DXSpec_TextureKey)) :=
  flat_map (fun s => map (pair s) (at_slot s (str2key c))) [Diffuse; Normal; ORM; Emissive].

(** [tex2dds_settings[key]['srgb']] *)
Definition srgb_setting (tex2dds_settings : pyval) (s : slot_kind) : result pyval :=
  x <- py_getitem tex2dds_settings (PStr (slot_label s)) ;;
  py_getitem x (PStr "srgb").

(** The [DXTF_Tex2DDS] made for a name of a slot kind. *)
Definition tex2dds_for (dx_textures_path : string) (tex2dds_settings : pyval)
    (x : slot_kind * (string * DXSpec_TextureKey)) (t : Dxtf.DXTF_Tex2DDS) : Prop :=
  exists srgb,
    srgb_setting tex2dds_settings (fst x) = Ok srgb
    /\ Dxtf.DXTF_Tex2DDS_init (fst (snd x)) (snd (snd x)) dx_textures_path srgb
       = Dxtf.Done t.

(** The file name of the texture of a material for a slot kind: the name
    its key folds to. *)
Definition texture_named (s : slot_kind) (m : DXSpec_Material) (n : string) : Prop :=
  exists key, slot_key s m = Ok (Some key) /\ name_fold key (default_name s) = Ok n.

(** A [DXTF_Material] that carries the values of the material [m] and the
    names of its textures. *)
Definition dxtf_of (m : DXSpec_Material) (x : Dxtf.DXTF_Material) : Prop :=
  Dxtf.name x = name m
  /\ texture_named Diffuse m (Dxtf.diffuse_texture (Dxtf.diffuse x))
  /\ texture_named Normal m (Dxtf.normal_texture (Dxtf.normal x))
  /\ texture_named ORM m (Dxtf.orm_texture (Dxtf.orm x))
  /\ match emissive m, Dxtf.emissive x with
     | Some e, Some ex =>
         texture_named Emissive m (Dxtf.emissive_texture ex)
         /\ em_factor e = Some (Dxtf.emissive_strength ex)
     | None, None => True
     | _, _ => False
     end
  /\ Dxtf.diffuse_strength (Dxtf.diffuse x) = strength (diffuse m)
  /\ Dxtf.normal_strength (Dxtf.normal x) = strength (normal m)
  /\ Dxtf.occlusion_strength (Dxtf.orm x) = strength (occlusion (orm m))
  /\ Dxtf.roughness_strength (Dxtf.orm x) = strength (roughness (orm m))
  /\ Dxtf.metalness_strength (Dxtf.orm x) = strength (metalness (orm m))
  /\ Dxtf.blend_mode x = blend_mode m
  /\ Dxtf.alpha_cutoff x = alpha_cutoff m
  /\ Dxtf.double_sided x = double_sided m.

(** The file a conversion spec writes is the name [n] under the texture
    directory. *)
Definition writes (dx_textures_path : string) (x : Dxtf.DXTF_Tex2DDS) (n : string) : Prop :=
  Dxtf.output_path x = Path (path_join dx_textures_path n).

(** The entries of a material that [as_dxtf] keeps. *)
Definition only_name (mat : pydict) : pydict :=
  List.filter (fun kv => String.eqb (fst kv) "name") mat.

(** [mat'] is the material [mat] reduced to its name. *)
Definition stripped (mat mat' : pyval) : Prop :=
  exists d, mat = PDict d /\ mat' = PDict (only_name d).

(** [b'] is the buffer [b] with its [uri] pointing at the DXTF binary. *)
Definition renamed (b b' : pyval) : Prop :=
  exists d u,
    b = PDict d /\ dict_get d "uri" = Some (PStr u)
    /\ b' = PDict (dict_set d "uri" (PStr (SrcDxtf.str_replace ".comp.bin" ".dxtf_mdl" u))).

(** A buffer [as_dxtf] can rename; a material it can strip. *)
Definition has_str_uri (b : pyval) : Prop :=
  exists d u, b = PDict d /\ dict_get d "uri" = Some (PStr u).

Definition is_dict (v : pyval) : Prop := exists d, v = PDict d.

End Vocabulary.
Import Vocabulary.

(** Concrete inputs used to exercise the statements. *)
Module Fixtures.

(** A source document with two images. *)
Definition scene : GLTFSrc :=
  {| file := "scene";
     src_dir := "assets";
     data := PDict
       [("textures", PList [PDict [("source", PInt 0)]; PDict [("source", PInt 1)]]);
        ("images", PList [PDict [("uri", PStr "wood.png")];
                          PDict [("uri", PStr "stone.png")]])] |}.

(** A material that only has a name. *)
Definition bare (name : string) : GLTF.GLTF_Material :=
  {| GLTF.name := name;
     GLTF.pbr_metallic_roughness := None;
     GLTF.normal_texture := None;
     GLTF.occlusion_texture := None;
     GLTF.emissive_texture := None;
     GLTF.emissive_factor := None;
     GLTF.alpha_mode := PStr "OPAQUE";
     GLTF.alpha_cutoff := None;
     GLTF.double_sided := PBool false |}.

(** A metallic-roughness block with the given factors and textures. *)
Definition pbr_block (base_color_texture : option Z) (metallic roughness : option float)
    (metallic_roughness_texture : option Z) : GLTF.GLTF_PBRMetallicRoughness :=
  {| GLTF.base_color_factor := [PFloat 1; PFloat 1; PFloat 1; PFloat 1];
     GLTF.base_color_texture :=
       option_map (fun i => {| GLTF.index := PInt i |}) base_color_texture;
     GLTF.metallic_factor := metallic;
     GLTF.roughness_factor := roughness;
     GLTF.metallic_roughness_texture :=
       option_map (fun i => {| GLTF.index := PInt i |}) metallic_roughness_texture |}.

(** A material with a base-colour texture and the given alpha mode. *)
Definition textured (name alpha_mode : string) (image : Z) : GLTF.GLTF_Material :=
  {| GLTF.name := name;
     GLTF.pbr_metallic_roughness := Some (pbr_block (Some image) None None None);
     GLTF.normal_texture := None;
     GLTF.occlusion_texture := None;
     GLTF.emissive_texture := None;
     GLTF.emissive_factor := None;
     GLTF.alpha_mode := PStr alpha_mode;
     GLTF.alpha_cutoff := None;
     GLTF.double_sided := PBool false |}.

(** The glTF record [{"name": "leaf", "alphaMode": "MASK", "alphaCutoff": 0.25}]. *)
Definition leaf_json : pydict :=
  [("name", PStr "leaf"); ("alphaMode", PStr "MASK"); ("alphaCutoff", PFloat 0.25)].

(** [DXSpec_Material( obj, scene, override )], or a material named ["?"]
    when the constructor raises. *)
Definition assemble (obj : GLTF.GLTF_Material) (override : option pydict)
  : DXSpec.DXSpec_Material :=
  match DXSpec.DXSpec_Material_init obj scene override with
  | Ok m => m
  | Raise _ =>
      let t := {| DXSpec.uri := None; DXSpec.swizzle := "?"; DXSpec.strength := PNone |} in
      {| DXSpec.name := "?"; DXSpec.src_file := "?";
         DXSpec.diffuse := t; DXSpec.normal := t;
         DXSpec.orm := {| DXSpec.occlusion := t; DXSpec.roughness := t;
                          DXSpec.metalness := t |};
         DXSpec.emissive := None; DXSpec.blend_mode := "?";
         DXSpec.alpha_cutoff := PNone; DXSpec.double_sided := false;
         DXSpec.resolution := [] |}
  end.

(** Two materials with the same diffuse texture and no override. *)
Definition db_shared : list (string * DXSpec.DXSpec_Material) :=
  [("A", assemble (textured "A" "OPAQUE" 0) None);
   ("B", assemble (textured "B" "OPAQUE" 0) None)].

(** The same two materials, the target resolution of ["B"] overridden. *)
Definition db_split : list (string * DXSpec.DXSpec_Material) :=
  [("A", assemble (textured "A" "OPAQUE" 0) None);
   ("B", assemble (textured "B" "OPAQUE" 0)
           (Some [("resolution", PList [PInt 512; PInt 512])]))].

(** A store with the override of a material at 0 and the global entry
    at 2, each with its nested records. *)
Definition override_store : store :=
  [ [("resolution", HLit (PList [PInt 512])); ("normal", HRef 1%nat)];
    [("uri", HLit (PStr "n.png")); ("scale", HLit (PInt 1))];
    [("resolution", HLit (PList [PInt 256])); ("normal", HRef 3%nat);
     ("diffuse", HRef 4%nat)];
    [("scale", HLit (PInt 2))];
    [("strength", HLit (PInt 2))] ].

(** The override [{"normal": {"uri": "n.png"}}]. *)
Definition normal_uri_override : pydict := [("normal", PDict [("uri", PStr "n.png")])].

(** A material whose occlusion texture is the first image of the scene and
    whose metallic-roughness texture is the second. *)
Definition two_files (name : string) : GLTF.GLTF_Material :=
  {| GLTF.name := name;
     GLTF.pbr_metallic_roughness := Some (pbr_block None None None (Some 1));
     GLTF.normal_texture := None;
     GLTF.occlusion_texture :=
       Some {| GLTF.occlusion_index := PInt 0; GLTF.strength := PFloat 1 |};
     GLTF.emissive_texture := None;
     GLTF.emissive_factor := None;
     GLTF.alpha_mode := PStr "OPAQUE";
     GLTF.alpha_cutoff := None;
     GLTF.double_sided := PBool false |}.



(** The [tex2dds_settings] of a conversion spec. *)
Definition tex2dds_settings : pyval :=
  PDict [("diffuse", PDict [("srgb", PStr "srgb")]);
         ("normal", PDict [("srgb", PStr "linear")]);
         ("orm", PDict [("srgb", PStr "linear")]);
         ("emissive", PDict [("srgb", PStr "srgb")])].

(** A material whose metallic-roughness texture is the second image of
    the scene. *)
Definition rough_metal (name : string) : GLTF.GLTF_Material :=
  {| GLTF.name := name;
     GLTF.pbr_metallic_roughness := Some (pbr_block None None None (Some 1));
     GLTF.normal_texture := None;
     GLTF.occlusion_texture := None;
     GLTF.emissive_texture := None;
     GLTF.emissive_factor := None;
     GLTF.alpha_mode := PStr "OPAQUE";
     GLTF.alpha_cutoff := None;
     GLTF.double_sided := PBool false |}.

(** The texture names of [db_shared]. *)
Definition shared_tables : DXSpec.PerSlot (list (string * string)) :=
  {| DXSpec.on_diffuse := [("A", "wood.dds"); ("B", "wood.dds")];
     DXSpec.on_normal := [("A", "$DEFAULT_NORMAL"); ("B", "$DEFAULT_NORMAL")];
     DXSpec.on_orm := [("A", "$DEFAULT_ORM"); ("B", "$DEFAULT_ORM")];
     DXSpec.on_emissive := [] |}.

(** A material without emissive texture or factor, given an emissive slot
    by the override [{"emissive": {"uri": null}}], and its texture names. *)
Definition db_lamp : list (string * DXSpec.DXSpec_Material) :=
  [("lamp", assemble (bare "lamp")
              (Some [("emissive", PDict [("uri", PNone)])]))].

Definition lamp_tables : DXSpec.PerSlot (list (string * string)) :=
  {| DXSpec.on_diffuse := [("lamp", "$DEFAULT_DIFFUSE")];
     DXSpec.on_normal := [("lamp", "$DEFAULT_NORMAL")];
     DXSpec.on_orm := [("lamp", "$DEFAULT_ORM")];
     DXSpec.on_emissive := [("lamp", "$DEFAULT_EMISSIVE")] |}.

(** A source document whose image has a dollar sign in its name. *)
Definition scene_dollar : GLTFSrc :=
  {| file := "vault";
     src_dir := "assets";
     data := PDict
       [("textures", PList [PDict [("source", PInt 0)]]);
        ("images", PList [PDict [("uri", PStr "cash$.png")]])] |}.

(** A compressed document with one buffer, one sampler and two materials. *)
Definition packed_json : pydict :=
  [("asset", PDict [("version", PStr "2.0")]);
   ("buffers", PList [PDict [("uri", PStr "scene.comp.bin"); ("byteLength", PInt 96)]]);
   ("images", PList [PDict [("uri", PStr "wood.png")]]);
   ("textures", PList [PDict [("source", PInt 0)]]);
   ("samplers", PList [PDict [("magFilter", PInt 9729)]]);
   ("materials",
    PList [PDict [("name", PStr "wood");
                  ("pbrMetallicRoughness",
                   PDict [("baseColorTexture", PDict [("index", PInt 0)])])];
           PDict [("doubleSided", PBool true); ("name", PStr "glass")]])].

Definition packed : GLTFSrc :=
  {| file := "scene"; src_dir := "assets"; data := PDict packed_json |}.

End Fixtures.

(* ===================================================================== *)
(** * Lemmas on the result monad and on dictionaries                      *)
(* ===================================================================== *)

Lemma bind_Ok {A B} (m : result A) (k : A -> result B) (b : B) :
  bind m k = Ok b -> exists a, m = Ok a /\ k a = Ok b.
Proof. destruct m as [a|e]; simpl; intros H; [eauto | discriminate]. Qed.

Lemma bind_Raise {A B} (m : result A) (k : A -> result B) (e : exn) :
  bind m k = Raise e -> m = Raise e \/ exists a, m = Ok a /\ k a = Raise e.
Proof. destruct m as [a|e']; simpl; intros H; [right; eauto | left; congruence]. Qed.

Section DictFacts.
Context {K V : Type} `{EqDecision K}.
Implicit Types (d : list (K * V)) (k : K) (v : V).

Lemma dict_get_set_eq d k v : dict_get (dict_set d k v) k = Some v.
Proof.
  induction d as [|[k' v'] d IH]; simpl.
  - destruct (decide (k = k)); congruence.
  - destruct (decide (k' = k)) as [->|Hne]; simpl.
    + destruct (decide (k = k)); congruence.
    + destruct (decide (k' = k)); [congruence | exact IH].
Qed.

Lemma dict_get_set_ne d k k' v : k <> k' -> dict_get (dict_set d k v) k' = dict_get d k'.
Proof.
  intros Hne. induction d as [|[k0 v0] d IH]; simpl.
  - destruct (decide (k = k')); congruence.
  - destruct (decide (k0 = k)) as [->|Hk]; simpl.
    + destruct (decide (k = k')); congruence.
    + destruct (decide (k0 = k')); [reflexivity | exact IH].
Qed.

Lemma dict_get_del_ne d k k' : k <> k' -> dict_get (dict_del d k) k' = dict_get d k'.
Proof.
  intros Hne. induction d as [|[k0 v0] d IH]; simpl; [reflexivity|].
  destruct (decide (k0 = k)) as [->|Hk]; simpl.
  - destruct (decide (k = k')); congruence.
  - destruct (decide (k0 = k')); [reflexivity | exact IH].
Qed.

Lemma dict_get_Some_In d k v : dict_get d k = Some v -> In (k, v) d.
Proof.
  induction d as [|[k0 v0] d IH]; simpl; [discriminate|].
  destruct (decide (k0 = k)) as [->|Hk]; intros H'.
  - injection H' as ->. now left.
  - right. auto.
Qed.

Lemma dict_get_None_keys d k : dict_get d k = None <-> ~ In k (dict_keys d).
Proof.
  unfold dict_keys. induction d as [|[k0 v0] d IH]; simpl.
  - split; [tauto | reflexivity].
  - destruct (decide (k0 = k)) as [->|Hk].
    + split; [discriminate | intros Hn; exfalso; apply Hn; now left].
    + rewrite IH. split; [intros Hn [?|?]; congruence | tauto].
Qed.

Lemma dict_mem_keys d k : dict_mem k d = true <-> In k (dict_keys d).
Proof.
  unfold dict_mem. destruct (dict_get d k) eqn:E.
  - split; [intros _ | reflexivity].
    apply dict_get_Some_In in E. unfold dict_keys.
    change k with (fst (k, v)). now apply in_map.
  - split; [discriminate | intros Hin].
    apply dict_get_None_keys in E. contradiction.
Qed.

Lemma dict_keys_set_fresh d k v :
  dict_get d k = None -> dict_keys (dict_set d k v) = (dict_keys d ++ [k])%list.
Proof.
  unfold dict_keys. induction d as [|[k0 v0] d IH]; simpl; [reflexivity|].
  destruct (decide (k0 = k)); [discriminate|]. intros Hn. simpl. now rewrite IH.
Qed.

Lemma dict_keys_set_present d k v :
  dict_get d k <> None -> dict_keys (dict_set d k v) = dict_keys d.
Proof.
  unfold dict_keys. induction d as [|[k0 v0] d IH]; simpl; [congruence|].
  destruct (decide (k0 = k)) as [->|Hk]; simpl; [reflexivity|].
  intros Hn. now rewrite IH.
Qed.

Lemma dict_keys_del_ne d k k' :
  k <> k' -> In k' (dict_keys d) -> In k' (dict_keys (dict_del d k)).
Proof.
  intros Hne Hin. apply dict_mem_keys. apply dict_mem_keys in Hin.
  unfold dict_mem in *. now rewrite dict_get_del_ne.
Qed.

Lemma dict_pop_default_keys d k k' v :
  k <> k' -> In k' (dict_keys d) -> In k' (dict_keys (snd (dict_pop_default d k v))).
Proof.
  intros Hne Hin. unfold dict_pop_default. destruct (dict_get d k); simpl; [|exact Hin].
  now apply dict_keys_del_ne.
Qed.
End DictFacts.

(* ===================================================================== *)
(** * Modulation                                                          *)
(* ===================================================================== *)

Lemma num_binop_numeric opZ opF a b r :
  num_binop opZ opF a b = Ok r -> is_numeric r = true.
Proof.
  unfold num_binop.
  destruct (as_num a) as [[x|x]|], (as_num b) as [[y|y]|]; simpl; try discriminate.
  - intros [= <-]. reflexivity.
  - destruct (float_of_int x); simpl; [intros [= <-]; reflexivity | discriminate].
  - destruct (float_of_int y); simpl; [intros [= <-]; reflexivity | discriminate].
  - intros [= <-]. reflexivity.
Qed.

Lemma py_arith_numeric op a b r : py_arith op a b = Ok r -> is_numeric r = true.
Proof. unfold py_arith, py_mul, py_add. destruct (String.eqb op "mult"); apply num_binop_numeric. Qed.

Lemma num_binop_total opZ opF a b :
  is_numeric a = true -> is_numeric b = true ->
  fits_float a = true -> fits_float b = true ->
  exists r, num_binop opZ opF a b = Ok r.
Proof.
  unfold num_binop.
  destruct a as [|[]| | | | | |]; try discriminate;
    destruct b as [|[]| | | | | |]; try discriminate; simpl; intros _ _ Ha Hb;
    repeat match goal with
      | H : is_ok (float_of_int ?z) = true |- context [float_of_int ?z] =>
          destruct (float_of_int z); [|discriminate H]
      end;
    try (eexists; reflexivity).
Qed.

Lemma py_arith_total op a b :
  is_numeric a = true -> is_numeric b = true ->
  fits_float a = true -> fits_float b = true ->
  exists r, py_arith op a b = Ok r.
Proof. unfold py_arith, py_mul, py_add. destruct (String.eqb op "mult"); apply num_binop_total. Qed.

Lemma mapM_Ok_inv {A B} (f : A -> result B) xs ys :
  mapM f xs = Ok ys -> length ys = length xs /\ Forall2 (fun x y => f x = Ok y) xs ys.
Proof.
  revert ys. induction xs as [|x xs IH]; simpl; intros ys.
  - intros [= <-]. split; [reflexivity | constructor].
  - intros Hb. apply bind_Ok in Hb as (y & Hy & Hb).
    apply bind_Ok in Hb as (ys' & Hys & Hb). injection Hb as <-.
    destruct (IH _ Hys) as [Hl Hf]. simpl. split; [now rewrite Hl | now constructor].
Qed.

Lemma mapM_total {A B} (f : A -> result B) xs :
  Forall (fun x => exists y, f x = Ok y) xs -> exists ys, mapM f xs = Ok ys.
Proof.
  induction 1 as [|x xs [y Hy] _ [ys Hys]]; simpl.
  - eexists; reflexivity.
  - rewrite Hy; simpl. rewrite Hys; simpl. eexists; reflexivity.
Qed.

Lemma zipM_Ok_inv f xs ys rs :
  length xs = length ys -> zipM f xs ys = Ok rs ->
  length rs = length xs /\
  forall i x y, nth_error xs i = Some x -> nth_error ys i = Some y ->
                exists r, nth_error rs i = Some r /\ f x y = Ok r.
Proof.
  revert ys rs. induction xs as [|x xs IH]; intros [|y ys] rs Hlen; simpl in *; try discriminate.
  - intros [= <-]. split; [reflexivity|]. intros [|i] ? ? H'; discriminate.
  - intros Hb. apply bind_Ok in Hb as (r & Hr & Hb).
    apply bind_Ok in Hb as (rs' & Hrs & Hb). injection Hb as <-.
    injection Hlen as Hlen. destruct (IH _ _ Hlen Hrs) as [Hl Hnth].
    split; [simpl; now rewrite Hl|].
    intros [|i] x' y'; simpl.
    + intros [= <-] [= <-]. eauto.
    + apply Hnth.
Qed.

Lemma zipM_total f xs ys :
  length xs = length ys ->
  (forall x y, In x xs -> In y ys -> exists r, f x y = Ok r) ->
  exists rs, zipM f xs ys = Ok rs.
Proof.
  revert ys. induction xs as [|x xs IH]; intros [|y ys] Hlen Hf; simpl in *; try discriminate.
  - eexists; reflexivity.
  - destruct (Hf x y) as [r Hr]; [now left | now left |]. rewrite Hr; simpl.
    injection Hlen as Hlen.
    destruct (IH ys Hlen) as [rs Hrs]; [intros; apply Hf; now right|].
    rewrite Hrs; simpl. eexists; reflexivity.
Qed.

Lemma forallb_numeric_results {A} (f : A -> result pyval) xs rs :
  Forall2 (fun x y => f x = Ok y) xs rs ->
  (forall x y, f x = Ok y -> is_numeric y = true) ->
  forallb is_numeric rs = true.
Proof.
  intros Hf Hnum. induction Hf as [|x y xs rs Hxy _ IH]; simpl; [reflexivity|].
  rewrite (Hnum _ _ Hxy). exact IH.
Qed.

Lemma is_numeric_not_sequence v : is_numeric v = true -> is_numeric_sequence v = false.
Proof. destruct v; simpl; congruence. Qed.

Lemma is_numeric_sequence_not_numeric v : is_numeric_sequence v = true -> is_numeric v = false.
Proof. destruct v; simpl; congruence. Qed.

(** A directive dict: [_modulate] past its two [pop]s and the operator test. *)
Lemma _modulate_directive op d original value :
  op = "mult" \/ op = "add" ->
  dict_get d "op" = Some (PStr op) ->
  dict_get d "value" = Some value ->
  is_numeric original || is_numeric_sequence original = true ->
  is_numeric value || is_numeric_sequence value = true ->
  _modulate original (PDict d) =
    if is_numeric original && is_numeric value then py_arith op original value
    else if is_numeric original && is_numeric_sequence value then
      Raise (ValueError FloatByTuple)
    else if is_numeric_sequence original && is_numeric value then
      r <- mapM (fun o => py_arith op o value) (items_of original) ;; Ok (PTuple r)
    else if is_numeric_sequence original && is_numeric_sequence value then
      if negb (length (items_of original) =? length (items_of value))%nat then
        Raise (ValueError LengthMismatch)
      else r <- zipM (py_arith op) (items_of original) (items_of value) ;; Ok (PTuple r)
    else Raise AssertionError.
Proof.
  intros Hop Hd Hv Ho Hval. unfold _modulate, dict_pop. rewrite Hd.
  cbv beta iota delta [bind].
  rewrite dict_get_del_ne by discriminate. rewrite Hv.
  cbv beta iota delta [bind].
  assert (Hnone : match original with PNone => true | _ => false end = false)
    by (destruct original; simpl in *; congruence).
  rewrite Hnone, Ho, Hval.
  destruct Hop as [-> | ->]; reflexivity.
Qed.

Lemma modulate_scalar original m r0 :
  is_numeric original = true ->
  _modulate original m = r0 ->
  (forall r, r0 = Ok r -> is_numeric r = true) ->
  modulate original m = r0.
Proof.
  intros Ho Hm Hnum. unfold modulate. rewrite Hm. destruct r0 as [r|e]; simpl; [|reflexivity].
  rewrite Ho, (Hnum r eq_refl). simpl.
  rewrite (is_numeric_not_sequence _ Ho), (is_numeric_not_sequence r (Hnum r eq_refl)).
  reflexivity.
Qed.

Lemma modulate_vector original m (X : result (list pyval)) :
  is_numeric_sequence original = true ->
  _modulate original m = (r <- X ;; Ok (PTuple r)) ->
  (forall r, X = Ok r -> forallb is_numeric r = true) ->
  modulate original m = (r <- X ;; Ok (PTuple r)).
Proof.
  intros Ho Hm Hnum. unfold modulate. rewrite Hm. destruct X as [r|e]; simpl; [|reflexivity].
  rewrite (is_numeric_sequence_not_numeric _ Ho), Ho, (Hnum r eq_refl). reflexivity.
Qed.

Lemma forallb_fits_Forall l value op :
  forallb is_numeric l = true -> forallb fits_float l = true ->
  is_numeric value = true -> fits_float value = true ->
  Forall (fun o => exists y, py_arith op o value = Ok y) l.
Proof.
  intros Hn Hf Hv Hfv. apply List.Forall_forall. intros o Hin.
  rewrite forallb_forall in Hn, Hf.
  apply py_arith_total; auto.
Qed.

(** C3 (amended): for a literal modifier, [_modulate] returns the modifier
    whatever the original is, and [modulate] returns it exactly when it has
    the numeric shape of the original (both scalars, both vectors, or
    neither); when the shapes differ the shape assertion of [modulate]
    fails. *)
Theorem C3_literal_modifier (original modifier : pyval) :
  is_literal modifier = true ->
  _modulate original modifier = Ok modifier /\
  modulate original modifier =
    if same_shape original modifier then Ok modifier else Raise AssertionError.
Proof.
  intros Hlit.
  assert (H_ : _modulate original modifier = Ok modifier)
    by (destruct modifier; simpl in *; congruence).
  split; [exact H_|].
  unfold modulate, same_shape. rewrite H_. simpl.
  destruct (Bool.eqb (is_numeric original) (is_numeric modifier)); simpl; [|reflexivity].
  destruct (Bool.eqb (is_numeric_sequence original) (is_numeric_sequence modifier));
    reflexivity.
Qed.

Lemma C3_literal_modifier_witness :
  is_literal (PFloat 0.5) = true /\
  _modulate (PFloat 2) (PFloat 0.5) = Ok (PFloat 0.5) /\
  modulate (PFloat 2) (PFloat 0.5) = Ok (PFloat 0.5).
Proof.
  split; [reflexivity|].
  exact (C3_literal_modifier (PFloat 2) (PFloat 0.5) eq_refl).
Defined.

(** C3 as stated fails: replacing the scalar original [1.0] by the vector
    literal [[1.0, 2.0, 3.0]] does not return the literal, the shape
    assertion of [modulate] raises. *)
Lemma C3_scalar_replaced_by_vector :
  is_literal (PList [PFloat 1; PFloat 2; PFloat 3]) = true /\
  modulate (PFloat 1) (PList [PFloat 1; PFloat 2; PFloat 3]) = Raise AssertionError.
Proof. split; reflexivity. Qed.

(** C10 (amended): with a directive [{op, value}], [op] one of [mult] and
    [add], [modulate] keeps the shape of the original.  Scalar by scalar is
    Python's product or sum, a scalar when it returns; vector by scalar
    applies the operation to each element; vector by vector of equal
    length applies it pairwise; vector by vector of different lengths
    raises the length-mismatch error.  Each of the first three returns
    whenever Python's arithmetic does, which it does on floats, bools and
    the ints within the range of a double; beyond that range the
    conversion of an int to a float raises. *)
Theorem C10_modulate_preserves_shape (op : string) (d : pydict) (original value : pyval) :
  op = "mult" \/ op = "add" ->
  dict_get d "op" = Some (PStr op) ->
  dict_get d "value" = Some value ->
  (is_numeric original = true -> is_numeric value = true ->
     modulate original (PDict d) = py_arith op original value
     /\ (forall r, modulate original (PDict d) = Ok r -> is_numeric r = true)
     /\ (fits_float original = true -> fits_float value = true ->
         is_ok (modulate original (PDict d)) = true))
  /\
  (is_numeric_sequence original = true -> is_numeric value = true ->
     modulate original (PDict d) =
       (r <- mapM (fun o => py_arith op o value) (items_of original) ;; Ok (PTuple r))
     /\ (forall r, modulate original (PDict d) = Ok r ->
           is_numeric_sequence r = true
           /\ length (items_of r) = length (items_of original))
     /\ (forallb fits_float (items_of original) = true -> fits_float value = true ->
         is_ok (modulate original (PDict d)) = true))
  /\
  (is_numeric_sequence original = true -> is_numeric_sequence value = true ->
   length (items_of original) = length (items_of value) ->
     modulate original (PDict d) =
       (r <- zipM (py_arith op) (items_of original) (items_of value) ;; Ok (PTuple r))
     /\ (forall r, modulate original (PDict d) = Ok r ->
           is_numeric_sequence r = true
           /\ length (items_of r) = length (items_of original))
     /\ (forallb fits_float (items_of original) = true ->
         forallb fits_float (items_of value) = true ->
         is_ok (modulate original (PDict d)) = true))
  /\
  (is_numeric_sequence original = true -> is_numeric_sequence value = true ->
   length (items_of original) <> length (items_of value) ->
     modulate original (PDict d) = Raise (ValueError LengthMismatch)).
Proof.
  intros Hop Hd Hv.
  assert (Hitems : forall v, is_numeric_sequence v = true ->
                             forallb is_numeric (items_of v) = true)
    by (intros [] Hs; simpl in *; congruence).
  split; [|split; [|split]].
  - (* scalar by scalar *)
    intros Ho Hval.
    assert (Hm : modulate original (PDict d) = py_arith op original value).
    { apply modulate_scalar; [exact Ho | | apply py_arith_numeric].
      rewrite (_modulate_directive op d original value Hop Hd Hv)
        by (rewrite ?Ho, ?Hval; reflexivity).
      rewrite Ho, Hval. reflexivity. }
    split; [exact Hm|]. split.
    + intros r Hr. rewrite Hm in Hr. eapply py_arith_numeric; eauto.
    + intros Hfo Hfv. rewrite Hm.
      destruct (py_arith_total op original value Ho Hval Hfo Hfv) as [r ->]. reflexivity.
  - (* vector by scalar *)
    intros Ho Hval.
    assert (Hres : forall r, mapM (fun o => py_arith op o value) (items_of original) = Ok r ->
                             forallb is_numeric r = true).
    { intros r Hr. apply mapM_Ok_inv in Hr as [_ Hf].
      eapply forallb_numeric_results; [exact Hf|].
      intros x y. apply py_arith_numeric. }
    assert (Hm : modulate original (PDict d) =
                 (r <- mapM (fun o => py_arith op o value) (items_of original) ;;
                  Ok (PTuple r))).
    { apply modulate_vector; [exact Ho | | exact Hres].
      rewrite (_modulate_directive op d original value Hop Hd Hv)
        by (rewrite ?Ho, ?Hval, ?orb_true_r; reflexivity).
      rewrite (is_numeric_sequence_not_numeric _ Ho), Ho, Hval.
      rewrite (is_numeric_not_sequence _ Hval). reflexivity. }
    split; [exact Hm|]. split.
    + intros r Hr. rewrite Hm in Hr. apply bind_Ok in Hr as (rs & Hrs & [= <-]).
      simpl. split; [now apply Hres|]. now apply mapM_Ok_inv in Hrs as [-> _].
    + intros Hfo Hfv. rewrite Hm.
      destruct (mapM_total (fun o => py_arith op o value) (items_of original)) as [rs ->];
        [|reflexivity].
      apply forallb_fits_Forall; auto.
  - (* vector by vector, equal lengths *)
    intros Ho Hval Hlen.
    assert (Hres : forall r, zipM (py_arith op) (items_of original) (items_of value) = Ok r ->
                             forallb is_numeric r = true /\
                             length r = length (items_of original)).
    { intros r Hr. destruct (zipM_Ok_inv _ _ _ _ Hlen Hr) as [Hl Hnth].
      split; [|exact Hl]. apply forallb_forall. intros x Hin.
      apply In_nth_error in Hin as [i Hi].
      assert (Hlt : (i < length r)%nat) by (apply nth_error_Some; congruence).
      destruct (nth_error (items_of original) i) as [a|] eqn:Ea;
        [|apply nth_error_None in Ea; lia].
      destruct (nth_error (items_of value) i) as [b|] eqn:Eb;
        [|apply nth_error_None in Eb; lia].
      destruct (Hnth i a b Ea Eb) as (r' & Hr' & Hab).
      rewrite Hi in Hr'. injection Hr' as <-. eapply py_arith_numeric; eauto. }
    assert (Hm : modulate original (PDict d) =
                 (r <- zipM (py_arith op) (items_of original) (items_of value) ;;
                  Ok (PTuple r))).
    { apply modulate_vector; [exact Ho | | intros r Hr; now apply Hres].
      rewrite (_modulate_directive op d original value Hop Hd Hv)
        by (rewrite ?Ho, ?Hval, ?orb_true_r; reflexivity).
      rewrite (is_numeric_sequence_not_numeric _ Ho), Ho, Hval.
      rewrite (is_numeric_sequence_not_numeric _ Hval). simpl.
      rewrite Hlen, Nat.eqb_refl. reflexivity. }
    split; [exact Hm|]. split.
    + intros r Hr. rewrite Hm in Hr. apply bind_Ok in Hr as (rs & Hrs & [= <-]).
      simpl. now apply Hres.
    + intros Hfo Hfv. rewrite Hm.
      destruct (zipM_total (py_arith op) (items_of original) (items_of value) Hlen)
        as [rs ->]; [|reflexivity].
      intros x y Hx Hy.
      pose proof (Hitems _ Ho) as Hno. pose proof (Hitems _ Hval) as Hnv.
      rewrite forallb_forall in Hfo, Hfv, Hno, Hnv.
      apply py_arith_total; auto.
  - (* vector by vector, different lengths *)
    intros Ho Hval Hlen.
    unfold modulate.
    rewrite (_modulate_directive op d original value Hop Hd Hv)
      by (rewrite ?Ho, ?Hval, ?orb_true_r; reflexivity).
    rewrite (is_numeric_sequence_not_numeric _ Ho), Ho, Hval.
    rewrite (is_numeric_sequence_not_numeric _ Hval). simpl.
    apply Nat.eqb_neq in Hlen. rewrite Hlen. reflexivity.
Qed.

Lemma C10_modulate_preserves_shape_witness :
  modulate (PFloat 2) (PDict [("op", PStr "mult"); ("value", PFloat 1.5)])
    = Ok (PFloat 3)
  /\ modulate (PTuple [PFloat 1; PFloat 2; PFloat 3])
       (PDict [("op", PStr "add"); ("value", PInt 1)])
     = Ok (PTuple [PFloat 2; PFloat 3; PFloat 4])
  /\ modulate (PTuple [PFloat 1; PFloat 2])
       (PDict [("op", PStr "add"); ("value", PList [PFloat 3; PFloat 4])])
     = Ok (PTuple [PFloat 4; PFloat 6])
  /\ modulate (PTuple [PFloat 1; PFloat 2])
       (PDict [("op", PStr "add"); ("value", PList [PFloat 3; PFloat 4; PFloat 5])])
     = Raise (ValueError LengthMismatch).
Proof.
  split; [|split; [|split]].
  - destruct (C10_modulate_preserves_shape "mult"
                [("op", PStr "mult"); ("value", PFloat 1.5)] (PFloat 2) (PFloat 1.5)
                (or_introl eq_refl) eq_refl eq_refl) as (H & _).
    destruct (H eq_refl eq_refl) as (-> & _). reflexivity.
  - destruct (C10_modulate_preserves_shape "add"
                [("op", PStr "add"); ("value", PInt 1)]
                (PTuple [PFloat 1; PFloat 2; PFloat 3]) (PInt 1)
                (or_intror eq_refl) eq_refl eq_refl) as (_ & H & _).
    destruct (H eq_refl eq_refl) as (-> & _). reflexivity.
  - destruct (C10_modulate_preserves_shape "add"
                [("op", PStr "add"); ("value", PList [PFloat 3; PFloat 4])]
                (PTuple [PFloat 1; PFloat 2]) (PList [PFloat 3; PFloat 4])
                (or_intror eq_refl) eq_refl eq_refl) as (_ & _ & H & _).
    destruct (H eq_refl eq_refl eq_refl) as (-> & _). reflexivity.
  - destruct (C10_modulate_preserves_shape "add"
                [("op", PStr "add"); ("value", PList [PFloat 3; PFloat 4; PFloat 5])]
                (PTuple [PFloat 1; PFloat 2]) (PList [PFloat 3; PFloat 4; PFloat 5])
                (or_intror eq_refl) eq_refl eq_refl) as (_ & _ & _ & H).
    apply H; [reflexivity | reflexivity | simpl; lia].
Defined.

(** C10 as stated fails on an int beyond the range of a double, which
    [json.load] delivers as an [int]: its product with a float does not
    return a scalar, and the sum of a vector that holds it with a float
    does not return a vector; both raise [OverflowError]. *)
Lemma C10_huge_int_overflows :
  is_numeric (PInt (2 ^ 1024)) = true
  /\ modulate (PInt (2 ^ 1024)) (PDict [("op", PStr "mult"); ("value", PFloat 1.5)])
     = Raise OverflowError
  /\ is_numeric_sequence (PList [PFloat 1; PInt (2 ^ 1024)]) = true
  /\ modulate (PList [PFloat 1; PInt (2 ^ 1024)])
       (PDict [("op", PStr "add"); ("value", PFloat 1)])
     = Raise OverflowError.
Proof. vm_compute. repeat split. Qed.

(** On floats the arithmetic never raises: the pairwise sum of two pairs. *)
Lemma modulate_pair_add (a b c d : float) :
  modulate (PTuple [PFloat a; PFloat b])
    (PDict [("op", PStr "add"); ("value", PTuple [PFloat c; PFloat d])])
  = Ok (PTuple [PFloat (a + c); PFloat (b + d)]).
Proof. reflexivity. Qed.

(* ===================================================================== *)
(** * Material assembly                                                   *)
(* ===================================================================== *)

Import DXSpec.

Lemma dict_del_absent {V} (d : list (string * V)) k :
  dict_get d k = None -> dict_del d k = d.
Proof.
  induction d as [|[k0 v0] d IH]; simpl; [reflexivity|].
  destruct (decide (k0 = k)); [discriminate|]. intros Hn. now rewrite IH.
Qed.

Lemma dict_pop_default_eq (d : pydict) k v :
  dict_pop_default d k v = (get_or d k v, dict_del d k).
Proof.
  unfold dict_pop_default, get_or. destruct (dict_get d k) eqn:E; simpl; [reflexivity|].
  now rewrite dict_del_absent.
Qed.

(** Unfolding one statement of a constructor whose result is [Ok]. *)
Ltac step H :=
  first
    [ rewrite dict_pop_default_eq in H; cbv beta iota in H
    | let x := fresh "x" in
      let Hx := fresh "Hx" in
      apply bind_Ok in H as (x & Hx & H)
    | match type of H with
      | (let (_, _) := ?p in _) = _ => destruct p as [? ?]
      end ].

(** What a successful [DXSpec_Material( obj, src, override )] has done, one
    statement at a time. *)
Lemma DXSpec_Material_init_Ok obj src override m :
  DXSpec_Material_init obj src override = Ok m ->
  let d := default [] override in
  let d1 := dict_del d "blend_mode" in
  let d2 := dict_del d1 "alpha_cutoff" in
  let d3 := dict_del d2 "double_sided" in
  let d4 := dict_del d3 "diffuse" in
  let d5 := dict_del d4 "normal" in
  name m = GLTF.name obj
  /\ assert_blend_mode (get_or d "blend_mode" (GLTF.alpha_mode obj)) = Ok (blend_mode m)
  /\ assert_alpha_cutoff
       (get_or d1 "alpha_cutoff" (of_optional_float (GLTF.alpha_cutoff obj)))
     = Ok (alpha_cutoff m)
  /\ assert_double_sided (get_or d2 "double_sided" (GLTF.double_sided obj))
     = Ok (double_sided m)
  /\ (exists o, as_override (get_or d3 "diffuse" PNone) = Ok o
        /\ DXSpec_DiffuseTexture_init (GLTF.pbr_metallic_roughness obj) (blend_mode m) src o
           = Ok (diffuse m))
  /\ (exists o, as_override (get_or d4 "normal" PNone) = Ok o
        /\ DXSpec_NormalTexture_init (GLTF.normal_texture obj) src o = Ok (normal m))
  /\ (exists d6 d7 res,
        DXSpec_OcclusionRoughnessMetalness_init obj src (Some d5) = Ok (orm m, d6)
        /\ emissive_slot obj src d6 = Ok (emissive m, d7)
        /\ py_tuple (get_or d7 "resolution" (PList [PInt (-1); PInt (-1)])) = Ok res
        /\ mapM as_int res = Ok (resolution m)
        /\ dict_del d7 "resolution" = []).
Proof.
  intros H. unfold DXSpec_Material_init in H.
  replace (match override with Some d => d | None => [] end) with (default [] override) in H
    by (destruct override; reflexivity).
  cbv zeta in H.
  repeat step H.
  match type of H with
  | (if (0 <? length ?l)%nat then _ else _) = _ =>
      destruct l eqn:Hrest; [|discriminate]
  end.
  injection H as <-. simpl.
  repeat split; eauto 12.
Qed.

Lemma assert_blend_mode_Ok v s : assert_blend_mode v = Ok s -> v = PStr s.
Proof.
  destruct v; try discriminate. unfold assert_blend_mode.
  destruct (py_in_strs _ _); [|discriminate]. now intros [= <-].
Qed.

Lemma assert_alpha_cutoff_Ok v a : assert_alpha_cutoff v = Ok a -> v = a.
Proof. destruct v; simpl; try discriminate; now intros [= <-]. Qed.

Lemma assert_double_sided_Ok v b : assert_double_sided v = Ok b -> v = PBool b.
Proof. destruct v; simpl; try discriminate; now intros [= <-]. Qed.

(** The scalar fields of an assembled material: each is the literal the
    override gives under its key, or else the value of the source
    material. *)
Lemma scalar_fields_of_assembled obj src override m :
  DXSpec_Material_init obj src override = Ok m ->
  let d := default [] override in
  get_or d "blend_mode" (GLTF.alpha_mode obj) = PStr (blend_mode m)
  /\ get_or d "alpha_cutoff" (of_optional_float (GLTF.alpha_cutoff obj)) = alpha_cutoff m
  /\ get_or d "double_sided" (GLTF.double_sided obj) = PBool (double_sided m).
Proof.
  intros H. apply DXSpec_Material_init_Ok in H. cbv zeta in *.
  destruct H as (_ & Hb & Ha & Hd & _).
  apply assert_blend_mode_Ok in Hb. apply assert_alpha_cutoff_Ok in Ha.
  apply assert_double_sided_Ok in Hd.
  unfold get_or in *.
  rewrite dict_get_del_ne in Ha by discriminate.
  rewrite !dict_get_del_ne in Hd by discriminate.
  auto.
Qed.

(** With no replacement in the override, the scalar fields are those of the
    source material object. *)
Lemma scalar_fields_from_source obj src override m :
  DXSpec_Material_init obj src override = Ok m ->
  dict_get (default [] override) "blend_mode" = None ->
  dict_get (default [] override) "alpha_cutoff" = None ->
  dict_get (default [] override) "double_sided" = None ->
  GLTF.alpha_mode obj = PStr (blend_mode m)
  /\ of_optional_float (GLTF.alpha_cutoff obj) = alpha_cutoff m
  /\ GLTF.double_sided obj = PBool (double_sided m).
Proof.
  intros H Hb Ha Hd. apply scalar_fields_of_assembled in H. cbv zeta in H.
  unfold get_or in H. now rewrite Hb, Ha, Hd in H.
Qed.

(** C2: [GLTF_Material] reads the alpha cutoff of a source record under the
    key [alphaCuttoff].  A record with alpha mode [MASK] that declares its
    cutoff under glTF's key [alphaCutoff] therefore yields a material whose
    alpha cutoff is the default 0.5, whatever value it declares. *)
Theorem C2_declared_alpha_cutoff_not_read (obj : pydict) (g : GLTF.GLTF_Material)
    (src : GLTFSrc) (m : DXSpec_Material) :
  dict_get obj "alphaCuttoff" = None ->
  dict_get obj "alphaMode" = Some (PStr "MASK") ->
  GLTF.GLTF_Material_init obj = Ok g ->
  DXSpec_Material_init g src None = Ok m ->
  blend_mode m = "MASK" /\ alpha_cutoff m = PFloat 0.5.
Proof.
  intros Hkey Hmode Hg Hm.
  assert (Hsrc : GLTF.alpha_mode g = PStr "MASK" /\ GLTF.alpha_cutoff g = Some 0.5%float).
  { unfold GLTF.GLTF_Material_init in Hg.
    repeat (let x := fresh "x" in let Hx := fresh "Hx" in
            apply bind_Ok in Hg as (x & Hx & Hg)).
    injection Hg as <-. simpl. rewrite Hmode. split; [reflexivity|].
    match goal with
    | Hc : init py_float obj "alphaCuttoff" _ = Ok ?c |- ?c = _ =>
        unfold init in Hc; rewrite Hkey, Hmode in Hc; simpl in Hc; congruence
    end. }
  destruct Hsrc as [Ham Hac].
  destruct (scalar_fields_from_source g src None m Hm eq_refl eq_refl eq_refl)
    as (Hb & Ha & _).
  rewrite Ham in Hb. rewrite Hac in Ha. simpl in Ha.
  split; congruence.
Qed.

Lemma C2_declared_alpha_cutoff_not_read_witness :
  dict_get Fixtures.leaf_json "alphaCutoff" = Some (PFloat 0.25)
  /\ exists g m,
       GLTF.GLTF_Material_init Fixtures.leaf_json = Ok g
       /\ DXSpec_Material_init g Fixtures.scene None = Ok m
       /\ blend_mode m = "MASK" /\ alpha_cutoff m = PFloat 0.5.
Proof.
  split; [reflexivity|].
  eexists. eexists. split; [reflexivity|]. split; [reflexivity|].
  eapply (C2_declared_alpha_cutoff_not_read Fixtures.leaf_json _ Fixtures.scene _);
    reflexivity.
Defined.

(* ===================================================================== *)
(** * Texture slot derivation                                             *)
(* ===================================================================== *)

Lemma apply_override_None sw key self : apply_override sw key self None = Ok self.
Proof. reflexivity. Qed.

(** Without an override, the roughness strength is [roughness_factor or 1.0]
    and the metalness strength is [metallic_factor or 1.0] with a texture,
    [metallic_factor or 0.0] without. *)
Lemma strengths_without_override pbr src :
  (forall t, DXSpec_RoughnessTexture_init (Some pbr) src None = Ok t ->
     strength t = PFloat (float_or (GLTF.roughness_factor pbr) 1))
  /\
  (forall t, DXSpec_MetalnessTexture_init (Some pbr) src None = Ok t ->
     strength t = PFloat (float_or (GLTF.metallic_factor pbr)
                            (if is_some (GLTF.metallic_roughness_texture pbr)
                             then 1 else 0))).
Proof.
  split; intros t; unfold DXSpec_RoughnessTexture_init, DXSpec_MetalnessTexture_init;
    destruct (GLTF.metallic_roughness_texture pbr) as [tex|]; simpl;
    try destruct (texture_idx2uri src (GLTF.index tex)); simpl;
    try discriminate; intros [= <-]; reflexivity.
Qed.

(** A declared factor that is truthy, i.e. not zero, is kept. *)
Lemma float_or_truthy f default : float_truthy f = true -> float_or (Some f) default = f.
Proof. intros H. unfold float_or. now rewrite H. Qed.

(** C5: the strengths are computed as [factor or default], so a declared
    factor of 0.0 is falsy and is replaced: a roughness factor 0.0 gives
    the strength 1.0, with or without a metallic-roughness texture, and a
    metallic factor 0.0 next to a texture gives the strength 1.0. *)
Theorem C5_zero_factor_replaced (pbr : GLTF.GLTF_PBRMetallicRoughness) (src : GLTFSrc)
    (f : float) :
  float_truthy f = false ->
  (GLTF.roughness_factor pbr = Some f ->
   GLTF.metallic_roughness_texture pbr = None ->
     DXSpec_RoughnessTexture_init (Some pbr) src None
     = Ok {| uri := None; swizzle := "1"; strength := PFloat 1 |})
  /\
  (GLTF.roughness_factor pbr = Some f ->
   forall t u, GLTF.metallic_roughness_texture pbr = Some t ->
               texture_idx2uri src (GLTF.index t) = Ok u ->
     DXSpec_RoughnessTexture_init (Some pbr) src None
     = Ok {| uri := u; swizzle := "g"; strength := PFloat 1 |})
  /\
  (GLTF.metallic_factor pbr = Some f ->
   forall t u, GLTF.metallic_roughness_texture pbr = Some t ->
               texture_idx2uri src (GLTF.index t) = Ok u ->
     DXSpec_MetalnessTexture_init (Some pbr) src None
     = Ok {| uri := u; swizzle := "b"; strength := PFloat 1 |}).
Proof.
  intros Hf. unfold DXSpec_RoughnessTexture_init, DXSpec_MetalnessTexture_init.
  split; [|split].
  - intros -> ->. unfold float_or. rewrite Hf. reflexivity.
  - intros -> t u -> ->. unfold float_or. rewrite Hf. reflexivity.
  - intros -> t u -> ->. unfold float_or. rewrite Hf. reflexivity.
Qed.

Lemma C5_zero_factor_replaced_witness :
  GLTF.GLTF_PBRMetallicRoughness_init (PDict [("roughnessFactor", PFloat 0)])
    = Ok (Fixtures.pbr_block None None (Some 0%float) None)
  /\ float_truthy 0 = false
  /\ DXSpec_RoughnessTexture_init
       (Some (Fixtures.pbr_block None None (Some 0%float) None)) Fixtures.scene None
     = Ok {| uri := None; swizzle := "1"; strength := PFloat 1 |}
  /\ DXSpec_MetalnessTexture_init
       (Some (Fixtures.pbr_block None (Some 0%float) None (Some 1))) Fixtures.scene None
     = Ok {| uri := Some (UPath "assets/stone.png"); swizzle := "b";
             strength := PFloat 1 |}.
Proof.
  split; [reflexivity|]. split; [reflexivity|]. split.
  - exact (proj1 (C5_zero_factor_replaced
                    (Fixtures.pbr_block None None (Some 0%float) None)
                    Fixtures.scene 0%float eq_refl) eq_refl eq_refl).
  - exact (proj2 (proj2 (C5_zero_factor_replaced
                           (Fixtures.pbr_block None (Some 0%float) None (Some 1))
                           Fixtures.scene 0%float eq_refl))
             eq_refl {| GLTF.index := PInt 1 |} _ eq_refl eq_refl).
Defined.

(** ** The emissive slot *)

(** C4: for a material that declares neither an emissive texture nor an
    emissive factor, [DXSpec_EmissiveTexture] initialises nothing before it
    applies the override.  The object it returns never has the swizzle
    [111] nor any factor, and an override that gives a [factor] makes the
    constructor read the unset attribute and raise [AttributeError]. *)
Theorem C4_override_only_emissive (obj : GLTF.GLTF_Material) (src : GLTFSrc) (d : pydict) :
  GLTF.emissive_texture obj = None ->
  tuple_truthy (GLTF.emissive_factor obj) = false ->
  (forall e, DXSpec_EmissiveTexture_init obj src (Some d) = Ok e ->
     em_factor e = None /\ em_swizzle e <> Some "111")
  /\
  (forall modifier, dict_get d "factor" = Some modifier -> dict_get d "uri" = None ->
     DXSpec_EmissiveTexture_init obj src (Some d) = Raise (AttributeError "factor")).
Proof.
  intros Ht Hf. unfold DXSpec_EmissiveTexture_init. rewrite Ht, Hf. simpl.
  split.
  - intros e. destruct d as [|kv d']; [intros [= <-]; split; [reflexivity | discriminate]|].
    set (d := kv :: d'). intros H.
    apply bind_Ok in H as ([self1 d1] & H1 & H).
    apply bind_Ok in H as ([self2 d2] & H2 & H).
    destruct (0 <? length d2)%nat; [discriminate|]. injection H as <-.
    assert (Hs1 : em_factor self1 = None /\ em_swizzle self1 <> Some "111").
    { destruct (dict_get d "uri") as [v|].
      - apply bind_Ok in H1 as (u & _ & [= <- <-]). simpl. split; [reflexivity | discriminate].
      - injection H1 as <- <-. simpl. split; [reflexivity | discriminate]. }
    destruct Hs1 as [Hfac Hsw].
    destruct (dict_get d1 "factor") as [mo|].
    + rewrite Hfac in H2. discriminate.
    + injection H2 as <- <-. auto.
  - intros mo Hfac Huri. destruct d as [|kv d']; [discriminate|].
    cbv beta iota. rewrite Huri. cbv beta iota delta [bind].
    rewrite Hfac. reflexivity.
Qed.

Lemma C4_override_only_emissive_witness :
  DXSpec_EmissiveTexture_init (Fixtures.bare "lamp") Fixtures.scene
    (Some [("factor", PList [PFloat 2; PFloat 2; PFloat 2])])
  = Raise (AttributeError "factor")
  /\ DXSpec_Material_init (Fixtures.bare "lamp") Fixtures.scene
       (Some [("emissive", PDict [("factor", PList [PFloat 2; PFloat 2; PFloat 2])])])
     = Raise (AttributeError "factor")
  /\ DXSpec_EmissiveTexture_init (Fixtures.bare "lamp") Fixtures.scene (Some [])
     = Ok {| em_uri := None; em_swizzle := None; em_factor := None |}.
Proof.
  split; [|split; reflexivity].
  exact (proj2 (C4_override_only_emissive (Fixtures.bare "lamp") Fixtures.scene
                  [("factor", PList [PFloat 2; PFloat 2; PFloat 2])] eq_refl eq_refl)
           _ eq_refl eq_refl).
Defined.

(** ** Swizzles and compression formats *)

Lemma apply_override_swizzle sw key self override t :
  apply_override sw key self override = Ok t ->
  swizzle t = swizzle self \/ swizzle t = sw.
Proof.
  unfold apply_override. destruct override as [[|kv d']|]; try (intros [= <-]; now left).
  set (d := kv :: d'). intros H.
  apply bind_Ok in H as ([self1 d1] & H1 & H).
  apply bind_Ok in H as ([self2 d2] & H2 & H).
  destruct (0 <? length d2)%nat; [discriminate|]. injection H as <-.
  assert (Hs1 : swizzle self1 = swizzle self \/ swizzle self1 = sw).
  { destruct (dict_get d "uri").
    - apply bind_Ok in H1 as (u & _ & [= <- <-]). now right.
    - injection H1 as <- <-. now left. }
  destruct (dict_get d1 key).
  - apply bind_Ok in H2 as (s & _ & [= <- <-]). exact Hs1.
  - injection H2 as <- <-. exact Hs1.
Qed.

Lemma diffuse_swizzle_cases pbr alpha_mode src override t :
  DXSpec_DiffuseTexture_init pbr alpha_mode src override = Ok t ->
  swizzle t = "1111" \/ swizzle t = diffuse_swizzle alpha_mode.
Proof.
  unfold DXSpec_DiffuseTexture_init. intros H.
  apply bind_Ok in H as (self & Hself & H).
  apply apply_override_swizzle in H.
  assert (Hs : swizzle self = "1111" \/ swizzle self = diffuse_swizzle alpha_mode).
  { destruct pbr as [o|]; [|injection Hself as <-; now left].
    destruct (GLTF.base_color_texture o).
    - apply bind_Ok in Hself as (u & _ & [= <-]). now right.
    - injection Hself as <-. now left. }
  destruct H as [-> | ->]; [exact Hs | now right].
Qed.



(* ===================================================================== *)
(** * Override merge                                                      *)
(* ===================================================================== *)

Lemma recursive_overwrite_nil A : recursive_overwrite A [] = A.
Proof. reflexivity. Qed.

Lemma recursive_overwrite_cons A k v B :
  recursive_overwrite A ((k, v) :: B) = recursive_overwrite (merge_entry A k v) B.
Proof.
  unfold recursive_overwrite, merge_entry. simpl.
  destruct (dict_get A k) as [[]|]; try reflexivity.
  destruct v; reflexivity.
Qed.

Lemma merge_entry_get_eq A k v :
  dict_get (merge_entry A k v) k = Some (merged_value (dict_get A k) v).
Proof.
  unfold merge_entry, merged_value.
  destruct (dict_get A k) as [[]|]; try apply dict_get_set_eq.
  destruct v; apply dict_get_set_eq.
Qed.

Lemma merge_entry_get_ne A k k' v :
  k <> k' -> dict_get (merge_entry A k v) k' = dict_get A k'.
Proof.
  intros Hne. unfold merge_entry.
  destruct (dict_get A k) as [[]|]; try (now apply dict_get_set_ne).
  destruct v; now apply dict_get_set_ne.
Qed.

(** Keys the overlay does not have are untouched. *)
Lemma recursive_overwrite_base_only A B k :
  dict_get B k = None -> dict_get (recursive_overwrite A B) k = dict_get A k.
Proof.
  revert A. induction B as [|[k0 v0] B IH]; intros A; [reflexivity|].
  simpl. destruct (decide (k0 = k)); [discriminate|]. intros Hn.
  rewrite recursive_overwrite_cons, IH by exact Hn.
  now apply merge_entry_get_ne.
Qed.

(** A key of the overlay ends up holding the overlay's value, merged with
    the base's when both are dicts. *)
Lemma recursive_overwrite_overlay A B k v :
  NoDup (dict_keys B) -> dict_get B k = Some v ->
  dict_get (recursive_overwrite A B) k = Some (merged_value (dict_get A k) v).
Proof.
  revert A. induction B as [|[k0 v0] B IH]; intros A Hnd; [discriminate|].
  unfold dict_keys in Hnd. simpl in *. apply NoDup_cons in Hnd as [Hk0 Hnd].
  rewrite recursive_overwrite_cons.
  destruct (decide (k0 = k)) as [->|Hne].
  - intros [= ->]. rewrite recursive_overwrite_base_only.
    + apply merge_entry_get_eq.
    + apply dict_get_None_keys. unfold dict_keys. now rewrite <- list_elem_of_In.
  - intros Hv. rewrite (IH _ Hnd Hv). now rewrite merge_entry_get_ne.
Qed.

Lemma well_formed_dict d :
  well_formed (PDict d) = true ->
  NoDup (dict_keys d) /\ forall k v, dict_get d k = Some v -> well_formed v = true.
Proof.
  simpl. intros H. apply andb_true_iff in H as [Hnd Hall].
  apply bool_decide_eq_true in Hnd. split; [exact Hnd|].
  clear Hnd. induction d as [|[k0 v0] d IH]; intros k v; simpl; [discriminate|].
  apply andb_true_iff in Hall as [Hv0 Hall].
  destruct (decide (k0 = k)); [intros [= <-]; exact Hv0 | now apply IH].
Qed.




(* ===================================================================== *)
(** * Output name folding                                                 *)
(* ===================================================================== *)

Section Folding.
Context {S A : Type}.


(** A property of the state and of the items consumed so far that every
    successful round keeps holds at the end of a successful loop. *)
Lemma foldM_invariant (f : S -> A -> result S) (P : list A -> S -> Prop) xs s s' :
  P [] s ->
  (forall done x s1 s2, P done s1 -> f s1 x = Ok s2 -> P (done ++ [x])%list s2) ->
  foldM f xs s = Ok s' -> P xs s'.
Proof.
  intros H0 Hstep.
  assert (G : forall done s1, P done s1 -> foldM f xs s1 = Ok s' -> P (done ++ xs)%list s').
  { induction xs as [|x xs IH]; intros done s1 Hd; simpl.
    - intros [= <-]. now rewrite app_nil_r.
    - intros H. apply bind_Ok in H as (s2 & Hs2 & H).
      replace (done ++ x :: xs)%list with ((done ++ [x]) ++ xs)%list
        by (now rewrite <- app_assoc).
      eapply IH; [eapply Hstep; eauto | exact H]. }
  intros H. exact (G [] s H0 H).
Qed.
End Folding.

Section Registering.
Variable default : string.
Implicit Types (outs : list (string * DXSpec_TextureKey))
               (inv : list (DXSpec_TextureKey * string))
               (key : DXSpec_TextureKey).

Lemma register_Ok outs inv key outs' inv' :
  register default (outs, inv) key = Ok (outs', inv') ->
  exists n, name_fold key default = Ok n
    /\ dict_get outs n = None /\ dict_get inv key = None
    /\ outs' = dict_set outs n key /\ inv' = dict_set inv key n.
Proof.
  unfold register. intros H.
  apply bind_Ok in H as (n & Hn & H).
  apply bind_Ok in H as (o & Ho & H).
  apply bind_Ok in H as (i & Hi & [= <- <-]).
  unfold dict_mem in *.
  destruct (dict_get outs n) eqn:En; [discriminate|].
  destruct (dict_get inv key) eqn:Ek; [discriminate|].
  injection Ho as <-. injection Hi as <-. eauto 10.
Qed.

(** A name that is taken stops the loop: nothing is overwritten. *)
Lemma register_name_taken outs inv key n :
  name_fold key default = Ok n -> dict_mem n outs = true ->
  register default (outs, inv) key = Raise (ValueError OutnameExists).
Proof. intros Hn Hm. unfold register. rewrite Hn. simpl. now rewrite Hm. Qed.

(** So does a key that is registered already. *)
Lemma register_key_taken outs inv key n :
  name_fold key default = Ok n -> dict_mem n outs = false -> dict_mem key inv = true ->
  register default (outs, inv) key = Raise (ValueError OutnameInverseExists).
Proof. intros Hn Hm Hk. unfold register. rewrite Hn. simpl. now rewrite Hm, Hk. Qed.

Lemma register_keeps_inverse outs inv key outs' inv' :
  mutually_inverse inv outs ->
  register default (outs, inv) key = Ok (outs', inv') ->
  mutually_inverse inv' outs'.
Proof.
  intros Hinv H. apply register_Ok in H as (n & _ & Hn & Hk & -> & ->).
  intros k' n'.
  destruct (decide (key = k')) as [<-|Hkk].
  - rewrite dict_get_set_eq.
    destruct (decide (n = n')) as [<-|Hnn].
    + rewrite dict_get_set_eq. tauto.
    + rewrite dict_get_set_ne by exact Hnn. split; [congruence|].
      intros Ho. apply Hinv in Ho. congruence.
  - rewrite dict_get_set_ne by exact Hkk.
    destruct (decide (n = n')) as [<-|Hnn].
    + rewrite dict_get_set_eq. split; [|congruence].
      intros Hi. apply Hinv in Hi. congruence.
    + rewrite dict_get_set_ne by exact Hnn. apply Hinv.
Qed.

Lemma register_keeps_entries outs inv key outs' inv' :
  register default (outs, inv) key = Ok (outs', inv') ->
  (forall n k, dict_get outs n = Some k -> dict_get outs' n = Some k)
  /\ (forall k n, dict_get inv k = Some n -> dict_get inv' k = Some n).
Proof.
  intros H. apply register_Ok in H as (n & _ & Hn & Hk & -> & ->).
  split.
  - intros n' k' Hg. rewrite dict_get_set_ne; [exact Hg | congruence].
  - intros k' n' Hg. rewrite dict_get_set_ne; [exact Hg | congruence].
Qed.

(** After a successful loop the two dicts are mutually inverse, the keys
    were pairwise distinct, and every key holds the name it folds to. *)
Lemma foldM_register keys outs inv :
  foldM (register default) keys ([], []) = Ok (outs, inv) ->
  mutually_inverse inv outs
  /\ NoDup keys
  /\ (forall key, In key keys -> exists n, name_fold key default = Ok n
                                          /\ dict_get inv key = Some n)
  /\ (forall key n, dict_get inv key = Some n ->
        In key keys /\ name_fold key default = Ok n).
Proof.
  intros H.
  apply (foldM_invariant (register default)
           (fun done st =>
              mutually_inverse (snd st) (fst st)
              /\ NoDup done
              /\ (forall key, In key done ->
                    exists n, name_fold key default = Ok n
                              /\ dict_get (snd st) key = Some n)
              /\ (forall key n, dict_get (snd st) key = Some n ->
                    In key done /\ name_fold key default = Ok n))
           keys ([], []) (outs, inv)); [| |exact H].
  - simpl. repeat split; try (intros; discriminate); try tauto. constructor.
  - intros done x [o1 i1] [o2 i2] (Hinv & Hnd & Hall & Hback) Hr. simpl in *.
    pose proof (register_keeps_inverse _ _ _ _ _ Hinv Hr) as Hinv'.
    pose proof (register_keeps_entries _ _ _ _ _ Hr) as [_ Hkeep].
    apply register_Ok in Hr as (n & Hn & Ho & Hi & -> & ->).
    split; [exact Hinv'|]. split; [|split].
    + apply NoDup_app. split; [exact Hnd|]. split; [|apply NoDup_singleton].
      intros y Hy Hy'. apply list_elem_of_In in Hy, Hy'.
      destruct Hy' as [<-|[]]. destruct (Hall _ Hy) as (n' & _ & Hg). congruence.
    + intros key Hin. apply in_app_or in Hin as [Hin|[<-|[]]].
      * destruct (Hall _ Hin) as (n' & Hn' & Hg). exists n'. split; [exact Hn'|].
        rewrite dict_get_set_ne; [exact Hg | congruence].
      * exists n. split; [exact Hn | apply dict_get_set_eq].
    + intros key n'. destruct (decide (x = key)) as [<-|Hne].
      * rewrite dict_get_set_eq. intros [= <-]. split; [apply in_or_app; right; now left | exact Hn].
      * rewrite dict_get_set_ne by exact Hne. intros Hg.
        destruct (Hback _ _ Hg) as [Hin Hf]. split; [apply in_or_app; now left | exact Hf].
Qed.
End Registering.

Lemma mutually_inverse_injective {K N} `{EqDecision K} `{EqDecision N}
    (key2name : list (K * N)) (name2key : list (N * K)) :
  mutually_inverse key2name name2key ->
  (forall k1 k2 n, dict_get key2name k1 = Some n -> dict_get key2name k2 = Some n -> k1 = k2)
  /\ (forall n1 n2 k, dict_get name2key n1 = Some k -> dict_get name2key n2 = Some k -> n1 = n2).
Proof.
  intros Hinv. split.
  - intros k1 k2 n H1 H2. apply Hinv in H1, H2. congruence.
  - intros n1 n2 k H1 H2. apply Hinv in H1, H2. congruence.
Qed.

(** Each slot kind of the container is the result of its own loop. *)
Lemma texture_spec_container_slot keys_db c (s : slot_kind) :
  DXSpec_TextureSpecContainer_init keys_db = Ok c ->
  fold_names (at_slot s (key2list keys_db)) (default_name s)
  = Ok (at_slot s (str2key c), at_slot s (key2str c)).
Proof.
  unfold DXSpec_TextureSpecContainer_init. intros H.
  apply bind_Ok in H as ([d1 d2] & Hd & H).
  apply bind_Ok in H as ([n1 n2] & Hn & H).
  apply bind_Ok in H as ([o1 o2] & Ho & H).
  apply bind_Ok in H as ([e1 e2] & He & [= <-]).
  destruct s; simpl; assumption.
Qed.

(** The dicts of a constructed [DXSpec_TextureSpecContainer], slot by slot. *)
Lemma texture_spec_container_names keys_db c (s : slot_kind) :
  DXSpec_TextureSpecContainer_init keys_db = Ok c ->
  mutually_inverse (at_slot s (key2str c)) (at_slot s (str2key c))
  /\ (forall k, In k (dict_keys (at_slot s (key2list keys_db)))
                <-> exists n, dict_get (at_slot s (key2str c)) k = Some n)
  /\ (forall k n, dict_get (at_slot s (key2str c)) k = Some n ->
                  name_fold k (default_name s) = Ok n).
Proof.
  intros Hc.
  pose proof (texture_spec_container_slot keys_db c s Hc) as Hs.
  apply foldM_register in Hs as (Hinv & _ & Hall & Hback).
  split; [exact Hinv|]. split.
  - intros k. split.
    + intros Hin. destruct (Hall k Hin) as (n & _ & Hg). eauto.
    + intros [n Hg]. now destruct (Hback k n Hg).
  - intros k n Hg. now destruct (Hback k n Hg).
Qed.

(** C7: when the construction of [DXSpec_TextureSpecContainer] completes,
    then for every slot kind the key-to-name dict and the name-to-key dict
    are mutually inverse, hence both injective; the keys that have a name
    are exactly the keys of the slot's [key2list], each under the name it
    folds to.  During the construction, a name that is already taken, or a
    key that is already registered, makes the round raise, a loop over keys
    with a repetition never completes, and a round that completes leaves
    every earlier entry as it was. *)
Theorem C7_names_bijective :
  (forall keys_db c, DXSpec_TextureSpecContainer_init keys_db = Ok c ->
     forall s : slot_kind,
       mutually_inverse (at_slot s (key2str c)) (at_slot s (str2key c))
       /\ (forall k1 k2 n, dict_get (at_slot s (key2str c)) k1 = Some n ->
                           dict_get (at_slot s (key2str c)) k2 = Some n -> k1 = k2)
       /\ (forall n1 n2 k, dict_get (at_slot s (str2key c)) n1 = Some k ->
                           dict_get (at_slot s (str2key c)) n2 = Some k -> n1 = n2)
       /\ (forall k, In k (dict_keys (at_slot s (key2list keys_db)))
                     <-> exists n, dict_get (at_slot s (key2str c)) k = Some n)
       /\ (forall k n, dict_get (at_slot s (key2str c)) k = Some n ->
                       name_fold k (default_name s) = Ok n))
  /\
  (forall default outs inv key n, name_fold key default = Ok n ->
     (dict_mem n outs = true ->
        register default (outs, inv) key = Raise (ValueError OutnameExists))
     /\ (dict_mem n outs = false -> dict_mem key inv = true ->
        register default (outs, inv) key = Raise (ValueError OutnameInverseExists)))
  /\
  (forall default outs inv key outs' inv',
     register default (outs, inv) key = Ok (outs', inv') ->
     (forall n k, dict_get outs n = Some k -> dict_get outs' n = Some k)
     /\ (forall k n, dict_get inv k = Some n -> dict_get inv' k = Some n))
  /\
  (forall default keys st, foldM (register default) keys ([], []) = Ok st -> NoDup keys).
Proof.
  split; [|split; [|split]].
  - intros keys_db c Hc s.
    destruct (texture_spec_container_names keys_db c s Hc) as (Hinv & Hnamed & Hname).
    destruct (mutually_inverse_injective _ _ Hinv) as [Hk Hn].
    repeat split; try assumption; apply Hinv || apply Hnamed.
  - intros default outs inv key n Hn. split.
    + now apply register_name_taken.
    + now apply register_key_taken.
  - intros default outs inv key outs' inv'. apply register_keeps_entries.
  - intros default keys [outs inv] H. now apply foldM_register in H as (_ & Hnd & _).
Qed.

(* ===================================================================== *)
(** * Texture keys and the material-to-texture table                      *)
(* ===================================================================== *)

Section MoreDictFacts.
Context {K V : Type} `{EqDecision K}.
Implicit Types (d : list (K * V)) (k : K) (v : V).

Lemma dict_set_NoDup d k v : NoDup (dict_keys d) -> NoDup (dict_keys (dict_set d k v)).
Proof.
  intros Hnd. destruct (dict_get d k) eqn:E.
  - rewrite dict_keys_set_present by congruence. exact Hnd.
  - rewrite dict_keys_set_fresh by exact E.
    apply NoDup_app. split; [exact Hnd|]. split; [|apply NoDup_singleton].
    intros y Hy Hy'. apply list_elem_of_In in Hy, Hy'. destruct Hy' as [<-|[]].
    apply dict_get_None_keys in E. contradiction.
Qed.

Lemma dict_get_In_NoDup d k v : NoDup (dict_keys d) -> In (k, v) d -> dict_get d k = Some v.
Proof.
  unfold dict_keys. induction d as [|[k0 v0] d IH]; simpl; [tauto|].
  intros Hnd [Hin|Hin]; apply NoDup_cons in Hnd as [Hk0 Hnd].
  - injection Hin as -> ->. destruct (decide (k = k)); congruence.
  - destruct (decide (k0 = k)) as [->|]; [|now apply IH].
    exfalso. apply Hk0. apply list_elem_of_In.
    change k with (fst (k, v)). now apply in_map.
Qed.
End MoreDictFacts.

(** ** [invert_key2list] *)

Lemma invert_inner_get (k : DXSpec_TextureKey) (vs : list string)
    (acc : list (string * DXSpec_TextureKey)) (name : string) :
  (In name vs -> dict_get (fold_left (fun acc v => dict_set acc v k) vs acc) name = Some k)
  /\ (~ In name vs ->
      dict_get (fold_left (fun acc v => dict_set acc v k) vs acc) name = dict_get acc name).
Proof.
  revert acc. induction vs as [|v vs IH]; intros acc; simpl; [tauto|].
  destruct (IH (dict_set acc v k)) as [IH1 IH2].
  destruct (in_dec string_dec name vs) as [Hin|Hnin].
  - split; [intros _; now apply IH1 | tauto].
  - split.
    + intros [->|Hin]; [|contradiction]. rewrite IH2 by exact Hnin. apply dict_get_set_eq.
    + intros Hn. rewrite IH2 by exact Hnin. apply dict_get_set_ne. tauto.
Qed.

Lemma invert_outer_sound (d : list (DXSpec_TextureKey * list string))
    (acc : list (string * DXSpec_TextureKey)) (name : string) key :
  dict_get
    (fold_left (fun acc kvs => fold_left (fun acc v => dict_set acc v (fst kvs)) (snd kvs) acc)
       d acc) name = Some key ->
  dict_get acc name = Some key \/ exists vs, In (key, vs) d /\ In name vs.
Proof.
  revert acc. induction d as [|[k vs] d IH]; intros acc; simpl; [tauto|].
  intros H. apply IH in H as [H|(vs' & Hin & Hn)]; [|right; eauto].
  destruct (invert_inner_get k vs acc name) as [H1 H2].
  destruct (in_dec string_dec name vs) as [Hin|Hnin].
  - rewrite H1 in H by exact Hin. injection H as <-. right. eauto.
  - rewrite H2 in H by exact Hnin. now left.
Qed.

Lemma invert_outer_complete (d : list (DXSpec_TextureKey * list string))
    (acc : list (string * DXSpec_TextureKey)) (name : string) :
  (is_Some (dict_get acc name) \/ exists key vs, In (key, vs) d /\ In name vs) ->
  is_Some
    (dict_get
       (fold_left (fun acc kvs => fold_left (fun acc v => dict_set acc v (fst kvs)) (snd kvs) acc)
          d acc) name).
Proof.
  revert acc. induction d as [|[k vs] d IH]; intros acc; simpl.
  - intros [H|(? & ? & [] & _)]. exact H.
  - intros H. apply IH.
    destruct (invert_inner_get k vs acc name) as [H1 H2].
    destruct (in_dec string_dec name vs) as [Hin|Hnin].
    + left. rewrite H1 by exact Hin. eauto.
    + rewrite H2 by exact Hnin.
      destruct H as [H|(key & vs' & [Hin|Hin] & Hn)]; [now left | | right; eauto].
      injection Hin as <- <-. contradiction.
Qed.

(** ** The diffuse part of [DXSpec_TextureKeysContainer] *)

Lemma key2list_append_NoDup d key mat_name :
  NoDup (dict_keys d) -> NoDup (dict_keys (key2list_append d key mat_name)).
Proof. apply dict_set_NoDup. Qed.

Lemma key2list_append_get d key mat_name key' :
  dict_get (key2list_append d key mat_name) key'
  = if decide (key = key')
    then Some (default [] (dict_get d key) ++ [mat_name])%list
    else dict_get d key'.
Proof.
  unfold key2list_append. destruct (decide (key = key')) as [<-|Hne].
  - apply dict_get_set_eq.
  - now apply dict_get_set_ne.
Qed.

Lemma add_material_diffuse k2l mat_name spec_mat k2l' :
  add_material k2l (mat_name, spec_mat) = Ok k2l' ->
  exists key, get_diffuse_texture_key spec_mat = Ok key
    /\ on_diffuse k2l' = key2list_append (on_diffuse k2l) key mat_name.
Proof.
  unfold add_material. intros H.
  apply bind_Ok in H as (key & Hk & H). apply bind_Ok in H as (em & _ & [= <-]).
  eauto.
Qed.

(** The diffuse [key2list] lists, under each key, exactly the materials
    whose diffuse key it is. *)
Lemma key2list_diffuse_spec db k2l :
  foldM add_material db
    {| on_diffuse := []; on_normal := []; on_orm := []; on_emissive := [] |} = Ok k2l ->
  NoDup (dict_keys (on_diffuse k2l))
  /\ (forall mat_name m, In (mat_name, m) db -> is_ok (get_diffuse_texture_key m) = true)
  /\ forall key mat_name,
       (exists vs, dict_get (on_diffuse k2l) key = Some vs /\ In mat_name vs)
       <-> (exists m, In (mat_name, m) db /\ get_diffuse_texture_key m = Ok key).
Proof.
  intros H.
  apply (foldM_invariant add_material
           (fun done st =>
              NoDup (dict_keys (on_diffuse st))
              /\ (forall mat_name m, In (mat_name, m) done ->
                    is_ok (get_diffuse_texture_key m) = true)
              /\ forall key mat_name,
                   (exists vs, dict_get (on_diffuse st) key = Some vs /\ In mat_name vs)
                   <-> (exists m, In (mat_name, m) done /\ get_diffuse_texture_key m = Ok key))
           db {| on_diffuse := []; on_normal := []; on_orm := []; on_emissive := [] |}
           k2l); [| |exact H].
  - simpl. split; [constructor|]. split; [intros ? ? []|]. intros key mat_name.
    split; [intros (vs & Hg & _); discriminate | intros (m & [] & _)].
  - intros done [name0 m0] s1 s2 (Hnd & Hkeys & Hspec) Hadd.
    apply add_material_diffuse in Hadd as (key0 & Hk0 & ->).
    split; [now apply key2list_append_NoDup|].
    split.
    { intros mat_name m Hin. apply in_app_or in Hin as [Hin|[Heq|[]]]; [eauto|].
      injection Heq as <- <-. now rewrite Hk0. }
    intros key mat_name. rewrite key2list_append_get.
    destruct (decide (key0 = key)) as [<-|Hne].
    + split.
      * intros (vs & [= <-] & Hin). apply in_app_or in Hin as [Hin|[<-|[]]].
        -- destruct (dict_get s1.(on_diffuse) key0) as [vs0|] eqn:E; [|destruct Hin].
           destruct (proj1 (Hspec key0 mat_name)) as (m & Hm & Hk); [eauto|].
           exists m. split; [apply in_or_app; now left | exact Hk].
        -- exists m0. split; [apply in_or_app; right; now left | exact Hk0].
      * intros (m & Hin & Hk). eexists. split; [reflexivity|].
        apply in_app_or in Hin as [Hin|[Heq|[]]].
        -- destruct (proj2 (Hspec key0 mat_name)) as (vs & Hg & Hv); [eauto|].
           rewrite Hg. simpl. apply in_or_app. now left.
        -- injection Heq as <- <-. apply in_or_app. right. now left.
    + rewrite Hspec. split.
      * intros (m & Hin & Hk). exists m. split; [apply in_or_app; now left | exact Hk].
      * intros (m & Hin & Hk). exists m. split; [|exact Hk].
        apply in_app_or in Hin as [Hin|[Heq|[]]]; [exact Hin|].
        injection Heq as <- <-. congruence.
Qed.

(** The name-to-key dict of the keys container sends each material of the
    database to its own diffuse key. *)
Lemma keys_container_diffuse db kc mat_name m key :
  NoDup (dict_keys db) ->
  DXSpec_TextureKeysContainer_init db = Ok kc ->
  dict_get db mat_name = Some m ->
  get_diffuse_texture_key m = Ok key ->
  dict_get (on_diffuse (keys_str2key kc)) mat_name = Some key
  /\ In key (dict_keys (on_diffuse (key2list kc))).
Proof.
  intros Hnd Hkc Hm Hk. unfold DXSpec_TextureKeysContainer_init in Hkc.
  apply bind_Ok in Hkc as (k2l & Hfold & [= <-]). simpl.
  destruct (key2list_diffuse_spec db k2l Hfold) as (Hnd2 & _ & Hspec).
  destruct (proj2 (Hspec key mat_name)) as (vs & Hg & Hin);
    [exists m; split; [now apply dict_get_Some_In | exact Hk]|].
  split.
  - unfold invert_key2list.
    destruct (invert_outer_complete (on_diffuse k2l) [] mat_name) as [key' Hkey'].
    { right. exists key, vs. split; [now apply dict_get_Some_In | exact Hin]. }
    rewrite Hkey'. f_equal.
    apply invert_outer_sound in Hkey' as [Hkey'|(vs' & Hin' & Hn')]; [discriminate|].
    destruct (proj1 (Hspec key' mat_name)) as (m' & Hm' & Hk').
    { exists vs'. split; [now apply dict_get_In_NoDup | exact Hn']. }
    apply (dict_get_In_NoDup _ _ _ Hnd) in Hm'. congruence.
  - apply dict_mem_keys. unfold dict_mem. now rewrite Hg.
Qed.

Lemma compose_names_get tex_outs tex_keys t mat_name key :
  compose_names tex_outs tex_keys = Ok t ->
  dict_get tex_keys mat_name = Some key ->
  exists n, dict_get tex_outs key = Some n /\ dict_get t mat_name = Some n.
Proof.
  unfold compose_names. revert t.
  induction tex_keys as [|[name0 k0] tex_keys IH]; intros t; simpl; [discriminate|].
  intros H. apply bind_Ok in H as ([name1 n1] & H1 & H).
  apply bind_Ok in H as (t' & Ht' & [= <-]).
  destruct (dict_get tex_outs k0) as [n0|] eqn:E0; [|discriminate].
  injection H1 as <- <-. simpl.
  destruct (decide (name0 = mat_name)) as [->|Hne].
  - intros [= <-]. eauto.
  - now apply IH.
Qed.

Lemma keys_container_has_keys db kc mat_name m :
  DXSpec_TextureKeysContainer_init db = Ok kc ->
  dict_get db mat_name = Some m ->
  exists key, get_diffuse_texture_key m = Ok key.
Proof.
  intros Hkc Hm. unfold DXSpec_TextureKeysContainer_init in Hkc.
  apply bind_Ok in Hkc as (k2l & Hfold & _).
  destruct (key2list_diffuse_spec db k2l Hfold) as (_ & Hkeys & _).
  apply dict_get_Some_In in Hm. apply Hkeys in Hm.
  destruct (get_diffuse_texture_key m); [eauto | discriminate].
Qed.

Lemma get_diffuse_texture_key_Ok m key :
  get_diffuse_texture_key m = Ok key ->
  fst (fst key) = [(uri (diffuse m), swizzle (diffuse m))] /\ snd key = resolution m.
Proof.
  unfold get_diffuse_texture_key, diffuse_get_texture_key. intros H.
  apply bind_Ok in H as (one & _ & [= <-]). split; reflexivity.
Qed.

(** The name of a one-channel key depends on its [uri] alone. *)
Lemma name_fold_one_channel (u : option pyuri) s s' (f f' : string) (r r' : list Z) default :
  name_fold ([(u, s)], f, r) default = name_fold ([(u, s')], f', r') default.
Proof.
  unfold name_fold. simpl. destruct u as [p|]; simpl; [|reflexivity].
  rewrite bool_decide_eq_true_2 by reflexivity. reflexivity.
Qed.

(** Whatever stops the loop over keys that are pairwise distinct and all
    have a name is the name-collision error. *)
Lemma foldM_register_raises default keys : forall done outs inv e,
  (forall k, dict_mem k inv = true -> In k done) ->
  NoDup (done ++ keys) ->
  (forall k, In k keys -> exists n, name_fold k default = Ok n) ->
  foldM (register default) keys (outs, inv) = Raise e ->
  e = ValueError OutnameExists.
Proof.
  induction keys as [|k keys IH]; intros done outs inv e Hinv Hnd Hfold; cbn [foldM];
    [discriminate|].
  destruct (Hfold k (or_introl eq_refl)) as [n Hn].
  destruct (dict_mem n outs) eqn:Eo.
  - rewrite (register_name_taken default outs inv k n Hn Eo). cbn [bind].
    now intros [= <-].
  - destruct (dict_mem k inv) eqn:Ei.
    + exfalso. apply Hinv in Ei. apply NoDup_app in Hnd as (_ & Hdis & _).
      apply (Hdis k); [now apply list_elem_of_In | apply list_elem_of_In; now left].
    + assert (Hreg : register default (outs, inv) k
                     = Ok (dict_set outs n k, dict_set inv k n)).
      { unfold register. rewrite Hn. cbn [bind]. rewrite Eo. cbn [negb bind].
        rewrite Ei. reflexivity. }
      rewrite Hreg. cbn [bind]. apply (IH (done ++ [k])%list).
      * intros k' Hk'. unfold dict_mem in Hk'. apply in_or_app.
        destruct (decide (k = k')) as [<-|Hne]; [right; now left|].
        rewrite dict_get_set_ne in Hk' by exact Hne. left. now apply Hinv.
      * now rewrite <- app_assoc.
      * intros k' Hk'. apply Hfold. now right.
Qed.

(** Two different keys with the same name stop the loop. *)
Lemma foldM_register_collision default keys kA kB n :
  In kA keys -> In kB keys -> kA <> kB ->
  name_fold kA default = Ok n -> name_fold kB default = Ok n ->
  is_ok (foldM (register default) keys ([], [])) = false.
Proof.
  intros HA HB Hne HnA HnB.
  destruct (foldM (register default) keys ([], [])) as [[outs inv]|e] eqn:E;
    [exfalso | reflexivity].
  apply foldM_register in E as (Hinv & _ & Hall & _).
  destruct (Hall kA HA) as (nA & HfA & HgA). destruct (Hall kB HB) as (nB & HfB & HgB).
  assert (nA = n) as -> by congruence. assert (nB = n) as -> by congruence.
  apply Hne. exact (proj1 (mutually_inverse_injective _ _ Hinv) kA kB n HgA HgB).
Qed.

(** Every key of the diffuse [key2list] is the diffuse key of a material. *)
Lemma key2list_diffuse_keys db k2l :
  foldM add_material db
    {| on_diffuse := []; on_normal := []; on_orm := []; on_emissive := [] |} = Ok k2l ->
  forall key, In key (dict_keys (on_diffuse k2l)) ->
    exists mat_name m, In (mat_name, m) db /\ get_diffuse_texture_key m = Ok key.
Proof.
  intros H.
  apply (foldM_invariant add_material
           (fun done st =>
              forall key, In key (dict_keys (on_diffuse st)) ->
                exists mat_name m, In (mat_name, m) done
                                   /\ get_diffuse_texture_key m = Ok key)
           db {| on_diffuse := []; on_normal := []; on_orm := []; on_emissive := [] |}
           k2l); [| |exact H].
  - intros key [].
  - intros done [name0 m0] s1 s2 IH Hadd key Hin.
    apply add_material_diffuse in Hadd as (key0 & Hk0 & Hs2). rewrite Hs2 in Hin.
    apply dict_mem_keys in Hin. unfold dict_mem in Hin.
    rewrite key2list_append_get in Hin.
    destruct (decide (key0 = key)) as [<-|Hne].
    + exists name0, m0. split; [apply in_or_app; right; now left | exact Hk0].
    + destruct (IH key) as (name & m & Hm & Hk).
      { apply dict_mem_keys. unfold dict_mem.
        destruct (dict_get (on_diffuse s1) key); [reflexivity | discriminate]. }
      exists name, m. split; [apply in_or_app; now left | exact Hk].
Qed.

(** The diffuse key of a material whose source is not an override string
    has a name. *)
Lemma diffuse_key_has_name m key :
  get_diffuse_texture_key m = Ok key ->
  (forall u, uri (diffuse m) <> Some (UStr u)) ->
  exists n, name_fold key (default_name Diffuse) = Ok n.
Proof.
  intros Hk Hu. destruct key as [[c f] r].
  apply get_diffuse_texture_key_Ok in Hk as [Hc _]. cbn [fst snd] in Hc. subst c.
  unfold name_fold. cbn [fst snd omap].
  destruct (uri (diffuse m)) as [[p|u]|]; cbn.
  - rewrite bool_decide_eq_true_2 by reflexivity. eauto.
  - now destruct (Hu u).
  - eauto.
Qed.

(** C1 (amended): two materials of the database whose diffuse slots have
    the same texture and swizzle.  With the same target resolution they
    have the same diffuse key, and the material-to-texture table of a run
    gives both the same diffuse file name.  With different target
    resolutions their diffuse keys differ but fold to the same name (the
    name does not depend on the resolution), one name unless the shared
    source is an override string, which has no name.  The run then never
    produces a table; when the keys of all materials are computed and no
    diffuse source of the database is an override string, what it raises
    is the name-collision error. *)
Theorem C1_shared_diffuse_texture (db : list (string * DXSpec_Material))
    (A B : string) (mA mB : DXSpec_Material) :
  NoDup (dict_keys db) ->
  dict_get db A = Some mA ->
  dict_get db B = Some mB ->
  uri (diffuse mA) = uri (diffuse mB) ->
  swizzle (diffuse mA) = swizzle (diffuse mB) ->
  (resolution mA = resolution mB ->
     get_diffuse_texture_key mA = get_diffuse_texture_key mB
     /\ forall t, Main.texture_tables db = Ok t ->
          exists n, dict_get (on_diffuse t) A = Some n /\ dict_get (on_diffuse t) B = Some n)
  /\
  (resolution mA <> resolution mB ->
     (forall kA kB,
        get_diffuse_texture_key mA = Ok kA -> get_diffuse_texture_key mB = Ok kB ->
        kA <> kB
        /\ name_fold kA (default_name Diffuse) = name_fold kB (default_name Diffuse)
        /\ ((forall u, uri (diffuse mA) <> Some (UStr u)) ->
            exists n, name_fold kA (default_name Diffuse) = Ok n
                      /\ name_fold kB (default_name Diffuse) = Ok n))
     /\ is_ok (Main.texture_tables db) = false
     /\ (is_ok (DXSpec_TextureKeysContainer_init db) = true ->
         (forall mat_name m u, dict_get db mat_name = Some m ->
            uri (diffuse m) <> Some (UStr u)) ->
         Main.texture_tables db = Raise (ValueError OutnameExists))).
Proof.
  intros Hnd HA HB Huri Hsw. split.
  - intros Hres.
    assert (Hkeys : get_diffuse_texture_key mA = get_diffuse_texture_key mB)
      by (unfold get_diffuse_texture_key, diffuse_get_texture_key;
          now rewrite Huri, Hsw, Hres).
    split; [exact Hkeys|].
    intros t Ht. unfold Main.texture_tables in Ht.
    apply bind_Ok in Ht as (kc & Hkc & Ht). apply bind_Ok in Ht as (sc & Hsc & Ht).
    unfold DXSpec_Mat2TextureContainer_init in Ht.
    apply bind_Ok in Ht as (d & Hd & Ht). apply bind_Ok in Ht as (n & _ & Ht).
    apply bind_Ok in Ht as (o & _ & Ht). apply bind_Ok in Ht as (e & _ & [= <-]). simpl.
    destruct (keys_container_has_keys db kc A mA Hkc HA) as [key Hkey].
    destruct (keys_container_diffuse db kc A mA key Hnd Hkc HA Hkey) as [HgA _].
    rewrite Hkeys in Hkey.
    destruct (keys_container_diffuse db kc B mB key Hnd Hkc HB Hkey) as [HgB _].
    destruct (compose_names_get _ _ _ _ _ Hd HgA) as (nA & HnA & HtA).
    destruct (compose_names_get _ _ _ _ _ Hd HgB) as (nB & HnB & HtB).
    exists nA. split; [exact HtA | congruence].
  - intros Hres.
    assert (Hdiff : forall kA kB,
               get_diffuse_texture_key mA = Ok kA -> get_diffuse_texture_key mB = Ok kB ->
               kA <> kB
               /\ name_fold kA (default_name Diffuse) = name_fold kB (default_name Diffuse)).
    { intros [[cA fA] rA] [[cB fB] rB] HkA HkB.
      apply get_diffuse_texture_key_Ok in HkA as [HcA HrA].
      apply get_diffuse_texture_key_Ok in HkB as [HcB HrB]. simpl in *. subst.
      split; [congruence|]. rewrite Huri. apply name_fold_one_channel. }
    split; [|split].
    + intros kA kB HkA HkB. destruct (Hdiff kA kB HkA HkB) as [Hne Hfold].
      split; [exact Hne|]. split; [exact Hfold|].
      intros Hu. destruct (diffuse_key_has_name mA kA HkA Hu) as [n Hn].
      exists n. split; [exact Hn | congruence].
    + destruct (Main.texture_tables db) as [t|err] eqn:Ht; [exfalso | reflexivity].
      unfold Main.texture_tables in Ht.
      apply bind_Ok in Ht as (kc & Hkc & Ht). apply bind_Ok in Ht as (sc & Hsc & _).
      destruct (keys_container_has_keys db kc A mA Hkc HA) as [kA HkA].
      destruct (keys_container_has_keys db kc B mB Hkc HB) as [kB HkB].
      destruct (keys_container_diffuse db kc A mA kA Hnd Hkc HA HkA) as [_ HinA].
      destruct (keys_container_diffuse db kc B mB kB Hnd Hkc HB HkB) as [_ HinB].
      destruct (Hdiff kA kB HkA HkB) as [Hne Hfold].
      destruct (texture_spec_container_names kc sc Diffuse Hsc) as (Hinv & Hnamed & Hname).
      destruct (mutually_inverse_injective _ _ Hinv) as [Hinj _].
      apply Hnamed in HinA as [nA HnA]. apply Hnamed in HinB as [nB HnB].
      pose proof (Hname _ _ HnA) as HfA. pose proof (Hname _ _ HnB) as HfB.
      rewrite Hfold, HfB in HfA. injection HfA as <-.
      apply Hne. exact (Hinj kA kB nB HnA HnB).
    + intros Hok Hstr.
      destruct (DXSpec_TextureKeysContainer_init db) as [kc|] eqn:Hkc; [|discriminate].
      destruct (keys_container_has_keys db kc A mA Hkc HA) as [kA HkA].
      destruct (keys_container_has_keys db kc B mB Hkc HB) as [kB HkB].
      destruct (keys_container_diffuse db kc A mA kA Hnd Hkc HA HkA) as [_ HinA].
      destruct (keys_container_diffuse db kc B mB kB Hnd Hkc HB HkB) as [_ HinB].
      destruct (Hdiff kA kB HkA HkB) as [Hne Hfold].
      destruct (diffuse_key_has_name mA kA HkA (fun u => Hstr A mA u HA)) as [n HnA].
      assert (HnB : name_fold kB (default_name Diffuse) = Ok n) by congruence.
      unfold Main.texture_tables. rewrite Hkc. cbn [bind].
      unfold DXSpec_TextureKeysContainer_init in Hkc.
      apply bind_Ok in Hkc as (k2l & Hk2l & [= <-]). cbn [key2list] in *.
      destruct (key2list_diffuse_spec db k2l Hk2l) as (Hnd2 & _ & _).
      pose proof (foldM_register_collision _ _ kA kB n HinA HinB Hne HnA HnB) as Hfail.
      unfold DXSpec_TextureSpecContainer_init, fold_names. cbn [key2list].
      change "$DEFAULT_DIFFUSE" with (default_name Diffuse).
      destruct (foldM (register (default_name Diffuse)) (dict_keys (on_diffuse k2l)) ([], []))
        as [st|e] eqn:E; [discriminate|].
      cbn [bind].
      rewrite (foldM_register_raises (default_name Diffuse) (dict_keys (on_diffuse k2l))
                 [] [] [] e); [reflexivity | discriminate | exact Hnd2 | | exact E].
      intros key Hin.
      destruct (key2list_diffuse_keys db k2l Hk2l key Hin) as (name & m & Hm & Hk).
      apply (diffuse_key_has_name m key Hk).
      intros u. apply (Hstr name m u). now apply dict_get_In_NoDup.
Qed.

Lemma NoDup_two_names (a b : string) {V} (x y : V) :
  a <> b -> NoDup (dict_keys [(a, x); (b, y)]).
Proof.
  intros Hne. unfold dict_keys. simpl.
  apply NoDup_cons. split; [|apply NoDup_singleton].
  intros Hin. apply list_elem_of_In in Hin as [Heq|[]]. congruence.
Qed.

Lemma C1_shared_diffuse_texture_witness :
  (exists t,
     Main.texture_tables Fixtures.db_shared = Ok t
     /\ dict_get (on_diffuse t) "A" = Some "wood.dds"
     /\ dict_get (on_diffuse t) "B" = Some "wood.dds")
  /\ Main.texture_tables Fixtures.db_split = Raise (ValueError OutnameExists).
Proof.
  split.
  - destruct (C1_shared_diffuse_texture Fixtures.db_shared "A" "B"
                (Fixtures.assemble (Fixtures.textured "A" "OPAQUE" 0) None)
                (Fixtures.assemble (Fixtures.textured "B" "OPAQUE" 0) None)
                (NoDup_two_names "A" "B" _ _ ltac:(discriminate))
                eq_refl eq_refl eq_refl eq_refl) as [Hsame _].
    destruct (Hsame eq_refl) as [_ Htable].
    destruct (Main.texture_tables Fixtures.db_shared) as [t|e] eqn:Et;
      [|vm_compute in Et; discriminate].
    destruct (Htable t eq_refl) as (n & HnA & HnB).
    exists t. split; [reflexivity|].
    assert (Hn : n = "wood.dds").
    { vm_compute in Et. injection Et as <-. vm_compute in HnA. congruence. }
    subst n. split; assumption.
  - destruct (C1_shared_diffuse_texture Fixtures.db_split "A" "B"
                (Fixtures.assemble (Fixtures.textured "A" "OPAQUE" 0) None)
                (Fixtures.assemble (Fixtures.textured "B" "OPAQUE" 0)
                   (Some [("resolution", PList [PInt 512; PInt 512])]))
                (NoDup_two_names "A" "B" _ _ ltac:(discriminate))
                eq_refl eq_refl eq_refl eq_refl) as [_ Hsplit].
    destruct Hsplit as (_ & _ & Hraise); [vm_compute; discriminate|].
    apply Hraise; [reflexivity|].
    intros mat_name m u Hm. apply dict_get_Some_In in Hm.
    destruct Hm as [[= <- <-]|[[= <- <-]|[]]]; discriminate.
Defined.

(** C1 as stated fails in its second half: with the target resolution of
    ["B"] overridden, the two materials have distinct diffuse keys, and the
    run raises ["Outname already exists!!"] instead of giving them two
    file names. *)
Lemma C1_resolution_override_collides :
  exists mA mB kA kB,
    DXSpec_Material_init (Fixtures.textured "A" "OPAQUE" 0) Fixtures.scene None = Ok mA
    /\ DXSpec_Material_init (Fixtures.textured "B" "OPAQUE" 0) Fixtures.scene
         (Some [("resolution", PList [PInt 512; PInt 512])]) = Ok mB
    /\ get_diffuse_texture_key mA = Ok kA
    /\ get_diffuse_texture_key mB = Ok kB
    /\ kA <> kB
    /\ Main.texture_tables [("A", mA); ("B", mB)] = Raise (ValueError OutnameExists).
Proof.
  do 4 eexists.
  split; [reflexivity|]. split; [reflexivity|]. split; [reflexivity|].
  split; [reflexivity|]. split; [discriminate | reflexivity].
Qed.

(* ===================================================================== *)
(** * Override exhaustion                                                 *)
(* ===================================================================== *)

Lemma existsb_eqb_In (k : string) ks : existsb (String.eqb k) ks = true <-> In k ks.
Proof.
  rewrite existsb_exists. split.
  - intros (x & Hin & Heq). apply String.eqb_eq in Heq. now subst.
  - intros Hin. exists k. split; [exact Hin | apply String.eqb_refl].
Qed.

Lemma only_keys_get ks (d : pydict) k :
  In k ks -> dict_get (only_keys ks d) k = dict_get d k.
Proof.
  intros Hin. unfold only_keys. induction d as [|[k0 v0] d IH]; simpl; [reflexivity|].
  destruct (existsb (String.eqb k0) ks) eqn:E; simpl.
  - destruct (decide (k0 = k)); [reflexivity | exact IH].
  - destruct (decide (k0 = k)) as [->|_]; [|exact IH].
    apply existsb_eqb_In in Hin. congruence.
Qed.

Lemma only_keys_get_or ks (d : pydict) k v :
  In k ks -> get_or (only_keys ks d) k v = get_or d k v.
Proof. intros Hin. unfold get_or. now rewrite only_keys_get. Qed.

Lemma only_keys_mem ks (d : pydict) k :
  In k ks -> dict_mem k (only_keys ks d) = dict_mem k d.
Proof. intros Hin. unfold dict_mem. now rewrite only_keys_get. Qed.



Lemma reject_leftover_Ok {A} rest (a b : A) : reject_leftover rest a = Ok b -> rest = [] /\ a = b.
Proof. destruct rest; [intros [= <-]; auto | discriminate]. Qed.

(** ** Slot-level records *)

(** [apply_override] on a non-empty record: the two recognized fields, then
    the leftover test. *)
Lemma apply_override_eq sw key self d :
  key <> "uri" -> d <> [] ->
  apply_override sw key self (Some d)
  = (t <- override_fields sw key self d ;;
     reject_leftover (without_keys ["uri"; key] d) t).
Proof.
  intros Hkey Hd. destruct d as [|kv d']; [congruence|].
  unfold apply_override, override_fields, reject_leftover, without_keys.
  cbv beta iota. cbn [fold_left]. clear Hd. remember (kv :: d') as d eqn:Ed. clear Ed.
  destruct (dict_get d "uri") as [v|] eqn:Eu.
  - destruct (as_uri v) as [u|e]; [|reflexivity]. cbn [bind].
    rewrite dict_get_del_ne by congruence.
    destruct (dict_get d key) as [m|] eqn:Ek.
    + cbn [strength]. destruct (modulate (strength self) m); reflexivity.
    + rewrite (dict_del_absent (dict_del d "uri") key)
        by (rewrite dict_get_del_ne by congruence; exact Ek).
      reflexivity.
  - cbn [bind]. rewrite (dict_del_absent d "uri" Eu).
    destruct (dict_get d key) as [m|] eqn:Ek.
    + destruct (modulate (strength self) m); reflexivity.
    + rewrite (dict_del_absent d key Ek). reflexivity.
Qed.



Lemma DXSpec_EmissiveTexture_init_eq obj src override :
  DXSpec_EmissiveTexture_init obj src override
  = (self <- emissive_base obj src override ;;
     match override with
     | Some ((_ :: _) as d) =>
         e <- emissive_fields self d ;;
         reject_leftover (without_keys ["uri"; "factor"] d) e
     | _ => Ok self
     end).
Proof.
  unfold DXSpec_EmissiveTexture_init, emissive_base.
  match goal with
  | |- bind ?c _ = bind ?c _ => destruct c as [self|e]; [|reflexivity]
  end.
  cbn [bind]. destruct override as [[|kv d']|]; try reflexivity.
  unfold emissive_fields, reject_leftover, without_keys.
  cbv beta iota. cbn [fold_left]. remember (kv :: d') as d eqn:Ed. clear Ed.
  destruct (dict_get d "uri") as [v|] eqn:Eu.
  - destruct (as_uri v) as [u|e]; [|reflexivity]. cbn [bind].
    rewrite dict_get_del_ne by congruence.
    destruct (dict_get d "factor") as [m|] eqn:Ek.
    + cbn [em_factor]. destruct (getattr "factor" (em_factor self)) as [f|]; [|reflexivity].
      cbn [bind]. destruct (modulate f m); reflexivity.
    + rewrite (dict_del_absent (dict_del d "uri") "factor")
        by (rewrite dict_get_del_ne by congruence; exact Ek).
      reflexivity.
  - cbn [bind]. rewrite (dict_del_absent d "uri" Eu).
    destruct (dict_get d "factor") as [m|] eqn:Ek.
    + destruct (getattr "factor" (em_factor self)) as [f|]; [|reflexivity].
      cbn [bind]. destruct (modulate f m); reflexivity.
    + rewrite (dict_del_absent d "factor" Ek). reflexivity.
Qed.




(** ** The material's override *)


Lemma agree_on_without ks ks' d :
  (forall k, In k ks -> ~ In k ks') -> agree_on ks d (without_keys ks' d).
Proof.
  unfold without_keys. revert d. induction ks' as [|k0 ks' IH]; intros d Hdis k Hin; simpl;
    [reflexivity|].
  rewrite IH; [|intros k1 H1 H2; apply (Hdis k1 H1); now right | exact Hin].
  apply dict_get_del_ne. intros ->. apply (Hdis k Hin). now left.
Qed.

Lemma orm_fields_agree obj src d d' :
  agree_on ["occlusion"; "roughness"; "metalness"] d d' ->
  orm_fields obj src d' = orm_fields obj src d.
Proof.
  intros H. unfold orm_fields, get_or. rewrite !H by (simpl; tauto). reflexivity.
Qed.

Lemma emissive_field_agree obj src d d' :
  agree_on ["emissive"] d d' -> emissive_field obj src d' = emissive_field obj src d.
Proof.
  intros H. unfold emissive_field, get_or, dict_mem. rewrite !H by (simpl; tauto).
  reflexivity.
Qed.



Lemma ORM_init_eq obj src d :
  DXSpec_OcclusionRoughnessMetalness_init obj src (Some d)
  = (o <- orm_fields obj src d ;;
     Ok (o, without_keys ["occlusion"; "roughness"; "metalness"] d)).
Proof.
  unfold DXSpec_OcclusionRoughnessMetalness_init, orm_fields, without_keys.
  rewrite !dict_pop_default_eq. cbv beta iota. cbn [fold_left].
  unfold get_or. rewrite !dict_get_del_ne by discriminate.
  repeat match goal with
         | |- bind ?c _ = bind (bind ?c _) _ => destruct c; cbn [bind]; [|reflexivity]
         end.
  reflexivity.
Qed.

Lemma emissive_slot_eq obj src d :
  emissive_slot obj src d
  = (e <- emissive_field obj src d ;; Ok (e, dict_del d "emissive")).
Proof.
  unfold emissive_slot, emissive_field.
  destruct (is_some (GLTF.emissive_texture obj) || tuple_truthy (GLTF.emissive_factor obj))
    eqn:Esrc; cbn [orb].
  - rewrite dict_pop_default_eq. cbv beta iota.
    repeat match goal with
           | |- bind ?c _ = bind (bind ?c _) _ => destruct c; cbn [bind]; [|reflexivity]
           end.
    reflexivity.
  - destruct (dict_mem "emissive" d) eqn:Em.
    + rewrite dict_pop_default_eq. cbv beta iota.
      repeat match goal with
             | |- bind ?c _ = bind (bind ?c _) _ => destruct c; cbn [bind]; [|reflexivity]
             end.
      reflexivity.
    + cbn [bind]. unfold dict_mem in Em.
      destruct (dict_get d "emissive") eqn:Eg; [discriminate|].
      now rewrite dict_del_absent.
Qed.

Lemma bind_assoc {A B C} (m : result A) (f : A -> result B) (g : B -> result C) :
  bind (bind m f) g = bind m (fun a => bind (f a) g).
Proof. destruct m; reflexivity. Qed.

(** [DXSpec_Material.__init__]: the fields read from the override, then the
    leftover test. *)
Lemma DXSpec_Material_init_eq obj src d :
  DXSpec_Material_init obj src (Some d)
  = (m <- material_fields obj src d ;; reject_leftover (without_keys material_keys d) m).
Proof.
  unfold DXSpec_Material_init, material_fields, without_keys, material_keys.
  cbn [fold_left].
  rewrite !dict_pop_default_eq. cbv beta iota.
  unfold get_or. rewrite !dict_get_del_ne by discriminate. fold (get_or d).
  repeat match goal with
         | |- bind ?c _ = bind (bind ?c _) _ => destruct c; cbn [bind]; [|reflexivity]
         end.
  rewrite ORM_init_eq.
  rewrite (orm_fields_agree obj src d)
    by (apply (agree_on_without _ ["blend_mode"; "alpha_cutoff"; "double_sided";
                                   "diffuse"; "normal"]);
        simpl; intuition (subst; discriminate)).
  destruct (orm_fields obj src d); cbn [bind]; [|reflexivity].
  rewrite emissive_slot_eq.
  rewrite (emissive_field_agree obj src d)
    by (apply (agree_on_without _ ["blend_mode"; "alpha_cutoff"; "double_sided";
                                   "diffuse"; "normal"; "occlusion"; "roughness";
                                   "metalness"]);
        simpl; intuition (subst; discriminate)).
  destruct (emissive_field obj src d); cbn [bind]; [|reflexivity].
  rewrite dict_pop_default_eq. cbv beta iota.
  unfold get_or at 1.
  rewrite (agree_on_without ["resolution"]
             ["blend_mode"; "alpha_cutoff"; "double_sided"; "diffuse"; "normal";
              "occlusion"; "roughness"; "metalness"; "emissive"] d)
    by (simpl; intuition (subst; discriminate)).
  fold (get_or d "resolution" (PList [PInt (-1); PInt (-1)])).
  repeat match goal with
         | |- bind ?c _ = bind (bind ?c _) _ => destruct c; cbn [bind]; [|reflexivity]
         end.
  reflexivity.
Qed.







Section WellFormedRecords.
Context {V : Type}.
Implicit Types (d : list (string * V)) (k : string).

Lemma dict_get_del_eq d k : NoDup (dict_keys d) -> dict_get (dict_del d k) k = None.
Proof.
  unfold dict_keys. induction d as [|[k0 v0] d IH]; simpl; [reflexivity|].
  intros Hnd. apply NoDup_cons in Hnd as [Hk0 Hnd].
  destruct (decide (k0 = k)) as [->|Hne]; simpl.
  - apply dict_get_None_keys. unfold dict_keys. now rewrite <- list_elem_of_In.
  - destruct (decide (k0 = k)); [congruence | now apply IH].
Qed.

Lemma dict_del_keys d k k' :
  NoDup (dict_keys d) ->
  In k' (dict_keys (dict_del d k)) <-> In k' (dict_keys d) /\ k' <> k.
Proof.
  intros Hnd. rewrite <- !dict_mem_keys. unfold dict_mem.
  destruct (decide (k' = k)) as [->|Hne].
  - rewrite dict_get_del_eq by exact Hnd. split; [discriminate | tauto].
  - rewrite dict_get_del_ne by congruence. tauto.
Qed.

Lemma dict_del_NoDup d k : NoDup (dict_keys d) -> NoDup (dict_keys (dict_del d k)).
Proof.
  unfold dict_keys. induction d as [|[k0 v0] d IH]; simpl; [auto|].
  intros Hnd. apply NoDup_cons in Hnd as [Hk0 Hnd].
  destruct (decide (k0 = k)); [exact Hnd|]. simpl. apply NoDup_cons. split; [|now apply IH].
  intros Hin. apply Hk0. apply list_elem_of_In in Hin. apply list_elem_of_In.
  apply (dict_del_keys d k k0 Hnd) in Hin. tauto.
Qed.
End WellFormedRecords.








(** A material that declares neither an emissive texture nor an emissive
    factor, and whose override does not name the emissive slot, has no
    emissive slot. *)
Lemma no_emissive_slot_without_source obj src override m :
  DXSpec_Material_init obj src override = Ok m ->
  GLTF.emissive_texture obj = None ->
  tuple_truthy (GLTF.emissive_factor obj) = false ->
  dict_get (default [] override) "emissive" = None ->
  emissive m = None.
Proof.
  intros Hm Ht Hf Hov.
  assert (Heq : DXSpec_Material_init obj src override
                = DXSpec_Material_init obj src (Some (default [] override)))
    by (destruct override; reflexivity).
  rewrite Heq, DXSpec_Material_init_eq in Hm.
  apply bind_Ok in Hm as (m' & Hm' & Hr). apply reject_leftover_Ok in Hr as [_ <-].
  unfold material_fields in Hm'.
  repeat (let x := fresh "x" in let Hx := fresh "Hx" in
          apply bind_Ok in Hm' as (x & Hx & Hm')).
  injection Hm' as <-. simpl.
  match goal with
  | He : emissive_field obj src _ = Ok ?e |- ?e = None =>
      unfold emissive_field, dict_mem in He; rewrite Ht, Hf, Hov in He;
      simpl in He; congruence
  end.
Qed.

(* ===================================================================== *)
(** * Modulation directives                                               *)
(* ===================================================================== *)

Lemma _modulate_fields original d op value :
  dict_get d "op" = Some op -> dict_get d "value" = Some value ->
  _modulate original (PDict d)
  = _modulate original (PDict [("op", op); ("value", value)]).
Proof.
  intros Hop Hv. unfold _modulate, dict_pop. rewrite Hop. cbn [bind].
  rewrite dict_get_del_ne by discriminate. rewrite Hv. reflexivity.
Qed.

(** X2: a directive is read through its [op] and [value] entries only: an
    entry under any other key is ignored, and a directive without [op] or
    without [value] ends in [KeyError]. *)
Theorem modulate_directive_fields (original : pyval) (d : pydict) :
  (forall op value, dict_get d "op" = Some op -> dict_get d "value" = Some value ->
     modulate original (PDict d)
     = modulate original (PDict [("op", op); ("value", value)]))
  /\ (dict_get d "op" = None -> modulate original (PDict d) = Raise KeyError)
  /\ (dict_get d "value" = None -> modulate original (PDict d) = Raise KeyError).
Proof.
  split; [|split].
  - intros op value Hop Hv. unfold modulate.
    now rewrite (_modulate_fields original d op value Hop Hv).
  - intros Hop. unfold modulate, _modulate, dict_pop. now rewrite Hop.
  - intros Hv. unfold modulate, _modulate, dict_pop.
    destruct (dict_get d "op") as [op|]; [|reflexivity]. cbn [bind].
    rewrite dict_get_del_ne by discriminate. now rewrite Hv.
Qed.

Lemma py_in_strs_op op :
  py_in_strs op ["mult"; "add"] = true ->
  exists s, op = PStr s /\ (s = "mult" \/ s = "add").
Proof.
  unfold py_in_strs. simpl. destruct op; simpl; try discriminate.
  intros H. exists s. split; [reflexivity|].
  destruct (String.eqb_spec s "mult"); [now left|].
  destruct (String.eqb_spec s "add"); [now right | discriminate].
Qed.

Lemma modulate_Raise original m e :
  _modulate original m = Raise e -> modulate original m = Raise e.
Proof. unfold modulate. now intros ->. Qed.

Lemma modulate_Ok_inv original m r :
  modulate original m = Ok r ->
  _modulate original m = Ok r /\ same_shape original r = true.
Proof.
  unfold modulate, same_shape. intros H. apply bind_Ok in H as (out & Hout & H).
  destruct (Bool.eqb (is_numeric original) (is_numeric out)) eqn:E1; [|discriminate].
  destruct (Bool.eqb (is_numeric_sequence original) (is_numeric_sequence out)) eqn:E2;
    [|discriminate].
  simpl in H. injection H as <-. rewrite E1, E2. now split.
Qed.

(** The checks of [_modulate] on a directive, in the order they are made. *)
Lemma _modulate_checks original d op value :
  dict_get d "op" = Some op -> dict_get d "value" = Some value ->
  _modulate original (PDict d) =
    if negb (py_in_strs op ["mult"; "add"]) then Raise (ValueError (UnknownOperator op))
    else if match original with PNone => true | _ => false end then
      Raise (ValueError CannotModulateNone)
    else if negb (is_numeric original || is_numeric_sequence original) then
      Raise (ValueError OriginalNotNumeric)
    else if negb (is_numeric value || is_numeric_sequence value) then
      Raise (ValueError ValueNotNumeric)
    else if is_numeric original && is_numeric value then
      match_op op (py_mul original value) (py_add original value)
    else if is_numeric original && is_numeric_sequence value then
      Raise (ValueError FloatByTuple)
    else if is_numeric_sequence original && is_numeric value then
      match_op op
        (r <- mapM (fun o => py_mul o value) (items_of original) ;; Ok (PTuple r))
        (r <- mapM (fun o => py_add o value) (items_of original) ;; Ok (PTuple r))
    else if is_numeric_sequence original && is_numeric_sequence value then
      if negb (length (items_of original) =? length (items_of value))%nat then
        Raise (ValueError LengthMismatch)
      else
        match_op op
          (r <- zipM py_mul (items_of original) (items_of value) ;; Ok (PTuple r))
          (r <- zipM py_add (items_of original) (items_of value) ;; Ok (PTuple r))
    else Raise AssertionError.
Proof.
  intros Hop Hv. unfold _modulate, dict_pop. rewrite Hop. cbn [bind].
  rewrite dict_get_del_ne by discriminate. rewrite Hv. cbn [bind].
  reflexivity.
Qed.

(** X3: the errors of a directive that has [op] and [value], in the order the
    code checks them: an operator other than [mult] and [add] is reported
    whatever the original is; then an original that is [None]; then an
    original that is neither a number nor a sequence of numbers; then a
    value that is neither; and a number is not modulated by a sequence. *)
Theorem modulate_directive_errors (original : pyval) (d : pydict) (op value : pyval) :
  dict_get d "op" = Some op ->
  dict_get d "value" = Some value ->
  (py_in_strs op ["mult"; "add"] = false ->
     modulate original (PDict d) = Raise (ValueError (UnknownOperator op)))
  /\ (py_in_strs op ["mult"; "add"] = true ->
      (original = PNone ->
         modulate original (PDict d) = Raise (ValueError CannotModulateNone))
      /\ (original <> PNone ->
          is_numeric original || is_numeric_sequence original = false ->
          modulate original (PDict d) = Raise (ValueError OriginalNotNumeric))
      /\ (is_numeric original || is_numeric_sequence original = true ->
          is_numeric value || is_numeric_sequence value = false ->
          modulate original (PDict d) = Raise (ValueError ValueNotNumeric))
      /\ (is_numeric original = true -> is_numeric_sequence value = true ->
          modulate original (PDict d) = Raise (ValueError FloatByTuple))).
Proof.
  intros Hop Hv.
  pose proof (_modulate_checks original d op value Hop Hv) as E.
  split.
  - intros Hin. apply modulate_Raise. now rewrite E, Hin.
  - intros Hin. rewrite Hin in E. cbn [negb] in E. split; [|split; [|split]].
    + intros ->. apply modulate_Raise. now rewrite E.
    + intros Hn Ho. apply modulate_Raise. rewrite E, Ho.
      destruct original; try reflexivity. congruence.
    + intros Ho Hval. apply modulate_Raise. rewrite E, Ho, Hval.
      destruct original; try reflexivity. discriminate.
    + intros Ho Hval. apply modulate_Raise.
      rewrite E, Ho, Hval, (is_numeric_sequence_not_numeric _ Hval).
      rewrite orb_true_r. destruct original; try reflexivity; discriminate.
Qed.

Lemma modulate_directive_errors_witness :
  modulate (PFloat 2) (PDict [("op", PStr "pow"); ("value", PFloat 2)])
    = Raise (ValueError (UnknownOperator (PStr "pow")))
  /\ modulate PNone (PDict [("op", PStr "add"); ("value", PFloat 2)])
     = Raise (ValueError CannotModulateNone).
Proof.
  split.
  - exact (proj1 (modulate_directive_errors (PFloat 2)
                    [("op", PStr "pow"); ("value", PFloat 2)] _ _ eq_refl eq_refl) eq_refl).
  - exact (proj1 (proj2 (modulate_directive_errors PNone
                    [("op", PStr "add"); ("value", PFloat 2)] _ _ eq_refl eq_refl) eq_refl)
             eq_refl).
Defined.

(** X4: when [modulate] returns on a directive, the directive has the operator
    [mult] or [add] and a [value], the result has the shape of the original,
    and either original and value are both numbers, or the original is a
    sequence of numbers and the value is a number or a sequence of numbers
    of the same length. *)
Theorem modulate_directive_Ok (original : pyval) (d : pydict) (r : pyval) :
  modulate original (PDict d) = Ok r ->
  exists op value,
    dict_get d "op" = Some (PStr op) /\ (op = "mult" \/ op = "add")
    /\ dict_get d "value" = Some value
    /\ same_shape original r = true
    /\ ((is_numeric original = true /\ is_numeric value = true)
        \/ (is_numeric_sequence original = true
            /\ (is_numeric value = true
                \/ (is_numeric_sequence value = true
                    /\ length (items_of value) = length (items_of original))))).
Proof.
  intros H. apply modulate_Ok_inv in H as [H Hshape].
  destruct (dict_get d "op") as [op|] eqn:Hop;
    [|unfold _modulate, dict_pop in H; rewrite Hop in H; discriminate].
  destruct (dict_get d "value") as [value|] eqn:Hv.
  2:{ unfold _modulate, dict_pop in H. rewrite Hop in H. cbn [bind] in H.
      rewrite dict_get_del_ne, Hv in H by discriminate. discriminate. }
  rewrite (_modulate_checks original d op value Hop Hv) in H.
  destruct (py_in_strs op ["mult"; "add"]) eqn:Hin; [|discriminate].
  destruct (py_in_strs_op op Hin) as (s & -> & Hs). cbn [negb] in H.
  exists s, value. split; [reflexivity|]. split; [exact Hs|]. split; [reflexivity|].
  split; [exact Hshape|].
  destruct (is_numeric original || is_numeric_sequence original) eqn:Ho.
  2:{ cbn [negb] in H. destruct original; discriminate. }
  cbn [negb] in H.
  assert (Hnn : match original with PNone => true | _ => false end = false)
    by (destruct original; try reflexivity; discriminate).
  rewrite Hnn in H.
  destruct (is_numeric value || is_numeric_sequence value) eqn:Hval; [|discriminate].
  cbn [negb] in H.
  apply orb_true_iff in Ho as [Ho|Ho]; apply orb_true_iff in Hval as [Hval|Hval].
  - left. now split.
  - rewrite Ho, Hval, (is_numeric_sequence_not_numeric _ Hval) in H. discriminate.
  - right. split; [exact Ho|]. now left.
  - right. split; [exact Ho|]. right. split; [exact Hval|].
    rewrite (is_numeric_sequence_not_numeric _ Ho), Ho, Hval in H.
    rewrite (is_numeric_sequence_not_numeric _ Hval) in H. cbn [andb] in H.
    destruct (length (items_of original) =? length (items_of value))%nat eqn:E;
      [|discriminate].
    apply Nat.eqb_eq in E. congruence.
Qed.

Lemma modulate_directive_Ok_witness :
  exists op value,
    dict_get [("op", PStr "mult"); ("value", PFloat 1.5); ("note", PStr "x")] "op"
      = Some (PStr op)
    /\ (op = "mult" \/ op = "add")
    /\ dict_get [("op", PStr "mult"); ("value", PFloat 1.5); ("note", PStr "x")] "value"
       = Some value
    /\ same_shape (PFloat 2) (PFloat 3) = true
    /\ ((is_numeric (PFloat 2) = true /\ is_numeric value = true)
        \/ (is_numeric_sequence (PFloat 2) = true
            /\ (is_numeric value = true
                \/ (is_numeric_sequence value = true
                    /\ length (items_of value) = length (items_of (PFloat 2)))))).
Proof.
  exact (modulate_directive_Ok (PFloat 2)
           [("op", PStr "mult"); ("value", PFloat 1.5); ("note", PStr "x")]
           (PFloat 3) eq_refl).
Defined.

(* ===================================================================== *)
(** * Override merge: keys and repetition                                 *)
(* ===================================================================== *)

Lemma depth_get d k v : dict_get d k = Some v -> (depth v < depth (PDict d))%nat.
Proof.
  cbn [depth]. induction d as [|[k0 v0] d IH]; simpl; [discriminate|].
  destruct (decide (k0 = k)); [intros [= ->]; lia | intros H; specialize (IH H); lia].
Qed.

Lemma well_formed_intro d :
  NoDup (dict_keys d) ->
  (forall k v, dict_get d k = Some v -> well_formed v = true) ->
  well_formed (PDict d) = true.
Proof.
  intros Hnd Hall. cbn [well_formed]. apply andb_true_iff. split.
  - now apply bool_decide_eq_true.
  - unfold dict_keys in Hnd.
    induction d as [|[k0 v0] d IH]; [reflexivity|].
    simpl in Hnd. apply NoDup_cons in Hnd as [Hk0 Hnd].
    apply andb_true_iff. split.
    + apply (Hall k0). simpl. now rewrite decide_True.
    + apply IH; [exact Hnd|]. intros k v Hg. apply (Hall k). simpl.
      destruct (decide (k0 = k)) as [->|]; [|exact Hg].
      exfalso. apply Hk0. apply list_elem_of_In.
      apply dict_get_Some_In in Hg. now apply (in_map fst) in Hg.
Qed.

Lemma merge_entry_keys A k v :
  dict_keys (merge_entry A k v)
  = (dict_keys A ++ (if dict_mem k A then [] else [k]))%list.
Proof.
  unfold dict_mem.
  assert (E : forall w, dict_keys (dict_set A k w)
                        = (dict_keys A ++ (if dict_mem k A then [] else [k]))%list).
  { intros w. unfold dict_mem. destruct (dict_get A k) eqn:Eg.
    - rewrite dict_keys_set_present by congruence. now rewrite app_nil_r.
    - now apply dict_keys_set_fresh. }
  unfold dict_mem in E. unfold merge_entry.
  destruct (dict_get A k) as [[]|] eqn:Eg; try apply E.
  destruct v; apply E.
Qed.

Lemma merge_entry_mem A k v k' :
  dict_mem k' (merge_entry A k v) = dict_mem k' A || bool_decide (k = k').
Proof.
  unfold dict_mem. destruct (decide (k = k')) as [<-|Hne].
  - rewrite merge_entry_get_eq, bool_decide_eq_true_2 by reflexivity.
    now rewrite orb_true_r.
  - rewrite merge_entry_get_ne, bool_decide_eq_false_2 by assumption.
    now rewrite orb_false_r.
Qed.

(** The keys of the merge: those of the base, in their order, then the
    new keys of the overlay, in theirs. *)
Lemma recursive_overwrite_keys B : forall A,
  NoDup (dict_keys B) ->
  dict_keys (recursive_overwrite A B)
  = (dict_keys A ++ List.filter (fun k => negb (dict_mem k A)) (dict_keys B))%list.
Proof.
  induction B as [|[k v] B IH]; intros A Hnd.
  - rewrite recursive_overwrite_nil. simpl. now rewrite app_nil_r.
  - unfold dict_keys in Hnd. simpl in Hnd. apply NoDup_cons in Hnd as [Hk Hnd].
    rewrite recursive_overwrite_cons, IH by exact Hnd.
    rewrite merge_entry_keys, <- app_assoc. f_equal.
    cbn [dict_keys map fst List.filter].
    assert (E : List.filter (fun k0 => negb (dict_mem k0 (merge_entry A k v))) (dict_keys B)
                = List.filter (fun k0 => negb (dict_mem k0 A)) (dict_keys B)).
    { apply filter_ext_in. intros k' Hin. rewrite merge_entry_mem.
      rewrite bool_decide_eq_false_2; [now rewrite orb_false_r|].
      intros <-. apply Hk. now apply list_elem_of_In. }
    rewrite E. destruct (dict_mem k A); reflexivity.
Qed.

Lemma recursive_overwrite_NoDup B : forall A,
  NoDup (dict_keys A) -> NoDup (dict_keys (recursive_overwrite A B)).
Proof.
  induction B as [|[k v] B IH]; intros A Hnd; [exact Hnd|].
  rewrite recursive_overwrite_cons. apply IH. unfold merge_entry.
  destruct (dict_get A k) as [[]|]; try (now apply dict_set_NoDup).
  destruct v; now apply dict_set_NoDup.
Qed.

Lemma recursive_overwrite_get A B k :
  NoDup (dict_keys B) ->
  dict_get (recursive_overwrite A B) k
  = match dict_get B k with
    | Some v => Some (merged_value (dict_get A k) v)
    | None => dict_get A k
    end.
Proof.
  intros Hnd. destruct (dict_get B k) as [v|] eqn:E.
  - now apply recursive_overwrite_overlay.
  - now apply recursive_overwrite_base_only.
Qed.

Lemma recursive_overwrite_well_formed_depth n : forall A B,
  (depth (PDict B) <= n)%nat ->
  well_formed (PDict A) = true -> well_formed (PDict B) = true ->
  well_formed (PDict (recursive_overwrite A B)) = true.
Proof.
  induction n as [|n IH]; intros A B Hd HA HB; [cbn [depth] in Hd; lia|].
  destruct (well_formed_dict _ HA) as [NA VA].
  destruct (well_formed_dict _ HB) as [NB VB].
  apply well_formed_intro; [now apply recursive_overwrite_NoDup|].
  intros k v. rewrite recursive_overwrite_get by exact NB.
  destruct (dict_get B k) as [b|] eqn:Eb; [|apply VA].
  intros [= <-]. unfold merged_value.
  destruct (dict_get A k) as [a|] eqn:Ea; [|now apply (VB k)].
  destruct a as [| | | | | | |a']; try (now apply (VB k)).
  destruct b as [| | | | | | |b']; try (now apply (VB k)).
  apply IH; [|now apply (VA k) | now apply (VB k)].
  pose proof (depth_get _ _ _ Eb). lia.
Qed.

Lemma dict_ext {V} (d d' : list (string * V)) :
  NoDup (dict_keys d) ->
  dict_keys d = dict_keys d' ->
  (forall k, dict_get d k = dict_get d' k) ->
  d = d'.
Proof.
  unfold dict_keys. revert d'.
  induction d as [|[k0 v0] d IH]; intros [|[k1 v1] d'] Hnd Hk Hg; try discriminate;
    [reflexivity|].
  simpl in Hnd, Hk. apply NoDup_cons in Hnd as [Hk0 Hnd]. injection Hk as <- Hk.
  pose proof (Hg k0) as H0. simpl in H0. rewrite !decide_True in H0 by reflexivity.
  injection H0 as <-. f_equal. apply IH; [exact Hnd | exact Hk|].
  intros k. specialize (Hg k). simpl in Hg.
  destruct (decide (k0 = k)) as [<-|Hne]; [|exact Hg].
  assert (N : forall l : list (string * V), k0 ∉ map fst l -> dict_get l k0 = None).
  { intros l Hl. apply dict_get_None_keys. unfold dict_keys.
    now rewrite <- list_elem_of_In. }
  rewrite (N d Hk0). symmetry. apply N. now rewrite <- Hk.
Qed.

Lemma filter_absent_nil (A : pydict) (ks : list string) :
  (forall k, In k ks -> dict_mem k A = true) ->
  List.filter (fun k => negb (dict_mem k A)) ks = [].
Proof.
  induction ks as [|k ks IH]; intros H; [reflexivity|]. simpl.
  rewrite (H k) by now left. simpl. apply IH. intros; apply H; now right.
Qed.

Lemma merged_value_literal old v : is_mapping v = false -> merged_value old v = v.
Proof. unfold merged_value. destruct old as [[]|], v; try reflexivity; discriminate. Qed.

Lemma recursive_overwrite_self_depth n : forall B,
  (depth (PDict B) <= n)%nat -> well_formed (PDict B) = true ->
  recursive_overwrite B B = B.
Proof.
  induction n as [|n IH]; intros B Hd HB; [cbn [depth] in Hd; lia|].
  destruct (well_formed_dict _ HB) as [NB VB].
  apply dict_ext.
  - now apply recursive_overwrite_NoDup.
  - rewrite recursive_overwrite_keys by exact NB.
    rewrite filter_absent_nil; [apply app_nil_r|].
    intros k Hk. now apply dict_mem_keys.
  - intros k. rewrite recursive_overwrite_get by exact NB.
    destruct (dict_get B k) as [v|] eqn:E; [|reflexivity].
    f_equal. unfold merged_value. destruct v; try reflexivity.
    f_equal. apply IH; [|now apply (VB k)].
    pose proof (depth_get _ _ _ E). lia.
Qed.

Lemma recursive_overwrite_idempotent_depth n : forall A B,
  (depth (PDict B) <= n)%nat ->
  well_formed (PDict A) = true -> well_formed (PDict B) = true ->
  recursive_overwrite (recursive_overwrite A B) B = recursive_overwrite A B.
Proof.
  induction n as [|n IH]; intros A B Hd HA HB; [cbn [depth] in Hd; lia|].
  destruct (well_formed_dict _ HA) as [NA VA].
  destruct (well_formed_dict _ HB) as [NB VB].
  apply dict_ext.
  - now apply recursive_overwrite_NoDup, recursive_overwrite_NoDup.
  - rewrite (recursive_overwrite_keys B (recursive_overwrite A B)) by exact NB.
    rewrite filter_absent_nil; [apply app_nil_r|].
    intros k Hk. apply dict_mem_keys in Hk. unfold dict_mem in *.
    rewrite recursive_overwrite_get by exact NB.
    destruct (dict_get B k); [reflexivity | discriminate].
  - intros k. rewrite !(recursive_overwrite_get _ B) by exact NB.
    destruct (dict_get B k) as [v|] eqn:E; [|reflexivity].
    f_equal. pose proof (depth_get _ _ _ E) as Hlt.
    destruct v as [| | | | | | |b];
      try (rewrite !merged_value_literal by reflexivity; reflexivity).
    unfold merged_value.
    destruct (dict_get A k) as [[| | | | | | |a]|] eqn:Ea;
      try (f_equal; apply (recursive_overwrite_self_depth n);
           [lia | now apply (VB k)]).
    f_equal. apply IH; [lia | now apply (VA k) | now apply (VB k)].
Qed.

(** X5: merging two records in which no dict has a key twice gives such a
    record again.  Its keys are those of the base, in their order, followed
    by the keys only the overlay has, in the overlay's order. *)
Theorem recursive_overwrite_well_formed (A B : pydict) :
  well_formed (PDict A) = true ->
  well_formed (PDict B) = true ->
  well_formed (PDict (recursive_overwrite A B)) = true
  /\ dict_keys (recursive_overwrite A B)
     = (dict_keys A ++ List.filter (fun k => negb (dict_mem k A)) (dict_keys B))%list.
Proof.
  intros HA HB. split.
  - now apply (recursive_overwrite_well_formed_depth (depth (PDict B))).
  - apply recursive_overwrite_keys. now apply well_formed_dict.
Qed.

Lemma recursive_overwrite_well_formed_witness :
  well_formed (PDict (recursive_overwrite
                        [("normal", PDict [("uri", PStr "n.png")]); ("double_sided", PBool true)]
                        [("resolution", PList [PInt 256]);
                         ("normal", PDict [("scale", PFloat 2)])])) = true
  /\ dict_keys (recursive_overwrite
                  [("normal", PDict [("uri", PStr "n.png")]); ("double_sided", PBool true)]
                  [("resolution", PList [PInt 256]);
                   ("normal", PDict [("scale", PFloat 2)])])
     = ["normal"; "double_sided"; "resolution"].
Proof.
  exact (recursive_overwrite_well_formed
           [("normal", PDict [("uri", PStr "n.png")]); ("double_sided", PBool true)]
           [("resolution", PList [PInt 256]); ("normal", PDict [("scale", PFloat 2)])]
           eq_refl eq_refl).
Defined.

(** X6: merging the same overlay a second time changes nothing; a record merged
    into itself is unchanged, and a record merged into the empty record
    gives the record. *)
Theorem recursive_overwrite_idempotent (A B : pydict) :
  well_formed (PDict A) = true ->
  well_formed (PDict B) = true ->
  recursive_overwrite (recursive_overwrite A B) B = recursive_overwrite A B
  /\ recursive_overwrite B B = B
  /\ recursive_overwrite [] B = B.
Proof.
  intros HA HB. split; [|split].
  - now apply (recursive_overwrite_idempotent_depth (depth (PDict B))).
  - now apply (recursive_overwrite_self_depth (depth (PDict B))).
  - destruct (well_formed_dict _ HB) as [NB VB]. apply dict_ext.
    + apply recursive_overwrite_NoDup. constructor.
    + rewrite recursive_overwrite_keys by exact NB. simpl.
      generalize (dict_keys B). intros ks.
      induction ks as [|k ks IH]; [reflexivity|]. simpl. now f_equal.
    + intros k. rewrite recursive_overwrite_get by exact NB.
      destruct (dict_get B k) as [v|]; reflexivity.
Qed.

Lemma recursive_overwrite_idempotent_witness :
  let A := [("normal", PDict [("uri", PStr "n.png")]); ("double_sided", PBool true)] in
  let B := [("resolution", PList [PInt 256]); ("normal", PDict [("scale", PFloat 2)])] in
  recursive_overwrite (recursive_overwrite A B) B = recursive_overwrite A B
  /\ recursive_overwrite B B = B
  /\ recursive_overwrite [] B = B.
Proof.
  exact (recursive_overwrite_idempotent
           [("normal", PDict [("uri", PStr "n.png")]); ("double_sided", PBool true)]
           [("resolution", PList [PInt 256]); ("normal", PDict [("scale", PFloat 2)])]
           eq_refl eq_refl).
Defined.

(* ===================================================================== *)
(** * The keys container and the texture tables                           *)
(* ===================================================================== *)

Lemma add_material_slot (s : slot_kind) k2l mat_name spec_mat k2l' :
  add_material k2l (mat_name, spec_mat) = Ok k2l' ->
  exists ok, slot_key s spec_mat = Ok ok
    /\ at_slot s k2l' = match ok with
                        | Some key => key2list_append (at_slot s k2l) key mat_name
                        | None => at_slot s k2l
                        end.
Proof.
  unfold add_material. intros H.
  apply bind_Ok in H as (key & Hk & H). apply bind_Ok in H as (em & He & [= <-]).
  destruct s; simpl.
  - rewrite Hk. simpl. eauto.
  - eauto.
  - eauto.
  - rewrite He. eauto.
Qed.

(** The [key2list] of a slot kind lists, under each key, exactly the
    materials that have this key for the slot. *)
Lemma key2list_slot_spec (s : slot_kind) db k2l :
  foldM add_material db
    {| on_diffuse := []; on_normal := []; on_orm := []; on_emissive := [] |} = Ok k2l ->
  NoDup (dict_keys (at_slot s k2l))
  /\ (forall mat_name m, In (mat_name, m) db -> is_ok (slot_key s m) = true)
  /\ forall key mat_name,
       (exists vs, dict_get (at_slot s k2l) key = Some vs /\ In mat_name vs)
       <-> (exists m, In (mat_name, m) db /\ slot_key s m = Ok (Some key)).
Proof.
  intros H.
  apply (foldM_invariant add_material
           (fun done st =>
              NoDup (dict_keys (at_slot s st))
              /\ (forall mat_name m, In (mat_name, m) done -> is_ok (slot_key s m) = true)
              /\ forall key mat_name,
                   (exists vs, dict_get (at_slot s st) key = Some vs /\ In mat_name vs)
                   <-> (exists m, In (mat_name, m) done /\ slot_key s m = Ok (Some key)))
           db {| on_diffuse := []; on_normal := []; on_orm := []; on_emissive := [] |}
           k2l); [| |exact H].
  - split; [destruct s; constructor|]. split; [intros ? ? []|]. intros key mat_name.
    split; [intros (vs & Hg & _); destruct s; discriminate | intros (m & [] & _)].
  - intros done [name0 m0] s1 s2 (Hnd & Hkeys & Hspec) Hadd.
    apply (add_material_slot s) in Hadd as (ok0 & Hk0 & ->).
    assert (Hdone : forall mat_name m, In (mat_name, m) (done ++ [(name0, m0)])%list ->
                      is_ok (slot_key s m) = true).
    { intros mat_name m Hin. apply in_app_or in Hin as [Hin|[Heq|[]]]; [eauto|].
      injection Heq as <- <-. now rewrite Hk0. }
    destruct ok0 as [key0|].
    2:{ split; [exact Hnd|]. split; [exact Hdone|].
        intros key mat_name. rewrite Hspec. split.
        - intros (m & Hin & Hk). exists m. split; [apply in_or_app; now left | exact Hk].
        - intros (m & Hin & Hk). exists m. split; [|exact Hk].
          apply in_app_or in Hin as [Hin|[Heq|[]]]; [exact Hin|].
          injection Heq as <- <-. congruence. }
    split; [now apply key2list_append_NoDup|].
    split; [exact Hdone|].
    intros key mat_name. rewrite key2list_append_get.
    destruct (decide (key0 = key)) as [<-|Hne].
    + split.
      * intros (vs & [= <-] & Hin). apply in_app_or in Hin as [Hin|[<-|[]]].
        -- destruct (dict_get (at_slot s s1) key0) as [vs0|] eqn:E; [|destruct Hin].
           destruct (proj1 (Hspec key0 mat_name)) as (m & Hm & Hk); [eauto|].
           exists m. split; [apply in_or_app; now left | exact Hk].
        -- exists m0. split; [apply in_or_app; right; now left | exact Hk0].
      * intros (m & Hin & Hk). eexists. split; [reflexivity|].
        apply in_app_or in Hin as [Hin|[Heq|[]]].
        -- destruct (proj2 (Hspec key0 mat_name)) as (vs & Hg & Hv); [eauto|].
           rewrite Hg. simpl. apply in_or_app. now left.
        -- injection Heq as <- <-. apply in_or_app. right. now left.
    + rewrite Hspec. split.
      * intros (m & Hin & Hk). exists m. split; [apply in_or_app; now left | exact Hk].
      * intros (m & Hin & Hk). exists m. split; [|exact Hk].
        apply in_app_or in Hin as [Hin|[Heq|[]]]; [exact Hin|].
        injection Heq as <- <-. congruence.
Qed.

Lemma keys_container_fold db kc :
  DXSpec_TextureKeysContainer_init db = Ok kc ->
  foldM add_material db
    {| on_diffuse := []; on_normal := []; on_orm := []; on_emissive := [] |}
  = Ok (key2list kc)
  /\ forall s, at_slot s (keys_str2key kc) = invert_key2list (at_slot s (key2list kc)).
Proof.
  unfold DXSpec_TextureKeysContainer_init. intros H.
  apply bind_Ok in H as (k2l & Hfold & [= <-]). split; [exact Hfold|].
  intros []; reflexivity.
Qed.

Lemma invert_key2list_get (d : list (DXSpec_TextureKey * list string)) name key :
  NoDup (dict_keys d) ->
  (forall k k' vs vs', dict_get d k = Some vs -> dict_get d k' = Some vs' ->
                       In name vs -> In name vs' -> k = k') ->
  (dict_get (invert_key2list d) name = Some key
   <-> exists vs, dict_get d key = Some vs /\ In name vs).
Proof.
  intros Hnd Huniq. unfold invert_key2list. split.
  - intros H. apply invert_outer_sound in H as [H|(vs & Hin & Hn)]; [discriminate|].
    exists vs. split; [now apply dict_get_In_NoDup | exact Hn].
  - intros (vs & Hg & Hn).
    destruct (invert_outer_complete d [] name) as [key' Hkey'].
    { right. exists key, vs. split; [now apply dict_get_Some_In | exact Hn]. }
    rewrite Hkey'. f_equal.
    apply invert_outer_sound in Hkey' as [Hkey'|(vs' & Hin' & Hn')]; [discriminate|].
    apply (Huniq key' key vs' vs); auto. now apply dict_get_In_NoDup.
Qed.

(** The two dicts of a slot kind in the keys container, against the
    database. *)
Lemma keys_container_slot (db : list (string * DXSpec_Material))
    (kc : DXSpec_TextureKeysContainer) (s : slot_kind) :
  NoDup (dict_keys db) ->
  DXSpec_TextureKeysContainer_init db = Ok kc ->
  (forall name key,
     dict_get (at_slot s (keys_str2key kc)) name = Some key
     <-> exists vs, dict_get (at_slot s (key2list kc)) key = Some vs /\ In name vs)
  /\ (forall key name,
        (exists vs, dict_get (at_slot s (key2list kc)) key = Some vs /\ In name vs)
        <-> (exists m, In (name, m) db /\ slot_key s m = Ok (Some key)))
  /\ (forall name m, In (name, m) db -> is_ok (slot_key s m) = true).
Proof.
  intros Hnd Hkc. destruct (keys_container_fold db kc Hkc) as [Hfold Hinv].
  destruct (key2list_slot_spec s db (key2list kc) Hfold) as (Hnd2 & Hok & Hspec).
  split; [|split; [exact Hspec | exact Hok]].
  intros name key. rewrite Hinv. apply invert_key2list_get; [exact Hnd2|].
  intros k k' vs vs' Hk Hk' Hn Hn'.
  destruct (proj1 (Hspec k name)) as (m & Hm & Hmk); [eauto|].
  destruct (proj1 (Hspec k' name)) as (m' & Hm' & Hmk'); [eauto|].
  apply (dict_get_In_NoDup _ _ _ Hnd) in Hm, Hm'. congruence.
Qed.

Lemma keys_container_lookup db kc s name m key :
  NoDup (dict_keys db) ->
  DXSpec_TextureKeysContainer_init db = Ok kc ->
  dict_get db name = Some m ->
  slot_key s m = Ok (Some key) ->
  dict_get (at_slot s (keys_str2key kc)) name = Some key
  /\ In key (dict_keys (at_slot s (key2list kc))).
Proof.
  intros Hnd Hkc Hm Hk.
  destruct (keys_container_slot db kc s Hnd Hkc) as (Hget & Hspec & _).
  destruct (proj2 (Hspec key name)) as (vs & Hg & Hin).
  { exists m. split; [now apply dict_get_Some_In | exact Hk]. }
  split; [apply Hget; eauto|].
  apply dict_mem_keys. unfold dict_mem. now rewrite Hg.
Qed.

(** X7: for each slot kind, [DXSpec_TextureKeysContainer] maps a material name
    to a key exactly when the database has a material of that name whose
    key for the slot it is; a name maps to a key exactly when the key lists
    the name; and the key of every material was computed without an
    exception. *)
Theorem keys_container_round_trip (db : list (string * DXSpec_Material))
    (kc : DXSpec_TextureKeysContainer) (s : slot_kind) :
  NoDup (dict_keys db) ->
  DXSpec_TextureKeysContainer_init db = Ok kc ->
  (forall name key,
     dict_get (at_slot s (keys_str2key kc)) name = Some key
     <-> exists m, dict_get db name = Some m /\ slot_key s m = Ok (Some key))
  /\ (forall name key,
        dict_get (at_slot s (keys_str2key kc)) name = Some key
        <-> exists vs, dict_get (at_slot s (key2list kc)) key = Some vs /\ In name vs)
  /\ (forall name m, dict_get db name = Some m -> is_ok (slot_key s m) = true).
Proof.
  intros Hnd Hkc.
  destruct (keys_container_slot db kc s Hnd Hkc) as (Hget & Hspec & Hok).
  split; [|split; [exact Hget|]].
  - intros name key. rewrite Hget, Hspec. split.
    + intros (m & Hin & Hk). exists m. split; [now apply dict_get_In_NoDup | exact Hk].
    + intros (m & Hg & Hk). exists m. split; [now apply dict_get_Some_In | exact Hk].
  - intros name m Hg. apply (Hok name). now apply dict_get_Some_In.
Qed.

Lemma keys_container_round_trip_witness :
  exists kc,
    DXSpec_TextureKeysContainer_init Fixtures.db_shared = Ok kc
    /\ (forall name key,
          dict_get (at_slot Diffuse (keys_str2key kc)) name = Some key
          <-> exists m, dict_get Fixtures.db_shared name = Some m
                        /\ slot_key Diffuse m = Ok (Some key)).
Proof.
  eexists. split; [reflexivity|].
  refine (proj1 (keys_container_round_trip Fixtures.db_shared _ Diffuse _ eq_refl)).
  apply NoDup_two_names. discriminate.
Defined.

(** ** The material-to-texture table *)

Lemma texture_tables_Ok db t :
  Main.texture_tables db = Ok t ->
  exists kc c,
    DXSpec_TextureKeysContainer_init db = Ok kc
    /\ DXSpec_TextureSpecContainer_init kc = Ok c
    /\ forall s, compose_names (at_slot s (key2str c)) (at_slot s (keys_str2key kc))
                 = Ok (at_slot s t).
Proof.
  unfold Main.texture_tables. intros H.
  apply bind_Ok in H as (kc & Hkc & H). apply bind_Ok in H as (c & Hc & H).
  exists kc, c. split; [exact Hkc|]. split; [exact Hc|].
  unfold DXSpec_Mat2TextureContainer_init in H.
  apply bind_Ok in H as (d & Hd & H). apply bind_Ok in H as (n & Hn & H).
  apply bind_Ok in H as (o & Ho & H). apply bind_Ok in H as (e & He & [= <-]).
  intros []; assumption.
Qed.

(** In a run that completes, the table gives each material, for each slot
    kind, the name its key folds to. *)
Lemma texture_tables_slot db t s name m key :
  NoDup (dict_keys db) ->
  Main.texture_tables db = Ok t ->
  dict_get db name = Some m ->
  slot_key s m = Ok (Some key) ->
  exists n, dict_get (at_slot s t) name = Some n
            /\ name_fold key (default_name s) = Ok n.
Proof.
  intros Hnd Ht Hm Hk.
  destruct (texture_tables_Ok db t Ht) as (kc & c & Hkc & Hc & Hcomp).
  destruct (keys_container_lookup db kc s name m key Hnd Hkc Hm Hk) as [Hstr _].
  destruct (compose_names_get _ _ _ _ _ (Hcomp s) Hstr) as (n & Hn & Hn').
  exists n. split; [exact Hn'|].
  now apply (texture_spec_container_names kc c s Hc).
Qed.

Lemma compose_names_keys tex_outs tex_keys t :
  compose_names tex_outs tex_keys = Ok t -> dict_keys t = dict_keys tex_keys.
Proof.
  unfold compose_names, dict_keys. revert t.
  induction tex_keys as [|[name0 k0] tex_keys IH]; intros t; simpl.
  - now intros [= <-].
  - intros H. apply bind_Ok in H as ([name1 n1] & H1 & H).
    apply bind_Ok in H as (t' & Ht' & [= <-]).
    destruct (dict_get tex_outs k0); [|discriminate].
    injection H1 as <- <-. simpl. f_equal. now apply IH.
Qed.

(** X8: in a run that completes, the table of a slot kind gives every material
    that has a key for the slot the file name its key folds to; every entry
    of the table comes from such a material; and two materials get the same
    file name exactly when they have the same key. *)
Theorem texture_tables_names (db : list (string * DXSpec_Material))
    (t : PerSlot (list (string * string))) (s : slot_kind) :
  NoDup (dict_keys db) ->
  Main.texture_tables db = Ok t ->
  (forall name m key,
     dict_get db name = Some m -> slot_key s m = Ok (Some key) ->
     exists n, dict_get (at_slot s t) name = Some n
               /\ name_fold key (default_name s) = Ok n)
  /\ (forall name n,
        dict_get (at_slot s t) name = Some n ->
        exists m key, dict_get db name = Some m /\ slot_key s m = Ok (Some key)
                      /\ name_fold key (default_name s) = Ok n)
  /\ (forall name1 name2 m1 m2 key1 key2 n1 n2,
        dict_get db name1 = Some m1 -> slot_key s m1 = Ok (Some key1) ->
        dict_get db name2 = Some m2 -> slot_key s m2 = Ok (Some key2) ->
        dict_get (at_slot s t) name1 = Some n1 ->
        dict_get (at_slot s t) name2 = Some n2 ->
        (n1 = n2 <-> key1 = key2)).
Proof.
  intros Hnd Ht.
  destruct (texture_tables_Ok db t Ht) as (kc & c & Hkc & Hc & Hcomp).
  destruct (keys_container_slot db kc s Hnd Hkc) as (Hget & Hspec & _).
  destruct (texture_spec_container_names kc c s Hc) as (Hinv & _ & Hfold).
  split; [|split].
  - intros name m key Hm Hk. now apply (texture_tables_slot db t s name m key).
  - intros name n Hn.
    assert (Hin : In name (dict_keys (at_slot s (keys_str2key kc)))).
    { rewrite <- (compose_names_keys _ _ _ (Hcomp s)).
      apply dict_mem_keys. unfold dict_mem. now rewrite Hn. }
    apply dict_mem_keys in Hin. unfold dict_mem in Hin.
    destruct (dict_get (at_slot s (keys_str2key kc)) name) as [key|] eqn:Hkey;
      [|discriminate].
    destruct (compose_names_get _ _ _ _ _ (Hcomp s) Hkey) as (n' & Hn' & Hn'').
    assert (n' = n) as -> by congruence.
    apply Hget in Hkey. apply Hspec in Hkey as (m & Hm & Hk).
    exists m, key. split; [now apply dict_get_In_NoDup|]. split; [exact Hk|].
    now apply Hfold.
  - intros name1 name2 m1 m2 key1 key2 n1 n2 Hm1 Hk1 Hm2 Hk2 Hn1 Hn2.
    destruct (keys_container_lookup db kc s name1 m1 key1 Hnd Hkc Hm1 Hk1) as [Hs1 _].
    destruct (keys_container_lookup db kc s name2 m2 key2 Hnd Hkc Hm2 Hk2) as [Hs2 _].
    destruct (compose_names_get _ _ _ _ _ (Hcomp s) Hs1) as (n1' & Ho1 & Hn1').
    destruct (compose_names_get _ _ _ _ _ (Hcomp s) Hs2) as (n2' & Ho2 & Hn2').
    assert (n1' = n1) as -> by congruence. assert (n2' = n2) as -> by congruence.
    split.
    + intros <-. exact (proj1 (mutually_inverse_injective _ _ Hinv) key1 key2 n1 Ho1 Ho2).
    + intros <-. congruence.
Qed.

Lemma texture_tables_names_witness :
  exists n,
    dict_get [("A", "wood.dds"); ("B", "wood.dds")] "B" = Some n
    /\ name_fold ([(Some (UPath "assets/wood.png"), "rgb1")], "BC1_UNORM_SRGB", [-1; -1])
         (default_name Diffuse) = Ok n.
Proof.
  refine (proj1 (texture_tables_names Fixtures.db_shared
                   {| on_diffuse := [("A", "wood.dds"); ("B", "wood.dds")];
                      on_normal := [("A", "$DEFAULT_NORMAL"); ("B", "$DEFAULT_NORMAL")];
                      on_orm := [("A", "$DEFAULT_ORM"); ("B", "$DEFAULT_ORM")];
                      on_emissive := [] |} Diffuse _ eq_refl)
            "B" (Fixtures.assemble (Fixtures.textured "B" "OPAQUE" 0) None) _
            eq_refl eq_refl).
  apply NoDup_two_names. discriminate.
Defined.

(** ** Keys that have no name *)

Lemma name_fold_Ok key default n :
  name_fold key default = Ok n ->
  (omap fst (fst (fst key)) = [] /\ n = default)
  \/ exists p, omap fst (fst (fst key)) <> []
       /\ (forall u, In u (omap fst (fst (fst key))) -> u = UPath p)
       /\ n = replace_backslash (path_stem p ++ ".dds").
Proof.
  unfold name_fold.
  destruct (omap fst (fst (fst key))) as [|p0 paths] eqn:E; [intros [= <-]; now left|].
  destruct (forallb (fun p => bool_decide (p = p0)) (p0 :: paths)) eqn:Hall;
    [|discriminate].
  destruct p0 as [p|s]; [|discriminate]. intros [= <-]. right. exists p.
  split; [discriminate|]. split; [|reflexivity].
  intros u Hu. rewrite forallb_forall in Hall. apply Hall in Hu.
  now apply bool_decide_eq_true in Hu.
Qed.

Lemma omap_fst_In (l : list (option pyuri * string)) u sw :
  In (Some u, sw) l -> In u (omap fst l).
Proof.
  intros H. apply list_elem_of_In. apply list_elem_of_omap.
  exists (Some u, sw). split; [now apply list_elem_of_In | reflexivity].
Qed.

(** A key with a [str] among its sources has no name: [name_fold] raises
    [CannotFold] or, reading [stem] off the [str], [AttributeError]. *)
Lemma name_fold_str key default u sw :
  In (Some (UStr u), sw) (fst (fst key)) -> is_ok (name_fold key default) = false.
Proof.
  intros Hin. destruct (name_fold key default) as [n|] eqn:E; [|reflexivity].
  apply omap_fst_In in Hin.
  apply name_fold_Ok in E as [[E _]|(p & _ & Hall & _)].
  - rewrite E in Hin. destruct Hin.
  - apply Hall in Hin. discriminate.
Qed.

Lemma name_fold_two key default u1 sw1 u2 sw2 :
  In (Some u1, sw1) (fst (fst key)) -> In (Some u2, sw2) (fst (fst key)) ->
  u1 <> u2 ->
  name_fold key default = Raise (ValueError (CannotFold key)).
Proof.
  intros H1 H2 Hne. apply omap_fst_In in H1, H2. unfold name_fold.
  destruct (omap fst (fst (fst key))) as [|p0 paths] eqn:E; [destruct H1|].
  destruct (forallb (fun p => bool_decide (p = p0)) (p0 :: paths)) eqn:Hall;
    [|reflexivity].
  rewrite forallb_forall in Hall.
  apply Hall in H1, H2. apply bool_decide_eq_true in H1, H2. congruence.
Qed.

(** A material of a database whose key for some slot has no name: the run
    produces no table. *)
Lemma texture_tables_unnamed db name m s key :
  NoDup (dict_keys db) ->
  dict_get db name = Some m ->
  slot_key s m = Ok (Some key) ->
  is_ok (name_fold key (default_name s)) = false ->
  is_ok (Main.texture_tables db) = false.
Proof.
  intros Hnd Hm Hk Hn.
  destruct (Main.texture_tables db) as [t|] eqn:Ht; [|reflexivity].
  destruct (texture_tables_slot db t s name m key Hnd Ht Hm Hk) as (n & _ & Hf).
  rewrite Hf in Hn. discriminate.
Qed.

Lemma texture_tables_keys_Ok db t name m s :
  Main.texture_tables db = Ok t -> dict_get db name = Some m ->
  is_ok (slot_key s m) = true.
Proof.
  intros Ht Hm. destruct (texture_tables_Ok db t Ht) as (kc & c & Hkc & _).
  destruct (keys_container_fold db kc Hkc) as [Hfold _].
  destruct (key2list_slot_spec s db (key2list kc) Hfold) as (_ & Hok & _).
  apply (Hok name). now apply dict_get_Some_In.
Qed.

(** ** The slots of an assembled material *)

Lemma DXSpec_Material_init_default obj src override :
  DXSpec_Material_init obj src override
  = DXSpec_Material_init obj src (Some (default [] override)).
Proof. destruct override; reflexivity. Qed.

(** Each slot of an assembled material is what the constructor of its
    class returns on the sub-record the override has for it. *)
Lemma material_parts obj src override m :
  DXSpec_Material_init obj src override = Ok m ->
  let d := default [] override in
  (forall c : slot_class, c <> EmissiveTexture ->
     exists o, as_override (get_or d (sub_record_key c) PNone) = Ok o
       /\ construct c obj (blend_mode m) src o
          = Ok (inl match c with
                    | NormalTexture => normal m
                    | OcclusionTexture => occlusion (orm m)
                    | RoughnessTexture => roughness (orm m)
                    | MetalnessTexture => metalness (orm m)
                    | _ => diffuse m
                    end))
  /\ emissive_field obj src d = Ok (emissive m).
Proof.
  intros Hm d. rewrite DXSpec_Material_init_default, DXSpec_Material_init_eq in Hm.
  fold d in Hm. apply bind_Ok in Hm as (m' & Hm' & Hr).
  apply reject_leftover_Ok in Hr as [_ <-].
  unfold material_fields in Hm'.
  apply bind_Ok in Hm' as (bm & Hbm & Hm'). apply bind_Ok in Hm' as (ac & Hac & Hm').
  apply bind_Ok in Hm' as (ds & Hds & Hm'). apply bind_Ok in Hm' as (d_over & Hdo & Hm').
  apply bind_Ok in Hm' as (diff & Hdiff & Hm').
  apply bind_Ok in Hm' as (n_over & Hno & Hm').
  apply bind_Ok in Hm' as (norm & Hnorm & Hm').
  apply bind_Ok in Hm' as (orm_ & Horm & Hm').
  apply bind_Ok in Hm' as (em & Hem & Hm').
  apply bind_Ok in Hm' as (res & Hres & Hm').
  apply bind_Ok in Hm' as (res' & Hres' & [= <-]). cbn [diffuse normal orm emissive blend_mode].
  unfold orm_fields in Horm.
  apply bind_Ok in Horm as (o_over & Hoo & Horm).
  apply bind_Ok in Horm as (occ & Hocc & Horm).
  apply bind_Ok in Horm as (r_over & Hro & Horm).
  apply bind_Ok in Horm as (rough & Hrough & Horm).
  apply bind_Ok in Horm as (m_over & Hmo & Horm).
  apply bind_Ok in Horm as (metal & Hmetal & [= <-]). cbn [occlusion roughness metalness].
  split; [|exact Hem].
  intros c Hc. destruct c; try congruence; cbn [sub_record_key construct];
    eexists; (split; [eassumption|]);
    match goal with H : ?f = Ok ?t |- bind ?f _ = _ => rewrite H; reflexivity end.
Qed.

Lemma slot_swizzle_cases c obj alpha_mode src override t :
  construct c obj alpha_mode src override = Ok (inl t) ->
  In (swizzle t)
     match c with
     | NormalTexture => ["hh"; "rg"]
     | OcclusionTexture => ["1"; "r"]
     | RoughnessTexture => ["1"; "g"]
     | MetalnessTexture => ["1"; "b"]
     | _ => ["1111"; "rgb1"; "rgba"]
     end.
Proof.
  intros H. destruct c; cbn [construct] in H;
    apply bind_Ok in H as (t' & Ht & [= <-]).
  - unfold DXSpec_NormalTexture_init in Ht. apply bind_Ok in Ht as (self & Hs & Ht).
    apply apply_override_swizzle in Ht as [-> | ->]; [|simpl; tauto].
    destruct (GLTF.normal_texture obj); [apply bind_Ok in Hs as (u & _ & [= <-])
                                        | injection Hs as <-]; simpl; tauto.
  - unfold DXSpec_OcclusionTexture_init in Ht. apply bind_Ok in Ht as (self & Hs & Ht).
    apply apply_override_swizzle in Ht as [-> | ->]; [|simpl; tauto].
    destruct (GLTF.occlusion_texture obj); [apply bind_Ok in Hs as (u & _ & [= <-])
                                           | injection Hs as <-]; simpl; tauto.
  - unfold DXSpec_RoughnessTexture_init in Ht. apply bind_Ok in Ht as (self & Hs & Ht).
    apply apply_override_swizzle in Ht as [-> | ->]; [|simpl; tauto].
    destruct (GLTF.pbr_metallic_roughness obj) as [o|]; [|injection Hs as <-; simpl; tauto].
    destruct (GLTF.metallic_roughness_texture o);
      [apply bind_Ok in Hs as (u & _ & [= <-]) | injection Hs as <-]; simpl; tauto.
  - unfold DXSpec_MetalnessTexture_init in Ht. apply bind_Ok in Ht as (self & Hs & Ht).
    apply apply_override_swizzle in Ht as [-> | ->]; [|simpl; tauto].
    destruct (GLTF.pbr_metallic_roughness obj) as [o|]; [|injection Hs as <-; simpl; tauto].
    destruct (GLTF.metallic_roughness_texture o);
      [apply bind_Ok in Hs as (u & _ & [= <-]) | injection Hs as <-]; simpl; tauto.
  - apply diffuse_swizzle_cases in Ht as [-> | ->]; [simpl; tauto|].
    unfold diffuse_swizzle. destruct (String.eqb alpha_mode "OPAQUE"); simpl; tauto.
Qed.

Lemma override_fields_uri sw key self d t u :
  override_fields sw key self d = Ok t ->
  dict_get d "uri" = Some (PStr u) ->
  uri t = Some (UStr u) /\ swizzle t = sw.
Proof.
  unfold override_fields. intros H Hu. rewrite Hu in H. cbn [as_uri bind] in H.
  destruct (dict_get d key) as [m|]; [|injection H as <-; now split].
  apply bind_Ok in H as (s & _ & [= <-]). now split.
Qed.

Lemma apply_override_uri sw key self d t u :
  key <> "uri" ->
  apply_override sw key self (Some d) = Ok t ->
  dict_get d "uri" = Some (PStr u) ->
  uri t = Some (UStr u) /\ swizzle t = sw.
Proof.
  intros Hk H Hu. rewrite apply_override_eq in H; [|exact Hk|intros ->; discriminate].
  apply bind_Ok in H as (t' & Ht' & Hr). apply reject_leftover_Ok in Hr as [_ <-].
  now apply (override_fields_uri sw key self d t' u).
Qed.

Lemma construct_uri c obj alpha_mode src d t u :
  construct c obj alpha_mode src (Some d) = Ok (inl t) ->
  dict_get d "uri" = Some (PStr u) ->
  uri t = Some (UStr u).
Proof.
  intros H Hu.
  destruct c; cbn [construct] in H; apply bind_Ok in H as (t' & Ht & [= <-]).
  - unfold DXSpec_NormalTexture_init in Ht. apply bind_Ok in Ht as (self & _ & Ht).
    now apply (apply_override_uri _ _ _ _ _ u) in Ht.
  - unfold DXSpec_OcclusionTexture_init in Ht. apply bind_Ok in Ht as (self & _ & Ht).
    now apply (apply_override_uri _ _ _ _ _ u) in Ht.
  - unfold DXSpec_RoughnessTexture_init in Ht. apply bind_Ok in Ht as (self & _ & Ht).
    now apply (apply_override_uri _ _ _ _ _ u) in Ht.
  - unfold DXSpec_MetalnessTexture_init in Ht. apply bind_Ok in Ht as (self & _ & Ht).
    now apply (apply_override_uri _ _ _ _ _ u) in Ht.
  - unfold DXSpec_DiffuseTexture_init in Ht. apply bind_Ok in Ht as (self & _ & Ht).
    now apply (apply_override_uri _ _ _ _ _ u) in Ht.
Qed.

Lemma emissive_init_uri obj src d e u :
  DXSpec_EmissiveTexture_init obj src (Some d) = Ok e ->
  dict_get d "uri" = Some (PStr u) ->
  em_uri e = Some (Some (UStr u)).
Proof.
  intros H Hu. rewrite DXSpec_EmissiveTexture_init_eq in H.
  apply bind_Ok in H as (self & _ & H).
  destruct d as [|kv d']; [discriminate|].
  apply bind_Ok in H as (e' & He' & Hr). apply reject_leftover_Ok in Hr as [_ <-].
  unfold emissive_fields in He'. rewrite Hu in He'. cbn [as_uri bind] in He'.
  destruct (dict_get (kv :: d') "factor") as [m|]; [|now injection He' as <-].
  apply bind_Ok in He' as (f & _ & He'). apply bind_Ok in He' as (f' & _ & [= <-]).
  reflexivity.
Qed.

Lemma material_uris_in_key m u :
  In (Some u) (material_uris m) ->
  (forall s, is_ok (slot_key s m) = true) ->
  exists s key sw, slot_key s m = Ok (Some key) /\ In (Some u, sw) (fst (fst key)).
Proof.
  intros Hin Hok. unfold material_uris in Hin. apply in_app_or in Hin as [Hin|Hin].
  - destruct Hin as [H|[H|[H|[H|[H|[]]]]]].
    + specialize (Hok Diffuse). cbn [slot_key] in Hok.
      destruct (get_diffuse_texture_key m) as [key|] eqn:Hk; [|discriminate].
      exists Diffuse, key, (swizzle (diffuse m)). cbn [slot_key]. rewrite Hk.
      split; [reflexivity|].
      apply get_diffuse_texture_key_Ok in Hk as [-> _]. rewrite H. now left.
    + exists Normal, (get_normal_texture_key m), (swizzle (normal m)).
      split; [reflexivity|]. simpl. rewrite H. now left.
    + exists ORM, (get_orm_texture_key m), (swizzle (occlusion (orm m))).
      split; [reflexivity|]. simpl. rewrite H. now left.
    + exists ORM, (get_orm_texture_key m), (swizzle (roughness (orm m))).
      split; [reflexivity|]. simpl. rewrite H. tauto.
    + exists ORM, (get_orm_texture_key m), (swizzle (metalness (orm m))).
      split; [reflexivity|]. simpl. rewrite H. tauto.
  - specialize (Hok Emissive).
    unfold slot_key, get_emissive_texture_key, emissive_get_texture_key in Hok.
    destruct (emissive m) as [e|] eqn:Ee; [|destruct Hin].
    destruct (em_uri e) as [u0|] eqn:Eu; [|destruct Hin].
    destruct Hin as [->|[]].
    destruct (em_swizzle e) as [sw|] eqn:Es; [|discriminate].
    exists Emissive, ([(Some u, sw)], "BC6H_UF16", resolution m), sw.
    split; [|now left].
    unfold slot_key, get_emissive_texture_key, emissive_get_texture_key.
    rewrite Ee, Eu, Es. reflexivity.
Qed.

Lemma str_uri_breaks_tables db name m u :
  NoDup (dict_keys db) ->
  dict_get db name = Some m ->
  In (Some (UStr u)) (material_uris m) ->
  is_ok (Main.texture_tables db) = false.
Proof.
  intros Hnd Hm Hin.
  destruct (Main.texture_tables db) as [t|] eqn:Ht; [|reflexivity].
  destruct (material_uris_in_key m (UStr u) Hin) as (s & key & sw & Hk & Hkin).
  { intros s. exact (texture_tables_keys_Ok db t name m s Ht Hm). }
  rewrite <- Ht. apply (texture_tables_unnamed db name m s key Hnd Hm Hk).
  exact (name_fold_str key (default_name s) u sw Hkin).
Qed.

Lemma override_uri_in_material obj src d m c sub u :
  DXSpec_Material_init obj src (Some d) = Ok m ->
  dict_get d (sub_record_key c) = Some (PDict sub) ->
  dict_get sub "uri" = Some (PStr u) ->
  In (Some (UStr u)) (material_uris m).
Proof.
  intros Hm Hsub Hu.
  destruct (material_parts obj src (Some d) m Hm) as [Hparts Hem].
  cbn [default from_option id] in Hparts, Hem.
  unfold material_uris.
  assert (Hdec : c = EmissiveTexture \/ c <> EmissiveTexture)
    by (destruct c; (now left) || (right; discriminate)).
  destruct Hdec as [->|Hc].
  - apply in_or_app. right. cbn [sub_record_key] in Hsub.
    unfold emissive_field, dict_mem, get_or in Hem. rewrite Hsub in Hem.
    rewrite orb_true_r in Hem. cbn [default from_option id as_override bind] in Hem.
    apply bind_Ok in Hem as (e & He & [= <-]).
    rewrite (emissive_init_uri obj src sub e u He Hu). now left.
  - destruct (Hparts c Hc) as (o & Ho & Hcons).
    unfold get_or in Ho. rewrite Hsub in Ho.
    cbn [default from_option id as_override] in Ho. injection Ho as <-.
    apply in_or_app. left.
    pose proof (construct_uri c obj _ src sub _ u Hcons Hu) as E.
    destruct c; try congruence; rewrite <- E; simpl; tauto.
Qed.

(** X9: an override that sets the [uri] of a slot stores the string as it is,
    where a texture of the source gives a [Path].  The material is
    assembled, but no run whose database contains it completes the texture
    tables: [name_fold] asks the string for its [stem], or finds two
    different sources. *)
Theorem uri_override_breaks_run (obj : GLTF.GLTF_Material) (src : GLTFSrc)
    (d sub : pydict) (c : slot_class) (u : string) (m : DXSpec_Material)
    (db : list (string * DXSpec_Material)) (name : string) :
  DXSpec_Material_init obj src (Some d) = Ok m ->
  dict_get d (sub_record_key c) = Some (PDict sub) ->
  dict_get sub "uri" = Some (PStr u) ->
  NoDup (dict_keys db) ->
  dict_get db name = Some m ->
  In (Some (UStr u)) (material_uris m)
  /\ is_ok (Main.texture_tables db) = false.
Proof.
  intros Hm Hsub Hu Hnd Hdb.
  pose proof (override_uri_in_material obj src d m c sub u Hm Hsub Hu) as Hin.
  split; [exact Hin|].
  exact (str_uri_breaks_tables db name m u Hnd Hdb Hin).
Qed.

Lemma uri_override_breaks_run_witness :
  In (Some (UStr "n.png"))
     (material_uris (Fixtures.assemble (Fixtures.bare "wall") (Some Fixtures.normal_uri_override)))
  /\ is_ok (Main.texture_tables
              [("wall", Fixtures.assemble (Fixtures.bare "wall")
                          (Some Fixtures.normal_uri_override))]) = false.
Proof.
  apply (uri_override_breaks_run (Fixtures.bare "wall") Fixtures.scene
           Fixtures.normal_uri_override [("uri", PStr "n.png")] NormalTexture "n.png"
           _ _ "wall"); try reflexivity.
  repeat constructor. intros H. inversion H.
Defined.

Lemma orm_two_files_cannot_fold m p q :
  In (Some p) (orm_uris m) -> In (Some q) (orm_uris m) -> p <> q ->
  name_fold (get_orm_texture_key m) (default_name ORM)
  = Raise (ValueError (CannotFold (get_orm_texture_key m))).
Proof.
  intros Hp Hq Hne.
  assert (K : forall u, In (Some u) (orm_uris m) ->
                exists sw, In (Some u, sw) (fst (fst (get_orm_texture_key m)))).
  { intros u Hu. unfold orm_uris in Hu. apply in_map_iff in Hu as (tex & Htex & Hin).
    exists (swizzle tex). cbn [get_orm_texture_key orm_get_texture_key fst].
    apply in_map_iff. exists tex. split; [now rewrite Htex | exact Hin]. }
  destruct (K p Hp) as [sp Hsp]. destruct (K q Hq) as [sq Hsq].
  exact (name_fold_two _ _ p sp q sq Hsp Hsq Hne).
Qed.

(** X10: a material whose occlusion, roughness and metalness sub-slots name two
    different files has an ORM key that [name_fold] refuses, and no run
    whose database contains it completes the texture tables. *)
Theorem orm_two_files_break_run (db : list (string * DXSpec_Material)) (name : string)
    (m : DXSpec_Material) (p q : pyuri) :
  NoDup (dict_keys db) ->
  dict_get db name = Some m ->
  In (Some p) (orm_uris m) -> In (Some q) (orm_uris m) -> p <> q ->
  name_fold (get_orm_texture_key m) (default_name ORM)
  = Raise (ValueError (CannotFold (get_orm_texture_key m)))
  /\ is_ok (Main.texture_tables db) = false.
Proof.
  intros Hnd Hm Hp Hq Hne.
  pose proof (orm_two_files_cannot_fold m p q Hp Hq Hne) as Hfold.
  split; [exact Hfold|].
  apply (texture_tables_unnamed db name m ORM (get_orm_texture_key m) Hnd Hm);
    [reflexivity|].
  now rewrite Hfold.
Qed.

Lemma orm_two_files_break_run_witness :
  name_fold (get_orm_texture_key (Fixtures.assemble (Fixtures.two_files "rock") None))
    (default_name ORM)
  = Raise (ValueError
             (CannotFold ([(Some (UPath "assets/wood.png"), "r");
                           (Some (UPath "assets/stone.png"), "g");
                           (Some (UPath "assets/stone.png"), "b")],
                          "BC7_UNORM", [-1; -1])))
  /\ is_ok (Main.texture_tables
              [("rock", Fixtures.assemble (Fixtures.two_files "rock") None)]) = false.
Proof.
  refine (orm_two_files_break_run
            [("rock", Fixtures.assemble (Fixtures.two_files "rock") None)] "rock"
            (Fixtures.assemble (Fixtures.two_files "rock") None)
            (UPath "assets/wood.png") (UPath "assets/stone.png") _ _ _ _ _).
  - repeat constructor. intros H. inversion H.
  - reflexivity.
  - now left.
  - right. now left.
  - discriminate.
Defined.

(* ===================================================================== *)
(** * Parsing the materials                                               *)
(* ===================================================================== *)










(* ===================================================================== *)
(** * Conversion specs and DXTF materials                                 *)
(* ===================================================================== *)

(** ** The channels of a conversion spec *)

Lemma format_get_channels_range f n :
  format_get_channels f = Ok n -> 1 <= n <= 4.
Proof.
  unfold format_get_channels.
  repeat match goal with
         | |- context [if ?b then _ else _] => destruct b
         end; intros [= <-]; lia.
Qed.

Lemma pad_channels_spec fuel : forall expected channels,
  Z.of_nat (length channels) <= expected ->
  expected - Z.of_nat (length channels) <= Z.of_nat fuel ->
  Dxtf.pad_channels fuel expected channels
  = (channels ++ repeat (None, "1") (Z.to_nat expected - length channels))%list.
Proof.
  induction fuel as [|fuel IH]; intros expected channels Hle Hfuel; cbn [Dxtf.pad_channels].
  - replace (Z.to_nat expected - length channels)%nat with O by lia.
    now rewrite app_nil_r.
  - destruct (Z.ltb_spec (Z.of_nat (length channels)) expected) as [Hlt|Hge].
    + rewrite IH; rewrite ?length_app; cbn [length]; try lia.
      replace (Z.to_nat expected - length channels)%nat
        with (S (Z.to_nat expected - (length channels + 1)))%nat by lia.
      cbn [repeat]. now rewrite <- app_assoc.
    + replace (Z.to_nat expected - length channels)%nat with O by lia.
      now rewrite app_nil_r.
Qed.

Lemma swizzle_channels_file tex swizzle c :
  In c (Dxtf.swizzle_channels tex swizzle) ->
  (exists s, snd c = String s EmptyString /\ In s (list_ascii_of_string swizzle)
             /\ fst c = if Dxtf.in_rgba s then tex else None).
Proof.
  unfold Dxtf.swizzle_channels. intros H. apply in_map_iff in H as (s & <- & Hs).
  exists s. auto.
Qed.

Lemma in_rgba_true s :
  Dxtf.in_rgba s = true -> In (String s EmptyString) ["r"; "g"; "b"; "a"].
Proof.
  unfold Dxtf.in_rgba. cbn [list_ascii_of_string existsb].
  intros H. repeat apply orb_true_iff in H as [H|H]; try discriminate;
    apply Ascii.eqb_eq in H; subst s; simpl; tauto.
Qed.

Lemma key_channels_file sub_keys f s :
  In (Some f, s) (Dxtf.key_channels sub_keys) -> In s ["r"; "g"; "b"; "a"].
Proof.
  unfold Dxtf.key_channels. intros H. apply in_flat_map in H as (sk & _ & H).
  apply swizzle_channels_file in H as (c & Hs & _ & Hf). cbn [fst snd] in *. subst s.
  destruct (Dxtf.in_rgba c) eqn:E; [now apply in_rgba_true | discriminate].
Qed.

Lemma DXTF_Tex2DDS_init_cases texture_path key out_path srgb :
  match Dxtf.DXTF_Tex2DDS_init texture_path key out_path srgb with
  | Dxtf.Done t =>
      tex2dds_built key t
      /\ Dxtf.output_path t = Path (path_join out_path texture_path)
      /\ Dxtf.srgb t = srgb
  | Dxtf.RaisedChannels f expected actual =>
      actual = true /\ f = snd (fst key)
      /\ format_get_channels (snd (fst key)) = Ok expected
      /\ expected < Z.of_nat (length (Dxtf.key_channels (fst (fst key))))
  | Dxtf.Raised e => format_get_channels (snd (fst key)) = Raise e
  end.
Proof.
  unfold Dxtf.DXTF_Tex2DDS_init.
  destruct (format_get_channels (snd (fst key))) as [expected|e] eqn:Hf;
    cbn [Dxtf.lift Dxtf.obind]; [|reflexivity].
  pose proof (format_get_channels_range _ _ Hf) as Hr.
  destruct (Z.ltb_spec expected (Z.of_nat (length (Dxtf.key_channels (fst (fst key))))))
    as [Hlt|Hge].
  - repeat split; auto.
  - split; [|split; reflexivity]. unfold tex2dds_built. cbn [Dxtf.format Dxtf.channels
      Dxtf.resolution].
    rewrite pad_channels_spec by lia.
    split.
    { rewrite Hf. f_equal. rewrite length_app, repeat_length. lia. }
    split; [reflexivity|]. split; [reflexivity|]. split; [eauto|].
    intros f s Hin. apply in_app_or in Hin as [Hin|Hin].
    + now apply key_channels_file in Hin.
    + apply repeat_spec in Hin. discriminate.
Qed.

(** X15: [DXTF_Tex2DDS( ... )] returns exactly when the format is known and the
    swizzles of the key have no more characters than the format has
    channels.  The spec then has as many channels as the format: those of
    the key followed by constant ones, and only a channel r, g, b or a
    reads a file.  With too many channels it raises, and what the message
    reports as the number of channels is the truth value of the comparison;
    with an unknown format it raises the error of [format_get_channels]. *)
Theorem tex2dds_channel_budget (texture_path : string) (key : DXSpec_TextureKey)
    (out_path : string) (srgb : pyval) :
  let made := Dxtf.DXTF_Tex2DDS_init texture_path key out_path srgb in
  let n := Z.of_nat (length (Dxtf.key_channels (fst (fst key)))) in
  (forall t, made = Dxtf.Done t -> tex2dds_built key t)
  /\ (forall f expected actual, made = Dxtf.RaisedChannels f expected actual ->
        actual = true /\ format_get_channels (snd (fst key)) = Ok expected
        /\ expected < n)
  /\ (forall e, made = Dxtf.Raised e -> format_get_channels (snd (fst key)) = Raise e)
  /\ (forall expected, format_get_channels (snd (fst key)) = Ok expected ->
        n <= expected -> exists t, made = Dxtf.Done t).
Proof.
  intros made n. subst made n.
  pose proof (DXTF_Tex2DDS_init_cases texture_path key out_path srgb) as H.
  destruct (Dxtf.DXTF_Tex2DDS_init texture_path key out_path srgb) as [t|e|f ex a].
  - split; [intros ? [= <-]; apply H|]. split; [discriminate|]. split; [discriminate|].
    eauto.
  - split; [discriminate|]. split; [discriminate|]. split; [now intros ? [= <-]|].
    intros expected Hex. congruence.
  - destruct H as (-> & -> & Hf & Hlt).
    split; [discriminate|]. split; [intros ? ? ? [= _ <- <-]; auto|].
    split; [discriminate|]. intros expected Hex Hle. rewrite Hf in Hex.
    injection Hex as <-. lia.
Qed.

Lemma tex2dds_channel_budget_witness :
  exists t,
    Dxtf.DXTF_Tex2DDS_init "wood.dds"
      ([(Some (UPath "assets/wood.png"), "rg")], "BC5_UNORM", [512; 512])
      "textures" (PStr "linear") = Dxtf.Done t.
Proof.
  refine (proj2 (proj2 (proj2 (tex2dds_channel_budget "wood.dds"
            ([(Some (UPath "assets/wood.png"), "rg")], "BC5_UNORM", [512; 512])
            "textures" (PStr "linear")))) 2 eq_refl _).
  discriminate.
Defined.

(** ** The keys of an assembled material *)

Lemma emissive_swizzle_cases obj src override e :
  DXSpec_EmissiveTexture_init obj src override = Ok e ->
  em_swizzle e = None \/ em_swizzle e = Some "rgb" \/ em_swizzle e = Some "111".
Proof.
  rewrite DXSpec_EmissiveTexture_init_eq. intros H.
  apply bind_Ok in H as (self & Hself & H).
  assert (Hbase : em_swizzle self = None \/ em_swizzle self = Some "rgb"
                  \/ em_swizzle self = Some "111").
  { unfold emissive_base in Hself.
    destruct (is_some (GLTF.emissive_texture obj) || tuple_truthy (GLTF.emissive_factor obj)).
    - apply bind_Ok in Hself as (u & _ & [= <-]). cbn [em_swizzle].
      destruct (is_some (GLTF.emissive_texture obj)); tauto.
    - destruct override; [injection Hself as <-; now left | discriminate]. }
  destruct override as [[|kv d]|]; try (injection H as <-; exact Hbase).
  apply bind_Ok in H as (e' & He' & Hr). apply reject_leftover_Ok in Hr as [_ <-].
  unfold emissive_fields in He'. apply bind_Ok in He' as (self1 & H1 & He').
  assert (H1' : em_swizzle self1 = None \/ em_swizzle self1 = Some "rgb"
                \/ em_swizzle self1 = Some "111").
  { destruct (dict_get (kv :: d) "uri").
    - apply bind_Ok in H1 as (u & _ & [= <-]). tauto.
    - injection H1 as <-. exact Hbase. }
  destruct (dict_get (kv :: d) "factor").
  - apply bind_Ok in He' as (f & _ & He'). apply bind_Ok in He' as (f' & _ & [= <-]).
    exact H1'.
  - injection He' as <-. exact H1'.
Qed.

Lemma material_slot_key_shape obj src override m s key :
  DXSpec_Material_init obj src override = Ok m ->
  slot_key s m = Ok (Some key) ->
  slot_key_shape s key.
Proof.
  intros Hm Hk. destruct (material_parts obj src override m Hm) as [Hparts Hem].
  assert (Hsw : forall c, c <> EmissiveTexture ->
            forall t, t = match c with
                          | NormalTexture => normal m
                          | OcclusionTexture => occlusion (orm m)
                          | RoughnessTexture => roughness (orm m)
                          | MetalnessTexture => metalness (orm m)
                          | _ => diffuse m
                          end ->
            In (swizzle t)
               match c with
               | NormalTexture => ["hh"; "rg"]
               | OcclusionTexture => ["1"; "r"]
               | RoughnessTexture => ["1"; "g"]
               | MetalnessTexture => ["1"; "b"]
               | _ => ["1111"; "rgb1"; "rgba"]
               end).
  { intros c Hc t ->. destruct (Hparts c Hc) as (o & _ & Hcons).
    exact (slot_swizzle_cases c obj _ src o _ Hcons). }
  destruct s; cbn [slot_key slot_key_shape] in *.
  - apply bind_Ok in Hk as (k & Hk & [= <-]).
    unfold get_diffuse_texture_key, diffuse_get_texture_key in Hk.
    apply bind_Ok in Hk as (one & _ & [= <-]).
    exists (uri (diffuse m)), (swizzle (diffuse m)),
      (if one then "BC1_UNORM_SRGB" else "BC3_UNORM_SRGB").
    split; [reflexivity|]. split.
    + exact (Hsw DiffuseTexture ltac:(discriminate) _ eq_refl).
    + destruct one; simpl; tauto.
  - injection Hk as <-. exists (uri (normal m)), (swizzle (normal m)).
    split; [reflexivity|]. exact (Hsw NormalTexture ltac:(discriminate) _ eq_refl).
  - injection Hk as <-.
    exists (uri (occlusion (orm m))), (swizzle (occlusion (orm m))),
      (uri (roughness (orm m))), (swizzle (roughness (orm m))),
      (uri (metalness (orm m))), (swizzle (metalness (orm m))).
    split; [reflexivity|].
    split; [exact (Hsw OcclusionTexture ltac:(discriminate) _ eq_refl)|].
    split; [exact (Hsw RoughnessTexture ltac:(discriminate) _ eq_refl)|].
    exact (Hsw MetalnessTexture ltac:(discriminate) _ eq_refl).
  - unfold get_emissive_texture_key in Hk.
    destruct (emissive m) as [e|] eqn:Ee; [|discriminate].
    apply bind_Ok in Hk as (k & Hk & [= <-]).
    unfold emissive_get_texture_key in Hk.
    apply bind_Ok in Hk as (u & Hu & Hk). apply bind_Ok in Hk as (sw & Hsw' & [= <-]).
    exists u, sw. split; [reflexivity|].
    unfold emissive_field in Hem.
    destruct (is_some (GLTF.emissive_texture obj) || tuple_truthy (GLTF.emissive_factor obj)
              || dict_mem "emissive" (default [] override)); [|discriminate].
    apply bind_Ok in Hem as (o & _ & Hem). apply bind_Ok in Hem as (e' & He' & [= ->]).
    destruct (em_swizzle e) as [sw0|] eqn:Es; [|discriminate]. injection Hsw' as ->.
    destruct (emissive_swizzle_cases obj src o e He') as [H|[H|H]]; rewrite Es in H;
      try discriminate; injection H as ->; simpl; tauto.
Qed.

(** X16: every texture key of an assembled material is accepted by
    [DXTF_Tex2DDS]: the spec has 4 channels for a diffuse or an ORM key, 2
    for a normal key, 3 for an emissive key, and the fourth channel of an
    ORM spec is the constant one. *)
Theorem tex2dds_accepts_material_keys (obj : GLTF.GLTF_Material) (src : GLTFSrc)
    (override : option pydict) (m : DXSpec_Material) (s : slot_kind)
    (key : DXSpec_TextureKey) (texture_path out_path : string) (srgb : pyval) :
  DXSpec_Material_init obj src override = Ok m ->
  slot_key s m = Ok (Some key) ->
  exists t,
    Dxtf.DXTF_Tex2DDS_init texture_path key out_path srgb = Dxtf.Done t
    /\ length (Dxtf.channels t)
       = match s with Diffuse | ORM => 4 | Normal => 2 | Emissive => 3 end%nat
    /\ (s = ORM -> nth_error (Dxtf.channels t) 3 = Some (None, "1")).
Proof.
  intros Hm Hk. pose proof (material_slot_key_shape obj src override m s key Hm Hk) as Hs.
  destruct key as [[subs f] res]. destruct s; cbn [slot_key_shape fst] in Hs.
  - destruct Hs as (u & sw & f' & [= -> ->] & Hsw & Hf).
    cbn [In] in Hsw, Hf.
    destruct Hsw as [<-|[<-|[<-|[]]]]; destruct Hf as [<-|[<-|[]]];
      (eexists; split; [reflexivity|]; split; [reflexivity | discriminate]).
  - destruct Hs as (u & sw & [= -> ->] & Hsw). cbn [In] in Hsw.
    destruct Hsw as [<-|[<-|[]]];
      (eexists; split; [reflexivity|]; split; [reflexivity | discriminate]).
  - destruct Hs as (u1 & s1 & u2 & s2 & u3 & s3 & [= -> ->] & H1 & H2 & H3).
    cbn [In] in H1, H2, H3.
    destruct H1 as [<-|[<-|[]]]; destruct H2 as [<-|[<-|[]]]; destruct H3 as [<-|[<-|[]]];
      (eexists; split; [reflexivity|]; split; [reflexivity | reflexivity]).
  - destruct Hs as (u & sw & [= -> ->] & Hsw). cbn [In] in Hsw.
    destruct Hsw as [<-|[<-|[]]];
      (eexists; split; [reflexivity|]; split; [reflexivity | discriminate]).
Qed.

Lemma tex2dds_accepts_material_keys_witness :
  exists t,
    Dxtf.DXTF_Tex2DDS_init "stone.dds"
      ([(None, "1"); (Some (UPath "assets/stone.png"), "g");
        (Some (UPath "assets/stone.png"), "b")], "BC7_UNORM", [-1; -1])
      "textures" (PStr "linear") = Dxtf.Done t
    /\ length (Dxtf.channels t) = 4%nat
    /\ (ORM = ORM -> nth_error (Dxtf.channels t) 3 = Some (None, "1")).
Proof.
  exact (tex2dds_accepts_material_keys (Fixtures.rough_metal "rock")
           Fixtures.scene None _ ORM _ "stone.dds" "textures" (PStr "linear")
           eq_refl eq_refl).
Defined.

(** ** The list of conversion specs *)

Lemma obind_Done {A B} (m : Dxtf.outcome A) (k : A -> Dxtf.outcome B) b :
  Dxtf.obind m k = Dxtf.Done b -> exists a, m = Dxtf.Done a /\ k a = Dxtf.Done b.
Proof. destruct m; simpl; [eauto | discriminate | discriminate]. Qed.

Lemma lift_Done {A} (r : result A) a : Dxtf.lift r = Dxtf.Done a -> r = Ok a.
Proof. destruct r; simpl; [now intros [= ->] | discriminate]. Qed.

Lemma add_tex2dds_table path settings (s : slot_kind) items : forall acc l,
  Dxtf.ofold (Dxtf.add_tex2dds path settings (slot_label s)) items acc = Dxtf.Done l ->
  exists l', l = (acc ++ l')%list
    /\ Forall2 (tex2dds_for path settings)
         (List.filter (fun x => negb (Dxtf.contains_dollar (fst (snd x))))
            (map (pair s) items)) l'.
Proof.
  induction items as [|[k v] items IH]; intros acc l; cbn [Dxtf.ofold].
  - intros [= <-]. exists []. rewrite app_nil_r. split; [reflexivity | constructor].
  - intros H. apply obind_Done in H as (acc1 & Hadd & H).
    apply IH in H as (l' & -> & Hall). cbn [map List.filter fst snd].
    unfold Dxtf.add_tex2dds in Hadd.
    destruct (Dxtf.contains_dollar k); cbn [negb].
    + injection Hadd as <-. eauto.
    + apply obind_Done in Hadd as (srgb & Hsrgb & Hadd). apply lift_Done in Hsrgb.
      apply obind_Done in Hadd as (t & Ht & [= <-]).
      exists (t :: l'). rewrite <- app_assoc. split; [reflexivity|].
      constructor; [|exact Hall]. exists srgb. split; [exact Hsrgb | exact Ht].
Qed.

Lemma tex2dds_list_Done c path settings l :
  Dxtf.tex2dds_list_from_texture_specs c path settings = Dxtf.Done l ->
  Forall2 (tex2dds_for path settings)
    (List.filter (fun x => negb (Dxtf.contains_dollar (fst (snd x)))) (named_textures c)) l.
Proof.
  unfold Dxtf.tex2dds_list_from_texture_specs, named_textures.
  cbn [Dxtf.ofold fst snd flat_map at_slot]. intros H.
  apply obind_Done in H as (l1 & H1 & H). apply obind_Done in H as (l2 & H2 & H).
  apply obind_Done in H as (l3 & H3 & H). apply obind_Done in H as (l4 & H4 & [= <-]).
  apply (add_tex2dds_table path settings Diffuse) in H1 as (a1 & -> & F1).
  apply (add_tex2dds_table path settings Normal) in H2 as (a2 & -> & F2).
  apply (add_tex2dds_table path settings ORM) in H3 as (a3 & -> & F3).
  apply (add_tex2dds_table path settings Emissive) in H4 as (a4 & -> & F4).
  rewrite app_nil_r, !List.filter_app, <- !app_assoc. cbn [app].
  repeat apply Forall2_app; auto.
Qed.

Lemma fold_names_NoDup default keys outs inv :
  foldM (register default) keys ([], []) = Ok (outs, inv) ->
  NoDup (dict_keys outs) /\ NoDup (dict_keys inv).
Proof.
  intros H.
  apply (foldM_invariant (register default)
           (fun _ st => NoDup (dict_keys (fst st)) /\ NoDup (dict_keys (snd st)))
           keys ([], []) (outs, inv)); [split; constructor | | exact H].
  intros _ key [o1 i1] [o2 i2] [N1 N2] Hreg. cbn [fst snd] in *.
  apply register_Ok in Hreg as (n & _ & _ & _ & -> & ->).
  split; now apply dict_set_NoDup.
Qed.

Lemma contains_dollar_default s : Dxtf.contains_dollar (default_name s) = true.
Proof. destruct s; reflexivity. Qed.

(** A name of the spec container without a dollar sign belongs to a key
    that has a source file. *)
Lemma named_texture_has_file kc c s n k :
  DXSpec_TextureSpecContainer_init kc = Ok c ->
  In (s, (n, k)) (named_textures c) ->
  Dxtf.contains_dollar n = false ->
  omap fst (fst (fst k)) <> [].
Proof.
  intros Hc Hin Hd.
  assert (Hin' : In (n, k) (at_slot s (str2key c))).
  { unfold named_textures in Hin. apply in_flat_map in Hin as (s' & _ & Hin).
    apply in_map_iff in Hin as (x & [= <- <-] & Hin). exact Hin. }
  pose proof (texture_spec_container_slot kc c s Hc) as Hfold.
  unfold fold_names in Hfold. apply fold_names_NoDup in Hfold as [Hnd _].
  apply (dict_get_In_NoDup _ _ _ Hnd) in Hin'.
  destruct (texture_spec_container_names kc c s Hc) as (Hinv & _ & Hname).
  apply Hinv in Hin'. apply Hname in Hin'.
  apply name_fold_Ok in Hin' as [[_ ->]|(p & Hne & _)]; [|exact Hne].
  rewrite contains_dollar_default in Hd. discriminate.
Qed.

(** X17: [DXTF_Tex2DDS.list_from_texture_specs] makes one conversion spec for
    each file name without a dollar sign, in the order diffuse, normal, ORM,
    emissive, with the [srgb] setting of the slot kind.  Each of these names
    belongs to a key with a source file, and every default name has a
    dollar sign: no conversion is requested for a slot without a file. *)
Theorem tex2dds_list_skips_defaults (kc : DXSpec_TextureKeysContainer)
    (c : DXSpec_TextureSpecContainer) (dx_textures_path : string)
    (tex2dds_settings : pyval) (l : list Dxtf.DXTF_Tex2DDS) :
  DXSpec_TextureSpecContainer_init kc = Ok c ->
  Dxtf.tex2dds_list_from_texture_specs c dx_textures_path tex2dds_settings = Dxtf.Done l ->
  Forall2 (fun x t => tex2dds_for dx_textures_path tex2dds_settings x t
                      /\ omap fst (fst (fst (snd (snd x)))) <> [])
    (List.filter (fun x => negb (Dxtf.contains_dollar (fst (snd x)))) (named_textures c)) l
  /\ forall s, Dxtf.contains_dollar (default_name s) = true.
Proof.
  intros Hc Hl. split; [|exact contains_dollar_default].
  apply tex2dds_list_Done in Hl.
  assert (Hfile : Forall (fun x => omap fst (fst (fst (snd (snd x)))) <> [])
            (List.filter (fun x => negb (Dxtf.contains_dollar (fst (snd x))))
               (named_textures c))).
  { apply List.Forall_forall. intros [s [n k]] Hin. apply filter_In in Hin as [Hin Hd].
    cbn [fst snd] in *. apply negb_true_iff in Hd.
    exact (named_texture_has_file kc c s n k Hc Hin Hd). }
  revert Hfile. induction Hl as [|x t xs ts Hx _ IH]; intros Hfile; constructor.
  - split; [exact Hx|]. now inversion Hfile.
  - apply IH. now inversion Hfile.
Qed.

Lemma tex2dds_list_skips_defaults_witness :
  exists kc c l,
    DXSpec_TextureKeysContainer_init Fixtures.db_shared = Ok kc
    /\ DXSpec_TextureSpecContainer_init kc = Ok c
    /\ Dxtf.tex2dds_list_from_texture_specs c "textures" Fixtures.tex2dds_settings = Dxtf.Done l
    /\ length l = 1%nat
    /\ Forall2 (fun x t => tex2dds_for "textures" Fixtures.tex2dds_settings x t
                           /\ omap fst (fst (fst (snd (snd x)))) <> [])
         (List.filter (fun x => negb (Dxtf.contains_dollar (fst (snd x))))
            (named_textures c)) l.
Proof.
  eexists _, _, _. split; [reflexivity|].
  lazymatch goal with
  | |- DXSpec_TextureSpecContainer_init ?kc = _ /\ _ =>
      split; [reflexivity|]; split; [reflexivity|]; split; [reflexivity|];
      exact (proj1 (tex2dds_list_skips_defaults kc _ "textures" Fixtures.tex2dds_settings _
                      eq_refl eq_refl))
  end.
Defined.

(** ** DXTF materials *)

Lemma mapM_Forall2 {A B} (f : A -> result B) (R : A -> B -> Prop) xs :
  (forall x, In x xs -> exists y, f x = Ok y /\ R x y) ->
  exists ys, mapM f xs = Ok ys /\ Forall2 R xs ys.
Proof.
  induction xs as [|x xs IH]; intros H; cbn [mapM].
  - exists []. split; [reflexivity | constructor].
  - destruct (H x (or_introl eq_refl)) as (y & Hy & Hr).
    destruct IH as (ys & Hys & Hall); [intros; apply H; now right|].
    exists (y :: ys). rewrite Hy, Hys. split; [reflexivity | now constructor].
Qed.

Lemma slot_key_Some s m :
  is_ok (slot_key s m) = true ->
  (s = Emissive -> emissive m <> None) ->
  exists key, slot_key s m = Ok (Some key).
Proof.
  intros Hok Hem. destruct s; cbn [slot_key] in *.
  - destruct (get_diffuse_texture_key m); [eauto | discriminate].
  - eauto.
  - eauto.
  - unfold get_emissive_texture_key in *.
    destruct (emissive m) as [e|]; [|now destruct (Hem eq_refl)].
    destruct (emissive_get_texture_key e (resolution m)); [eauto | discriminate].
Qed.

Lemma table_getitem_Ok d k v : dict_get d k = Some v -> Dxtf.table_getitem d k = Ok v.
Proof. unfold Dxtf.table_getitem. now intros ->. Qed.

(** In a run that completes, [DXTF_Material( m, tex )] returns for a
    material of the database that is stored under its name, unless its
    emissive slot has no factor. *)
Lemma DXTF_Material_init_of db t k m :
  NoDup (dict_keys db) ->
  Main.texture_tables db = Ok t ->
  dict_get db k = Some m ->
  name m = k ->
  (forall e, emissive m = Some e -> em_factor e <> None) ->
  exists x, Dxtf.DXTF_Material_init m t = Ok x /\ dxtf_of m x.
Proof.
  intros Hnd Ht Hm Hname Hfac.
  assert (Hslot : forall s, (s = Emissive -> emissive m <> None) ->
            exists n, dict_get (at_slot s t) (name m) = Some n /\ texture_named s m n).
  { intros s Hs.
    destruct (slot_key_Some s m (texture_tables_keys_Ok db t k m s Ht Hm) Hs)
      as [key Hkey].
    destruct (texture_tables_slot db t s k m key Hnd Ht Hm Hkey) as (n & Hn & Hf).
    exists n. rewrite Hname. split; [exact Hn|]. exists key. now split. }
  destruct (Hslot Diffuse ltac:(discriminate)) as (dn & Hdn & Hdt).
  destruct (Hslot Normal ltac:(discriminate)) as (nn & Hnn & Hnt).
  destruct (Hslot ORM ltac:(discriminate)) as (on & Hon & Hot).
  cbn [at_slot] in Hdn, Hnn, Hon.
  unfold Dxtf.DXTF_Material_init.
  rewrite (table_getitem_Ok _ _ _ Hdn), (table_getitem_Ok _ _ _ Hnn),
    (table_getitem_Ok _ _ _ Hon). cbn [bind].
  destruct (emissive m) as [e|] eqn:Ee.
  - destruct (Hslot Emissive) as (en & Hen & Het); [congruence|].
    cbn [at_slot] in Hen. rewrite (table_getitem_Ok _ _ _ Hen). cbn [bind].
    destruct (em_factor e) as [f|] eqn:Ef; [|now destruct (Hfac e eq_refl)].
    cbn [getattr bind]. eexists. split; [reflexivity|].
    unfold dxtf_of. rewrite Ee. cbn. repeat split; auto.
  - cbn [bind]. eexists. split; [reflexivity|].
    unfold dxtf_of. rewrite Ee. cbn. repeat split; auto.
Qed.

Lemma DXTF_Material_init_no_factor m t e :
  emissive m = Some e -> em_factor e = None ->
  is_ok (Dxtf.DXTF_Material_init m t) = false.
Proof.
  intros Ee Ef. unfold Dxtf.DXTF_Material_init. rewrite Ee, Ef.
  repeat match goal with
         | |- context [Dxtf.table_getitem ?d ?k] =>
             destruct (Dxtf.table_getitem d k); cbn [bind getattr is_ok]
         end; reflexivity.
Qed.

Lemma mapM_not_ok {A B} (f : A -> result B) xs x :
  In x xs -> is_ok (f x) = false -> is_ok (mapM f xs) = false.
Proof.
  induction xs as [|y xs IH]; intros Hin Hx; [destruct Hin|]. cbn [mapM].
  destruct Hin as [->|Hin].
  - destruct (f x); [discriminate | reflexivity].
  - destruct (f y); [|reflexivity]. cbn [bind].
    specialize (IH Hin Hx). destruct (mapM f xs); [discriminate | reflexivity].
Qed.

(** X13: for a database that stores each material under its name, in a run that
    completes the texture tables: if every emissive slot has a factor,
    [DXTF_Material.list_from_texture_specs] returns one DXTF material for
    each material of the database, in order, with its name, strengths,
    blend mode, cutoff and sidedness and with the file names its keys fold
    to; an emissive slot without factor (one built from an override alone)
    makes it raise. *)
Theorem dxtf_materials_from_tables (db : list (string * DXSpec_Material))
    (t : PerSlot (list (string * string))) :
  NoDup (dict_keys db) ->
  (forall k m, dict_get db k = Some m -> name m = k) ->
  Main.texture_tables db = Ok t ->
  ((forall k m e, dict_get db k = Some m -> emissive m = Some e -> em_factor e <> None) ->
   exists l, Dxtf.list_from_texture_specs db t = Ok l
             /\ Forall2 (fun kv x => dxtf_of (snd kv) x) db l)
  /\ (forall k m e, dict_get db k = Some m -> emissive m = Some e -> em_factor e = None ->
        is_ok (Dxtf.list_from_texture_specs db t) = false).
Proof.
  intros Hnd Hname Ht. split.
  - intros Hfac. unfold Dxtf.list_from_texture_specs.
    apply mapM_Forall2. intros [k m] Hin. cbn [snd].
    apply (dict_get_In_NoDup _ _ _ Hnd) in Hin.
    apply (DXTF_Material_init_of db t k m Hnd Ht Hin (Hname k m Hin)).
    intros e. now apply (Hfac k m).
  - intros k m e Hm Ee Ef. unfold Dxtf.list_from_texture_specs.
    apply (mapM_not_ok _ db (k, m)); [now apply dict_get_Some_In|].
    cbn [snd]. exact (DXTF_Material_init_no_factor m t e Ee Ef).
Qed.

Lemma dxtf_materials_from_tables_witness :
  (exists l,
     Dxtf.list_from_texture_specs Fixtures.db_shared Fixtures.shared_tables = Ok l
     /\ Forall2 (fun kv x => dxtf_of (snd kv) x) Fixtures.db_shared l)
  /\ Main.texture_tables Fixtures.db_lamp = Ok Fixtures.lamp_tables
  /\ is_ok (Dxtf.list_from_texture_specs Fixtures.db_lamp Fixtures.lamp_tables) = false.
Proof.
  split; [|split; [reflexivity|]].
  - refine (proj1 (dxtf_materials_from_tables Fixtures.db_shared Fixtures.shared_tables
                     _ _ eq_refl) _).
    + apply NoDup_two_names. discriminate.
    + intros k m H. apply dict_get_Some_In in H.
      destruct H as [[= <- <-]|[[= <- <-]|[]]]; reflexivity.
    + intros k m e H. apply dict_get_Some_In in H.
      destruct H as [[= <- <-]|[[= <- <-]|[]]]; discriminate.
  - refine (proj2 (dxtf_materials_from_tables Fixtures.db_lamp Fixtures.lamp_tables
                     _ _ eq_refl) "lamp" _ _ eq_refl eq_refl eq_refl).
    + repeat constructor. intros H. inversion H.
    + intros k m H. apply dict_get_Some_In in H.
      destruct H as [[= <- <-]|[]]. reflexivity.
Defined.

(** ** The dict of a DXTF material *)

(** X14: [as_nameless_dict] always returns.  The dict has the entries
    [diffuse], [normal], [orm], then [emissive] only for a material with an
    emissive texture, [blend_mode], [alpha_cutoff] only for the blend mode
    MASK, and [double_sided]; it has no [name]. *)
Theorem dxtf_material_dict (self : Dxtf.DXTF_Material) :
  exists out,
    Dxtf.as_nameless_dict self = Ok out
    /\ dict_keys out
       = (["diffuse"; "normal"; "orm"]
          ++ (if is_some (Dxtf.emissive self) then ["emissive"] else [])
          ++ ["blend_mode"]
          ++ (if String.eqb (Dxtf.blend_mode self) "MASK" then ["alpha_cutoff"] else [])
          ++ ["double_sided"])%list
    /\ dict_get out "alpha_cutoff"
       = (if String.eqb (Dxtf.blend_mode self) "MASK"
          then Some (Dxtf.alpha_cutoff self) else None)
    /\ dict_get out "blend_mode" = Some (PStr (Dxtf.blend_mode self))
    /\ dict_get out "double_sided" = Some (PBool (Dxtf.double_sided self)).
Proof.
  unfold Dxtf.as_nameless_dict, Dxtf.as_dict, Dxtf.asdict.
  destruct (Dxtf.emissive self) as [e|];
    destruct (String.eqb (Dxtf.blend_mode self) "MASK");
    (eexists; split; [reflexivity|]; repeat split).
Qed.

Lemma GLTF_Material_init_alpha json obj :
  GLTF.GLTF_Material_init json = Ok obj ->
  GLTF.alpha_mode obj = get_or json "alphaMode" (PStr "OPAQUE")
  /\ (dict_get json "alphaCuttoff" = None ->
      GLTF.alpha_cutoff obj
      = if py_eq_str (GLTF.alpha_mode obj) "MASK" then Some 0.5%float else None).
Proof.
  intros Hg. unfold GLTF.GLTF_Material_init in Hg.
  repeat (let x := fresh "x" in let Hx := fresh "Hx" in
          apply bind_Ok in Hg as (x & Hx & Hg)).
  injection Hg as <-. cbn [GLTF.alpha_mode GLTF.alpha_cutoff]. unfold get_or.
  split; [destruct (dict_get json "alphaMode"); reflexivity|].
  intros Hkey.
  match goal with
  | Hc : init py_float json "alphaCuttoff" _ = Ok ?c |- ?c = _ =>
      unfold init in Hc; rewrite Hkey in Hc; injection Hc as <-
  end.
  destruct (dict_get json "alphaMode"); reflexivity.
Qed.

Lemma DXTF_Material_init_scalars m t x :
  Dxtf.DXTF_Material_init m t = Ok x ->
  Dxtf.blend_mode x = blend_mode m /\ Dxtf.alpha_cutoff x = alpha_cutoff m.
Proof.
  unfold Dxtf.DXTF_Material_init. intros H.
  repeat (let y := fresh "y" in let Hy := fresh "Hy" in
          apply bind_Ok in H as (y & Hy & H)).
  injection H as <-. split; reflexivity.
Qed.

Lemma as_nameless_dict_mask x :
  Dxtf.blend_mode x = "MASK" ->
  exists out, Dxtf.as_nameless_dict x = Ok out
              /\ dict_get out "alpha_cutoff" = Some (Dxtf.alpha_cutoff x).
Proof.
  intros Hb. unfold Dxtf.as_nameless_dict, Dxtf.as_dict, Dxtf.asdict. rewrite Hb.
  destruct (Dxtf.emissive x); eexists; split; reflexivity.
Qed.

(** X18: when an override sets [blend_mode] to MASK, without an [alpha_cutoff],
    for a material whose source has another alpha mode (and no
    [alphaCuttoff] entry, the key the code reads), the assembled material
    has the blend mode MASK and no cutoff, and the dict written for its
    DXTF material has a null [alpha_cutoff]. *)
Theorem mask_override_null_cutoff (json : pydict) (obj : GLTF.GLTF_Material)
    (src : GLTFSrc) (d : pydict) (m : DXSpec_Material) :
  GLTF.GLTF_Material_init json = Ok obj ->
  dict_get json "alphaCuttoff" = None ->
  py_eq_str (get_or json "alphaMode" (PStr "OPAQUE")) "MASK" = false ->
  dict_get d "blend_mode" = Some (PStr "MASK") ->
  dict_get d "alpha_cutoff" = None ->
  DXSpec_Material_init obj src (Some d) = Ok m ->
  blend_mode m = "MASK" /\ alpha_cutoff m = PNone
  /\ forall t x, Dxtf.DXTF_Material_init m t = Ok x ->
       exists out, Dxtf.as_nameless_dict x = Ok out
                   /\ dict_get out "alpha_cutoff" = Some PNone.
Proof.
  intros Hg Hkey Hmode Hbm Hac Hm.
  destruct (GLTF_Material_init_alpha json obj Hg) as [Ham Hcut].
  specialize (Hcut Hkey). rewrite Ham, Hmode in Hcut.
  destruct (scalar_fields_of_assembled obj src (Some d) m Hm) as (Hb & Ha & _).
  cbn [default from_option id] in Hb, Ha. unfold get_or in Hb, Ha.
  rewrite Hbm in Hb. rewrite Hac, Hcut in Ha. cbn in Hb, Ha.
  injection Hb as Hb. split; [congruence|]. split; [congruence|].
  intros t x Hx. destruct (DXTF_Material_init_scalars m t x Hx) as [Xb Xa].
  destruct (as_nameless_dict_mask x) as (out & Hout & Hget); [congruence|].
  exists out. split; [exact Hout|]. congruence.
Qed.

Lemma mask_override_null_cutoff_witness :
  blend_mode (Fixtures.assemble (Fixtures.bare "leaf") (Some [("blend_mode", PStr "MASK")]))
  = "MASK"
  /\ alpha_cutoff (Fixtures.assemble (Fixtures.bare "leaf")
                     (Some [("blend_mode", PStr "MASK")])) = PNone
  /\ forall t x,
       Dxtf.DXTF_Material_init
         (Fixtures.assemble (Fixtures.bare "leaf") (Some [("blend_mode", PStr "MASK")])) t
       = Ok x ->
       exists out, Dxtf.as_nameless_dict x = Ok out
                   /\ dict_get out "alpha_cutoff" = Some PNone.
Proof.
  exact (mask_override_null_cutoff [("name", PStr "leaf")] (Fixtures.bare "leaf")
           Fixtures.scene [("blend_mode", PStr "MASK")] _
           eq_refl eq_refl eq_refl eq_refl eq_refl eq_refl).
Defined.

(** ** The files named and the files made *)

Lemma Forall2_In_left {A B} (R : A -> B -> Prop) xs ys x :
  Forall2 R xs ys -> In x xs -> exists y, In y ys /\ R x y.
Proof.
  induction 1 as [|x0 y0 xs ys Hr _ IH]; intros Hin; [destruct Hin|].
  destruct Hin as [->|Hin].
  - exists y0. split; [now left | exact Hr].
  - destruct (IH Hin) as (y & Hy & Hxy). exists y. split; [now right | exact Hxy].
Qed.

Lemma Forall2_In_right {A B} (R : A -> B -> Prop) xs ys y :
  Forall2 R xs ys -> In y ys -> exists x, In x xs /\ R x y.
Proof.
  induction 1 as [|x0 y0 xs ys Hr _ IH]; intros Hin; [destruct Hin|].
  destruct Hin as [->|Hin].
  - exists x0. split; [now left | exact Hr].
  - destruct (IH Hin) as (x & Hx & Hxy). exists x. split; [now right | exact Hxy].
Qed.

Lemma key2list_nonempty (s : slot_kind) db k2l :
  foldM add_material db
    {| on_diffuse := []; on_normal := []; on_orm := []; on_emissive := [] |} = Ok k2l ->
  forall key vs, dict_get (at_slot s k2l) key = Some vs -> vs <> [].
Proof.
  intros H.
  apply (foldM_invariant add_material
           (fun _ st => forall key vs, dict_get (at_slot s st) key = Some vs -> vs <> [])
           db {| on_diffuse := []; on_normal := []; on_orm := []; on_emissive := [] |}
           k2l); [| |exact H].
  - intros key vs Hg. destruct s; discriminate.
  - intros _ [name0 m0] s1 s2 IH Hadd key vs.
    apply (add_material_slot s) in Hadd as (ok0 & _ & ->).
    destruct ok0 as [key0|]; [|apply IH].
    rewrite key2list_append_get. destruct (decide (key0 = key)); [|apply IH].
    intros [= <-]. now destruct (default [] (dict_get (at_slot s s1) key0)).
Qed.

Lemma tex2dds_for_writes path settings x t :
  tex2dds_for path settings x t -> writes path t (fst (snd x)).
Proof.
  intros (srgb & _ & Hinit).
  pose proof (DXTF_Tex2DDS_init_cases (fst (snd x)) (snd (snd x)) path srgb) as H.
  rewrite Hinit in H. apply H.
Qed.

Lemma named_textures_In c s n key :
  In (s, (n, key)) (named_textures c) <-> In (n, key) (at_slot s (str2key c)).
Proof.
  unfold named_textures. rewrite in_flat_map. split.
  - intros (s' & _ & Hin). apply in_map_iff in Hin as (x & [= <- <-] & Hin). exact Hin.
  - intros Hin. exists s. split; [destruct s; simpl; tauto|].
    apply in_map_iff. now exists (n, key).
Qed.

Lemma table_entry_key kc c t s name n :
  compose_names (at_slot s (key2str c)) (at_slot s (keys_str2key kc)) = Ok (at_slot s t) ->
  dict_get (at_slot s t) name = Some n ->
  exists key, dict_get (at_slot s (keys_str2key kc)) name = Some key
              /\ dict_get (at_slot s (key2str c)) key = Some n.
Proof.
  intros Hcomp Hn.
  assert (Hin : In name (dict_keys (at_slot s (keys_str2key kc)))).
  { rewrite <- (compose_names_keys _ _ _ Hcomp).
    apply dict_mem_keys. unfold dict_mem. now rewrite Hn. }
  apply dict_mem_keys in Hin. unfold dict_mem in Hin.
  destruct (dict_get (at_slot s (keys_str2key kc)) name) as [key|] eqn:Hkey; [|discriminate].
  destruct (compose_names_get _ _ _ _ _ Hcomp Hkey) as (n' & Hn' & Hn'').
  exists key. split; [reflexivity | congruence].
Qed.

Lemma mat2texture_slots kc c t :
  DXSpec_Mat2TextureContainer_init kc c = Ok t ->
  forall s, compose_names (at_slot s (key2str c)) (at_slot s (keys_str2key kc))
            = Ok (at_slot s t).
Proof.
  unfold DXSpec_Mat2TextureContainer_init. intros H.
  apply bind_Ok in H as (d & Hd & H). apply bind_Ok in H as (n & Hn & H).
  apply bind_Ok in H as (o & Ho & H). apply bind_Ok in H as (e & He & [= <-]).
  intros []; assumption.
Qed.

(** X22: in a run, every file name without a dollar sign that the table of
    a slot kind gives a material is written by a conversion spec of the
    list, made from the key of the material for this slot kind with the
    [srgb] setting of the slot kind; every conversion spec of the list is
    made in this way for a name that the table of some slot kind gives some
    material; and the list has one conversion spec for each name without a
    dollar sign of each slot kind.  A name with a dollar sign, a default
    name or not, gets none. *)
Theorem textures_made_and_used (db : list (string * DXSpec_Material))
    (kc : DXSpec_TextureKeysContainer) (c : DXSpec_TextureSpecContainer)
    (t : PerSlot (list (string * string))) (dx_textures_path : string)
    (tex2dds_settings : pyval) (l : list Dxtf.DXTF_Tex2DDS) :
  NoDup (dict_keys db) ->
  DXSpec_TextureKeysContainer_init db = Ok kc ->
  DXSpec_TextureSpecContainer_init kc = Ok c ->
  DXSpec_Mat2TextureContainer_init kc c = Ok t ->
  Dxtf.tex2dds_list_from_texture_specs c dx_textures_path tex2dds_settings = Dxtf.Done l ->
  (forall s name n,
     dict_get (at_slot s t) name = Some n -> Dxtf.contains_dollar n = false ->
     exists key x,
       dict_get (at_slot s (keys_str2key kc)) name = Some key
       /\ In x l
       /\ tex2dds_for dx_textures_path tex2dds_settings (s, (n, key)) x
       /\ writes dx_textures_path x n)
  /\ (forall x, In x l ->
        exists s name n key,
          dict_get (at_slot s t) name = Some n /\ Dxtf.contains_dollar n = false
          /\ dict_get (at_slot s (keys_str2key kc)) name = Some key
          /\ tex2dds_for dx_textures_path tex2dds_settings (s, (n, key)) x
          /\ writes dx_textures_path x n)
  /\ length l
     = length (List.filter (fun x => negb (Dxtf.contains_dollar (fst (snd x))))
                 (named_textures c)).
Proof.
  intros Hnd Hkc Hc Ht Hl.
  pose proof (mat2texture_slots kc c t Ht) as Hcomp.
  apply tex2dds_list_Done in Hl.
  split; [|split].
  - intros s name n Hn Hd.
    destruct (table_entry_key kc c t s name n (Hcomp s) Hn) as (key & Hkey & Hout).
    destruct (texture_spec_container_names kc c s Hc) as (Hinv & _ & _).
    apply Hinv in Hout. apply dict_get_Some_In in Hout.
    assert (Hin : In (s, (n, key))
              (List.filter (fun x => negb (Dxtf.contains_dollar (fst (snd x))))
                 (named_textures c))).
    { apply filter_In. split; [now apply named_textures_In|]. cbn [fst snd]. now rewrite Hd. }
    destruct (Forall2_In_left _ _ _ _ Hl Hin) as (x & Hx & Hfor).
    exists key, x. split; [exact Hkey|]. split; [exact Hx|]. split; [exact Hfor|].
    exact (tex2dds_for_writes _ _ _ _ Hfor).
  - intros x Hx.
    destruct (Forall2_In_right _ _ _ _ Hl Hx) as ([s [n key]] & Hin & Hfor).
    apply filter_In in Hin as [Hin Hd]. cbn [fst snd] in Hd. apply negb_true_iff in Hd.
    apply named_textures_In in Hin.
    pose proof (texture_spec_container_slot kc c s Hc) as Hfold.
    unfold fold_names in Hfold. apply fold_names_NoDup in Hfold as [Hnd1 _].
    apply (dict_get_In_NoDup _ _ _ Hnd1) in Hin.
    destruct (texture_spec_container_names kc c s Hc) as (Hinv & Hkeys & _).
    apply Hinv in Hin.
    assert (Hk : In key (dict_keys (at_slot s (key2list kc)))) by (apply Hkeys; eauto).
    apply dict_mem_keys in Hk. unfold dict_mem in Hk.
    destruct (dict_get (at_slot s (key2list kc)) key) as [vs|] eqn:Hvs; [|discriminate].
    destruct (keys_container_fold db kc Hkc) as [Hfold _].
    pose proof (key2list_nonempty s db (key2list kc) Hfold key vs Hvs) as Hne.
    destruct vs as [|name vs]; [congruence|].
    destruct (keys_container_slot db kc s Hnd Hkc) as (Hget & _ & _).
    assert (Hname : dict_get (at_slot s (keys_str2key kc)) name = Some key).
    { apply Hget. exists (name :: vs). split; [exact Hvs | now left]. }
    destruct (compose_names_get _ _ _ _ _ (Hcomp s) Hname) as (n' & Hn' & Hn'').
    exists s, name, n, key. split; [congruence|]. split; [exact Hd|].
    split; [exact Hname|]. split; [exact Hfor|].
    exact (tex2dds_for_writes _ _ _ _ Hfor).
  - symmetry. clear -Hl. induction Hl; cbn [length]; congruence.
Qed.

Lemma textures_made_and_used_witness :
  exists kc c t l,
    DXSpec_TextureKeysContainer_init Fixtures.db_shared = Ok kc
    /\ DXSpec_TextureSpecContainer_init kc = Ok c
    /\ DXSpec_Mat2TextureContainer_init kc c = Ok t
    /\ Dxtf.tex2dds_list_from_texture_specs c "textures" Fixtures.tex2dds_settings
       = Dxtf.Done l
    /\ length l = 1%nat
    /\ (forall x, In x l ->
          exists s name n key,
            dict_get (at_slot s t) name = Some n /\ Dxtf.contains_dollar n = false
            /\ dict_get (at_slot s (keys_str2key kc)) name = Some key
            /\ tex2dds_for "textures" Fixtures.tex2dds_settings (s, (n, key)) x
            /\ writes "textures" x n).
Proof.
  eexists _, _, _, _. split; [reflexivity|].
  lazymatch goal with
  | |- DXSpec_TextureSpecContainer_init ?kc = _ /\ _ =>
      split; [reflexivity|]; split; [reflexivity|]; split; [reflexivity|];
      split; [reflexivity|];
      refine (proj1 (proj2 (textures_made_and_used Fixtures.db_shared kc _ _ "textures"
                       Fixtures.tex2dds_settings _ _ eq_refl eq_refl eq_refl eq_refl)));
      apply NoDup_two_names; discriminate
  end.
Defined.

(** A source image whose name has a dollar sign: the material is given the
    file name [cash$.dds], and no conversion spec is made for it. *)
Example dollar_in_file_name_skipped :
  exists m kc c t,
    DXSpec_Material_init (Fixtures.textured "coin" "OPAQUE" 0) Fixtures.scene_dollar None
    = Ok m
    /\ DXSpec_TextureKeysContainer_init [("coin", m)] = Ok kc
    /\ DXSpec_TextureSpecContainer_init kc = Ok c
    /\ DXSpec_Mat2TextureContainer_init kc c = Ok t
    /\ dict_get (on_diffuse t) "coin" = Some "cash$.dds"
    /\ Dxtf.tex2dds_list_from_texture_specs c "textures" Fixtures.tex2dds_settings
       = Dxtf.Done [].
Proof. do 4 eexists. repeat (split; [reflexivity|]). reflexivity. Qed.

(* ===================================================================== *)
(** * The structure file                                                  *)
(* ===================================================================== *)

(** ** [str.replace] *)

Lemma replace_from_no_dot new f rest :
  (forall c, In c (list_ascii_of_string f) -> c <> "."%char) ->
  SrcDxtf.replace_from ".comp.bin" new (f ++ rest) 0
  = f ++ SrcDxtf.replace_from ".comp.bin" new rest 0.
Proof.
  induction f as [|c f IH]; intros H; [reflexivity|].
  change (String c f ++ rest) with (String c (f ++ rest)).
  change (String c f ++ SrcDxtf.replace_from ".comp.bin" new rest 0)
    with (String c (f ++ SrcDxtf.replace_from ".comp.bin" new rest 0)).
  cbn [SrcDxtf.replace_from].
  assert (Hc : c <> "."%char) by (apply H; now left).
  assert (Hp : String.prefix ".comp.bin" (String c (f ++ rest)) = false).
  { cbn [String.prefix]. destruct (Ascii.ascii_dec "." c) as [E|_]; [|reflexivity].
    now destruct Hc. }
  rewrite Hp. f_equal. apply IH. intros c' Hc'. apply H. now right.
Qed.

Lemma str_append_nil_r (s : string) : s ++ "" = s.
Proof.
  induction s as [|c s IH]; [reflexivity|].
  change (String c s ++ "") with (String c (s ++ "")). now rewrite IH.
Qed.

Lemma str_replace_suffix f :
  (forall c, In c (list_ascii_of_string f) -> c <> "."%char) ->
  SrcDxtf.str_replace ".comp.bin" ".dxtf_mdl" (f ++ ".comp.bin") = f ++ ".dxtf_mdl"
  /\ SrcDxtf.str_replace ".comp.bin" ".dxtf_mdl" f = f.
Proof.
  intros H. unfold SrcDxtf.str_replace. split.
  - rewrite replace_from_no_dot by exact H. reflexivity.
  - rewrite <- (str_append_nil_r f) at 1.
    rewrite replace_from_no_dot by exact H. apply str_append_nil_r.
Qed.

(** ** The two loops *)

Lemma fold_pop_keeps_name ks v d :
  fold_left SrcDxtf.pop_unless_name ks (("name", v) :: d)
  = ("name", v) :: fold_left SrcDxtf.pop_unless_name ks d.
Proof.
  revert d. induction ks as [|k ks IH]; intros d; [reflexivity|].
  cbn [fold_left]. unfold SrcDxtf.pop_unless_name at 2 4.
  destruct (String.eqb k "name") eqn:E; cbn [negb]; [apply IH|].
  cbn [dict_del]. destruct (decide ("name" = k)) as [<-|_]; [discriminate E|apply IH].
Qed.

Lemma strip_material_only_name d :
  fold_left SrcDxtf.pop_unless_name (dict_keys d) d = only_name d.
Proof.
  unfold only_name, dict_keys. induction d as [|[k v] d IH]; [reflexivity|].
  cbn [map fst fold_left List.filter]. unfold SrcDxtf.pop_unless_name at 2.
  destruct (String.eqb k "name") eqn:E; cbn [negb].
  - apply String.eqb_eq in E as ->. rewrite fold_pop_keeps_name. now rewrite IH.
  - cbn [dict_del]. destruct (decide (k = k)); [exact IH | congruence].
Qed.

Lemma strip_material_spec mat mat' :
  SrcDxtf.strip_material mat = Ok mat' <-> stripped mat mat'.
Proof.
  unfold SrcDxtf.strip_material, stripped. split.
  - destruct mat; try discriminate. intros [= <-]. eexists. split; [reflexivity|].
    now rewrite strip_material_only_name.
  - intros (d & -> & ->). now rewrite strip_material_only_name.
Qed.

Lemma rename_buffer_spec b b' :
  SrcDxtf.rename_buffer b = Ok b' <-> renamed b b'.
Proof.
  unfold SrcDxtf.rename_buffer, renamed. split.
  - destruct b as [| | | | | | |d]; try discriminate.
    destruct (dict_get d "uri") as [[]|] eqn:E; try discriminate.
    intros [= <-]. eauto.
  - intros (d & u & -> & -> & ->). reflexivity.
Qed.

Lemma mapM_Ok_iff {A B} (f : A -> result B) (R : A -> B -> Prop) xs ys :
  (forall x y, f x = Ok y <-> R x y) ->
  mapM f xs = Ok ys <-> Forall2 R xs ys.
Proof.
  intros H. revert ys. induction xs as [|x xs IH]; intros ys; cbn [mapM].
  - split; [intros [= <-]; constructor | now inversion 1].
  - split.
    + intros Hb. apply bind_Ok in Hb as (y & Hy & Hb).
      apply bind_Ok in Hb as (ys' & Hys & [= <-]).
      constructor; [now apply H | now apply IH].
    + inversion 1 as [|? y ? ys' Hr Hall]; subst.
      apply H in Hr. apply IH in Hall. now rewrite Hr, Hall.
Qed.

Lemma as_dxtf_unfold self d bs ms :
  data self = PDict d ->
  dict_get d "buffers" = Some (PList bs) ->
  dict_get d "materials" = Some (PList ms) ->
  SrcDxtf.as_dxtf self =
    (bs' <- mapM SrcDxtf.rename_buffer bs ;;
     ms' <- mapM SrcDxtf.strip_material ms ;;
     Ok (PDict (dict_set (dict_set
           (dict_del (dict_del (dict_del d "textures") "images") "samples")
           "buffers" (PList bs')) "materials" (PList ms')))).
Proof.
  intros Hd Hb Hm. unfold SrcDxtf.as_dxtf. rewrite Hd.
  cbn [py_getitem]. rewrite !dict_get_del_ne, Hb by discriminate.
  cbn [bind SrcDxtf.for_each].
  destruct (mapM SrcDxtf.rename_buffer bs) as [bs'|e]; cbn [bind]; [|reflexivity].
  cbn [py_getitem]. rewrite !dict_get_set_ne, !dict_get_del_ne, Hm by discriminate.
  cbn [bind SrcDxtf.for_each].
  destruct (mapM SrcDxtf.strip_material ms) as [ms'|e]; reflexivity.
Qed.

Lemma as_dxtf_lists self d bs ms out :
  data self = PDict d ->
  dict_get d "buffers" = Some (PList bs) ->
  dict_get d "materials" = Some (PList ms) ->
  SrcDxtf.as_dxtf self = Ok out <->
  exists bs' ms',
    Forall2 renamed bs bs' /\ Forall2 stripped ms ms'
    /\ out = PDict (dict_set (dict_set
               (dict_del (dict_del (dict_del d "textures") "images") "samples")
               "buffers" (PList bs')) "materials" (PList ms')).
Proof.
  intros Hd Hb Hm. rewrite (as_dxtf_unfold self d bs ms Hd Hb Hm). split.
  - intros H. apply bind_Ok in H as (bs' & Hbs & H).
    apply bind_Ok in H as (ms' & Hms & [= <-]).
    exists bs', ms'. split; [|split; [|reflexivity]].
    + now apply (mapM_Ok_iff _ _ _ _ rename_buffer_spec).
    + now apply (mapM_Ok_iff _ _ _ _ strip_material_spec).
  - intros (bs' & ms' & H1 & H2 & ->).
    apply (mapM_Ok_iff _ _ _ _ rename_buffer_spec) in H1.
    apply (mapM_Ok_iff _ _ _ _ strip_material_spec) in H2.
    rewrite H1. cbn [bind]. rewrite H2. reflexivity.
Qed.

(** X19: the structure [as_dxtf] returns keeps every top-level entry of the
    compressed document except [textures], [images] and [samples], which it
    drops; each buffer keeps its entries with [.comp.bin] replaced by
    [.dxtf_mdl] in its [uri], and each material is reduced to its [name]
    entry. *)
Theorem as_dxtf_contents self d bs ms out :
  data self = PDict d -> NoDup (dict_keys d) ->
  dict_get d "buffers" = Some (PList bs) ->
  dict_get d "materials" = Some (PList ms) ->
  SrcDxtf.as_dxtf self = Ok out ->
  exists o bs' ms',
    out = PDict o
    /\ (forall k, In k ["textures"; "images"; "samples"] -> dict_get o k = None)
    /\ (forall k, ~ In k ["textures"; "images"; "samples"; "buffers"; "materials"] ->
        dict_get o k = dict_get d k)
    /\ dict_get o "buffers" = Some (PList bs') /\ Forall2 renamed bs bs'
    /\ dict_get o "materials" = Some (PList ms') /\ Forall2 stripped ms ms'.
Proof.
  intros Hd Hnd Hb Hm H.
  apply (as_dxtf_lists self d bs ms out Hd Hb Hm) in H as (bs' & ms' & H1 & H2 & ->).
  eexists _, bs', ms'. split; [reflexivity|].
  split; [|split; [|split; [|split; [|split]]]]; try assumption.
  - intros k Hk. rewrite !dict_get_set_ne
      by (intros <-; cbn in Hk; intuition discriminate).
    cbn in Hk. destruct Hk as [<-|[<-|[<-|[]]]].
    + rewrite !dict_get_del_ne by discriminate. now apply dict_get_del_eq.
    + rewrite dict_get_del_ne by discriminate. apply dict_get_del_eq.
      now apply dict_del_NoDup.
    + apply dict_get_del_eq. now do 2 apply dict_del_NoDup.
  - intros k Hk. cbn in Hk.
    rewrite !dict_get_set_ne, !dict_get_del_ne by (intros <-; tauto). reflexivity.
  - rewrite dict_get_set_ne by discriminate. apply dict_get_set_eq.
  - apply dict_get_set_eq.
Qed.

Lemma as_dxtf_contents_witness :
  exists o bs' ms',
    Ok (PDict
          [("asset", PDict [("version", PStr "2.0")]);
           ("buffers", PList [PDict [("uri", PStr "scene.dxtf_mdl"); ("byteLength", PInt 96)]]);
           ("samplers", PList [PDict [("magFilter", PInt 9729)]]);
           ("materials", PList [PDict [("name", PStr "wood")]; PDict [("name", PStr "glass")]])])
      = Ok (PDict o)
    /\ dict_get o "samplers" = Some (PList [PDict [("magFilter", PInt 9729)]])
    /\ dict_get o "images" = None
    /\ Forall2 renamed
         [PDict [("uri", PStr "scene.comp.bin"); ("byteLength", PInt 96)]] bs'
    /\ Forall2 stripped
         [PDict [("name", PStr "wood");
                 ("pbrMetallicRoughness",
                  PDict [("baseColorTexture", PDict [("index", PInt 0)])])];
          PDict [("doubleSided", PBool true); ("name", PStr "glass")]] ms'.
Proof.
  destruct (as_dxtf_contents Fixtures.packed Fixtures.packed_json _ _ _ eq_refl
              (proj1 (well_formed_dict Fixtures.packed_json eq_refl))
              eq_refl eq_refl eq_refl)
    as (o & bs' & ms' & E & Hdrop & Hkeep & _ & Hb & _ & Hm).
  exists o, bs', ms'. split; [exact (f_equal Ok E)|]. split; [|split; [|split]].
  - rewrite Hkeep; [reflexivity|]. cbn. intuition discriminate.
  - apply Hdrop. cbn. tauto.
  - exact Hb.
  - exact Hm.
Defined.

(** X20: on a document with a list of buffers and a list of materials,
    [as_dxtf] returns exactly when every buffer is an object whose [uri] is
    a string and every material is an object; a document without [buffers]
    ends in [KeyError], and one without [materials] in an exception. *)
Theorem as_dxtf_succeeds_iff self d :
  data self = PDict d ->
  (forall bs ms,
      dict_get d "buffers" = Some (PList bs) ->
      dict_get d "materials" = Some (PList ms) ->
      (exists out, SrcDxtf.as_dxtf self = Ok out)
      <-> Forall has_str_uri bs /\ Forall is_dict ms)
  /\ (dict_get d "buffers" = None -> SrcDxtf.as_dxtf self = Raise KeyError)
  /\ (dict_get d "materials" = None -> exists e, SrcDxtf.as_dxtf self = Raise e).
Proof.
  intros Hd. split; [|split].
  - intros bs ms Hb Hm. split.
    + intros (out & H).
      apply (as_dxtf_lists self d bs ms out Hd Hb Hm) in H as (bs' & ms' & H1 & H2 & _).
      split.
      * clear -H1. induction H1 as [|b b' ? ? (db & u & -> & Hu & _)]; constructor;
          [now exists db, u | assumption].
      * clear -H2. induction H2 as [|m m' ? ? (dm & -> & _)]; constructor;
          [now exists dm | assumption].
    + intros [H1 H2].
      assert (exists bs', Forall2 renamed bs bs') as (bs' & Hbs).
      { clear -H1. induction H1 as [|b bs (db & u & -> & Hu) _ (bs' & IH)].
        - exists []. constructor.
        - eexists (_ :: bs'). constructor; [|exact IH]. exists db, u. eauto. }
      assert (exists ms', Forall2 stripped ms ms') as (ms' & Hms).
      { clear -H2. induction H2 as [|m ms (dm & ->) _ (ms' & IH)].
        - exists []. constructor.
        - eexists (_ :: ms'). constructor; [|exact IH]. exists dm. eauto. }
      eexists. apply (as_dxtf_lists self d bs ms _ Hd Hb Hm). eauto.
  - intros Hb. unfold SrcDxtf.as_dxtf. rewrite Hd. cbn [py_getitem].
    rewrite !dict_get_del_ne, Hb by discriminate. reflexivity.
  - intros Hm. unfold SrcDxtf.as_dxtf. rewrite Hd.
    match goal with |- exists e, bind ?m _ = _ => destruct m as [v|e] end;
      cbn [bind]; [|eauto].
    match goal with |- exists e, bind ?m _ = _ => destruct m as [v'|e] end;
      cbn [bind]; [|eauto].
    cbn [py_getitem]. rewrite !dict_get_set_ne, !dict_get_del_ne, Hm by discriminate.
    cbn [bind]. eauto.
Qed.

Lemma as_dxtf_succeeds_iff_witness :
  exists out, SrcDxtf.as_dxtf Fixtures.packed = Ok out.
Proof.
  destruct (as_dxtf_succeeds_iff Fixtures.packed _ eq_refl) as [H _].
  apply (H _ _ eq_refl eq_refl). split.
  - repeat constructor. eexists _, _. split; reflexivity.
  - repeat constructor; eexists; reflexivity.
Defined.

(** X21: a buffer whose [uri] is [<file>.comp.bin], for a file name without a
    dot, gets the [uri] [<file>.dxtf_mdl]; a [uri] without a dot is left
    as it is. *)
Theorem rename_buffer_suffix d f :
  (forall c, In c (list_ascii_of_string f) -> c <> "."%char) ->
  (dict_get d "uri" = Some (PStr (f ++ ".comp.bin")) ->
   SrcDxtf.rename_buffer (PDict d) = Ok (PDict (dict_set d "uri" (PStr (f ++ ".dxtf_mdl")))))
  /\ (dict_get d "uri" = Some (PStr f) ->
      SrcDxtf.rename_buffer (PDict d) = Ok (PDict (dict_set d "uri" (PStr f)))).
Proof.
  intros H. destruct (str_replace_suffix f H) as [E1 E2].
  unfold SrcDxtf.rename_buffer. split; intros ->; now rewrite ?E1, ?E2.
Qed.

Lemma rename_buffer_suffix_witness :
  SrcDxtf.rename_buffer (PDict [("uri", PStr "scene.comp.bin"); ("byteLength", PInt 96)])
  = Ok (PDict [("uri", PStr "scene.dxtf_mdl"); ("byteLength", PInt 96)]).
Proof.
  refine (proj1 (rename_buffer_suffix
                   [("uri", PStr "scene.comp.bin"); ("byteLength", PInt 96)] "scene" _) eq_refl).
  cbn. intros c H. intuition (subst; discriminate).
Defined.

(* ===================================================================== *)
(** * Override merge, in place                                            *)
(* ===================================================================== *)

Local Open Scope nat_scope.

Lemma NoDup_app_In {A} (l k : list A) :
  NoDup (l ++ k) <-> NoDup l /\ (forall x, In x l -> ~ In x k) /\ NoDup k.
Proof. rewrite NoDup_app. setoid_rewrite list_elem_of_In. reflexivity. Qed.

Lemma NoDup_cons_In {A} (x : A) (l : list A) :
  NoDup (x :: l) <-> ~ In x l /\ NoDup l.
Proof. rewrite NoDup_cons. setoid_rewrite list_elem_of_In. reflexivity. Qed.

Lemma items_value_ext f g items :
  (forall kv, In kv items -> f (snd kv) = g (snd kv)) ->
  items_value f items = items_value g items.
Proof.
  induction items as [|[k hv] items IH]; intros H; simpl; [reflexivity|].
  pose proof (H (k, hv) (or_introl eq_refl)) as E. simpl in E. rewrite E.
  rewrite IH by (intros; apply H; now right).
  reflexivity.
Qed.

Lemma flat_map_ext_In {A B} (f g : A -> list B) l :
  (forall x, In x l -> f x = g x) -> flat_map f l = flat_map g l.
Proof.
  induction l as [|x l IH]; intros H; simpl; [reflexivity|].
  rewrite (H x) by now left. rewrite IH by (intros; apply H; now right). reflexivity.
Qed.

Lemma items_value_Some f items d :
  items_value f items = Some d ->
  forall kv, In kv items -> exists v, f (snd kv) = Some v.
Proof.
  revert d. induction items as [|[k hv] items IH]; intros d H kv Hin; [destruct Hin|].
  simpl in H. destruct (f hv) as [v|] eqn:Ev; [|discriminate].
  destruct (items_value f items) as [d'|] eqn:Ed; [|discriminate].
  destruct Hin as [<-|Hin]; [eauto | eapply IH; eauto].
Qed.

(** A store that agrees with [s] on the objects reachable from a value
    gives it the same value and the same reachable objects. *)
Lemma value_at_frame n : forall s s' hv,
  (forall l, In l (cells n s hv) -> s' !! l = s !! l) ->
  value_at n s' hv = value_at n s hv /\ cells n s' hv = cells n s hv.
Proof.
  induction n as [|n IH]; intros s s' [v|l] H; simpl; auto.
  simpl in H. rewrite (H l) by now left.
  destruct (s !! l) as [items|] eqn:El; [|auto].
  assert (Hc : forall kv, In kv items ->
                 value_at n s' (snd kv) = value_at n s (snd kv)
                 /\ cells n s' (snd kv) = cells n s (snd kv)).
  { intros kv Hin. apply IH. intros l' Hl'. apply H. right.
    apply in_flat_map. eauto. }
  split.
  - f_equal. apply items_value_ext. intros kv Hin. now apply Hc.
  - f_equal. apply flat_map_ext_In. intros kv Hin. now apply Hc.
Qed.

(** The objects reachable from a value that has a value are allocated. *)
Lemma cells_valid n : forall s hv v,
  value_at n s hv = Some v -> forall l, In l (cells n s hv) -> l < length s.
Proof.
  induction n as [|n IH]; intros s [x|l] v H l' Hl'; simpl in *; try tauto.
  destruct (s !! l) as [items|] eqn:El; [|discriminate].
  destruct Hl' as [<-|Hl']; [now apply lookup_lt_Some in El|].
  destruct (items_value (value_at n s) items) as [d|] eqn:Ed; [|discriminate].
  apply in_flat_map in Hl' as (kv & Hin & Hl').
  destruct (items_value_Some _ _ _ Ed kv Hin) as [v' Hv'].
  eapply IH; eauto.
Qed.

Lemma value_at_agree n s s' hv v :
  value_at n s hv = Some v ->
  (forall l, l < length s -> In l (cells n s hv) -> s' !! l = s !! l) ->
  value_at n s' hv = Some v /\ cells n s' hv = cells n s hv.
Proof.
  intros Hv H.
  destruct (value_at_frame n s s' hv) as [H1 H2].
  { intros l Hl. apply H; [|exact Hl]. eapply cells_valid; eauto. }
  split; congruence.
Qed.

Lemma value_at_extend n s ext hv v :
  value_at n s hv = Some v ->
  value_at n (s ++ ext) hv = Some v /\ cells n (s ++ ext) hv = cells n s hv.
Proof.
  intros Hv. apply value_at_agree; [exact Hv|].
  intros l Hl _. now apply lookup_app_l.
Qed.

Lemma items_value_agree n s s' (items : hdict) d :
  items_value (value_at n s) items = Some d ->
  (forall l, l < length s ->
     In l (flat_map (fun kv => cells n s (snd kv)) items) -> s' !! l = s !! l) ->
  items_value (value_at n s') items = Some d
  /\ flat_map (fun kv => cells n s' (snd kv)) items
     = flat_map (fun kv => cells n s (snd kv)) items.
Proof.
  intros Hd H.
  assert (Hc : forall kv, In kv items ->
                 value_at n s' (snd kv) = value_at n s (snd kv)
                 /\ cells n s' (snd kv) = cells n s (snd kv)).
  { intros kv Hin.
    destruct (items_value_Some _ _ _ Hd kv Hin) as [v Hv].
    destruct (value_at_agree n s s' (snd kv) v Hv) as [H1 H2].
    - intros l Hl Hl'. apply H; [exact Hl|]. apply in_flat_map. eauto.
    - split; congruence. }
  split.
  - rewrite <- Hd. apply items_value_ext. intros kv Hin. now apply Hc.
  - apply flat_map_ext_In. intros kv Hin. now apply Hc.
Qed.

Lemma items_cells_valid n s (items : hdict) d :
  items_value (value_at n s) items = Some d ->
  forall l, In l (flat_map (fun kv => cells n s (snd kv)) items) -> l < length s.
Proof.
  intros Hd l Hl. apply in_flat_map in Hl as (kv & Hin & Hl).
  destruct (items_value_Some _ _ _ Hd kv Hin) as [v Hv].
  eapply cells_valid; eauto.
Qed.

Lemma copy_items_spec n
  (IHn : forall s hv v, value_at n s hv = Some v ->
     exists ext hv', deepcopy n s hv = Some ((s ++ ext)%list, hv')
                     /\ fresh_copy n s (s ++ ext)%list hv' v) :
  forall (items : hdict) s d,
    items_value (value_at n s) items = Some d ->
    exists ext items',
      copy_items (deepcopy n) s items = Some ((s ++ ext)%list, items')
      /\ fresh_items n s (s ++ ext)%list items' d.
Proof.
  induction items as [|[k hv] rest IH]; intros s d Hd.
  - exists [], []. rewrite app_nil_r. simpl in *. inversion Hd; subst.
    repeat split; [constructor | intros l []].
  - simpl in Hd.
    destruct (value_at n s hv) as [v|] eqn:Ev; [|discriminate].
    destruct (items_value (value_at n s) rest) as [d'|] eqn:Er; [|discriminate].
    inversion Hd; subst d; clear Hd.
    destruct (IHn s hv v Ev) as (ea & hv' & Hc & Hv' & Hnd & Hfr).
    destruct (items_value_agree n s (s ++ ea)%list rest d' Er) as [Er' _].
    { intros l Hl _. now apply lookup_app_l. }
    destruct (IH (s ++ ea)%list d' Er') as (eb & rest' & Hcr & Hvr & Hndr & Hfrr).
    exists (ea ++ eb)%list, ((k, hv') :: rest').
    rewrite app_assoc. split; [simpl; rewrite Hc, Hcr; reflexivity|].
    destruct (value_at_extend n (s ++ ea)%list eb hv' v Hv') as [Hv'' Hcl].
    split; [simpl; rewrite Hv'', Hvr; reflexivity|].
    split.
    + simpl. rewrite Hcl. apply NoDup_app_In. split; [exact Hnd|].
      split; [|exact Hndr].
      intros l Hl Hl'. apply Hfrr in Hl'.
      pose proof (cells_valid _ _ _ _ Hv' l Hl). lia.
    + simpl. intros l Hl. apply in_app_iff in Hl as [Hl|Hl].
      * rewrite Hcl in Hl. now apply Hfr.
      * apply Hfrr in Hl. rewrite length_app in Hl. lia.
Qed.

(** [copy.deepcopy] of a value of the store succeeds, extends the store
    and returns a copy. *)
Lemma deepcopy_spec n : forall s hv v,
  value_at n s hv = Some v ->
  exists ext hv', deepcopy n s hv = Some ((s ++ ext)%list, hv')
                  /\ fresh_copy n s (s ++ ext)%list hv' v.
Proof.
  induction n as [|n IHn]; intros s [x|l] v Hv; try discriminate.
  - exists [], (HLit x). rewrite app_nil_r.
    repeat split; [exact Hv | constructor | intros l []].
  - exists [], (HLit x). rewrite app_nil_r.
    repeat split; [exact Hv | constructor | intros l []].
  - simpl in Hv. simpl deepcopy.
    destruct (s !! l) as [items|] eqn:El; [|discriminate].
    destruct (items_value (value_at n s) items) as [d|] eqn:Ed; [|discriminate].
    inversion Hv; subst v; clear Hv.
    destruct (copy_items_spec n IHn items s d Ed) as (ext & items' & Hc & Hv & Hnd & Hfr).
    exists (ext ++ [items'])%list, (HRef (length (s ++ ext)%list)).
    rewrite Hc, app_assoc. split; [reflexivity|].
    destruct (items_value_agree n (s ++ ext)%list ((s ++ ext) ++ [items'])%list
                items' d Hv) as [Hv' Hcl].
    { intros l' Hl' _. now apply lookup_app_l. }
    unfold fresh_copy. simpl.
    rewrite list_lookup_middle by reflexivity.
    rewrite Hv', Hcl. split; [reflexivity|]. split.
    + apply NoDup_cons_In. split; [|exact Hnd].
      intros Hin. pose proof (items_cells_valid _ _ _ _ Hv _ Hin). lia.
    + intros l' [<-|Hl']; [rewrite length_app; lia | now apply Hfr].
Qed.

(** ** One object, one key *)

Lemma items_value_get f (aobj : hdict) a k :
  items_value f aobj = Some a ->
  dict_get a k = match dict_get aobj k with Some h => f h | None => None end.
Proof.
  revert a. induction aobj as [|[k0 h0] aobj IH]; intros a Ha; simpl in Ha.
  - inversion Ha. reflexivity.
  - destruct (f h0) as [v0|] eqn:E0; [|discriminate].
    destruct (items_value f aobj) as [a'|] eqn:Ea; [|discriminate].
    inversion Ha; subst a. simpl.
    destruct (decide (k0 = k)); [now rewrite E0 | now apply IH].
Qed.

Lemma dict_set_same (aobj : hdict) k h :
  dict_get aobj k = Some h -> dict_set aobj k h = aobj.
Proof.
  induction aobj as [|[k0 h0] aobj IH]; simpl; [discriminate|].
  destruct (decide (k0 = k)) as [->|Hne]; intros H.
  - now inversion H.
  - now rewrite IH.
Qed.

Lemma items_value_set f g (aobj : hdict) a k h' v :
  items_value f aobj = Some a ->
  g h' = Some v ->
  (forall kv, In kv (dict_del aobj k) -> g (snd kv) = f (snd kv)) ->
  items_value g (dict_set aobj k h') = Some (dict_set a k v).
Proof.
  intros Ha Hg. revert a Ha.
  induction aobj as [|[k0 h0] aobj IH]; intros a Ha Hfg; simpl in Ha.
  - inversion Ha. simpl. now rewrite Hg.
  - destruct (f h0) as [v0|] eqn:E0; [|discriminate].
    destruct (items_value f aobj) as [a'|] eqn:Ea; [|discriminate].
    inversion Ha; subst a. simpl in *.
    destruct (decide (k0 = k)) as [->|Hne]; simpl.
    + rewrite Hg, (items_value_ext g f aobj Hfg), Ea. reflexivity.
    + pose proof (Hfg (k0, h0) (or_introl eq_refl)) as E. simpl in E.
      rewrite E, E0, (IH a' eq_refl); [reflexivity|].
      intros kv Hin. apply Hfg. now right.
Qed.

Lemma cells_set_In (c c' : hval -> list nat) (aobj : hdict) k h' l :
  (forall kv, In kv (dict_del aobj k) -> c' (snd kv) = c (snd kv)) ->
  In l (cells_of c' (dict_set aobj k h'))
  <-> In l (c' h') \/ In l (cells_of c (dict_del aobj k)).
Proof.
  induction aobj as [|[k0 h0] aobj IH]; intros Hc; simpl in *.
  - rewrite app_nil_r. tauto.
  - destruct (decide (k0 = k)) as [->|Hne]; simpl; rewrite !in_app_iff.
    + rewrite (flat_map_ext_In _ _ aobj Hc). tauto.
    + pose proof (Hc (k0, h0) (or_introl eq_refl)) as E. simpl in E.
      rewrite E, IH by (intros; apply Hc; now right). tauto.
Qed.

Lemma cells_set_NoDup (c c' : hval -> list nat) (aobj : hdict) k h' :
  (forall kv, In kv (dict_del aobj k) -> c' (snd kv) = c (snd kv)) ->
  NoDup (c' h') ->
  NoDup (cells_of c (dict_del aobj k)) ->
  (forall l, In l (c' h') -> ~ In l (cells_of c (dict_del aobj k))) ->
  NoDup (cells_of c' (dict_set aobj k h')).
Proof.
  induction aobj as [|[k0 h0] aobj IH]; intros Hc Hh Hnd Hdj; simpl in *.
  - now rewrite app_nil_r.
  - destruct (decide (k0 = k)) as [->|Hne]; simpl in *.
    + rewrite (flat_map_ext_In _ _ aobj Hc).
      apply NoDup_app_In. auto.
    + pose proof (Hc (k0, h0) (or_introl eq_refl)) as E. simpl in E. rewrite E.
      apply NoDup_app_In in Hnd as (N1 & N2 & N3).
      apply NoDup_app_In. split; [exact N1|]. split.
      * intros l Hl Hl'.
        apply (cells_set_In c c' aobj k h' l) in Hl';
          [|intros; apply Hc; now right].
        destruct Hl' as [Hl'|Hl']; [|now apply (N2 l)].
        apply (Hdj l Hl'). apply in_app_iff. now left.
      * apply IH; [intros; apply Hc; now right | exact Hh | exact N3 |].
        intros l Hl Hl'. apply (Hdj l Hl). apply in_app_iff. now right.
Qed.

Lemma cells_del_In (c : hval -> list nat) (aobj : hdict) k l :
  In l (cells_of c (dict_del aobj k)) -> In l (cells_of c aobj).
Proof.
  induction aobj as [|[k0 h0] aobj IH]; simpl; [tauto|].
  destruct (decide (k0 = k)); simpl; rewrite !in_app_iff; tauto.
Qed.

Lemma cells_del_NoDup (c : hval -> list nat) (aobj : hdict) k :
  NoDup (cells_of c aobj) -> NoDup (cells_of c (dict_del aobj k)).
Proof.
  induction aobj as [|[k0 h0] aobj IH]; simpl; [tauto|].
  intros (N1 & N2 & N3)%NoDup_app_In.
  destruct (decide (k0 = k)); simpl; [exact N3|].
  apply NoDup_app_In. split; [exact N1|]. split; [|auto].
  intros l Hl Hl'. apply (N2 l Hl). eapply cells_del_In; eauto.
Qed.

Lemma cells_get (c : hval -> list nat) (aobj : hdict) k h :
  dict_get aobj k = Some h ->
  NoDup (cells_of c aobj) ->
  NoDup (c h)
  /\ forall l, In l (c h) ->
       In l (cells_of c aobj) /\ ~ In l (cells_of c (dict_del aobj k)).
Proof.
  induction aobj as [|[k0 h0] aobj IH]; simpl; [discriminate|].
  intros Hg (N1 & N2 & N3)%NoDup_app_In.
  destruct (decide (k0 = k)) as [->|Hne].
  - inversion Hg; subst h0. split; [exact N1|].
    intros l Hl. rewrite in_app_iff. split; [now left | now apply N2].
  - destruct (IH Hg N3) as [I1 I2]. split; [exact I1|].
    intros l Hl. destruct (I2 l Hl) as [J1 J2]. simpl. rewrite !in_app_iff.
    split; [now right|]. intros [Hl'|Hl']; [|tauto].
    now apply (N2 l Hl').
Qed.

(** ** One object of the store, one key written *)

Lemma object_update n (s s' : store) A (aobj : hdict) a k hv' v :
  s !! A = Some aobj ->
  items_value (value_at n s) aobj = Some a ->
  NoDup (A :: cells_of (cells n s) aobj) ->
  s' !! A = Some (dict_set aobj k hv') ->
  value_at n s' hv' = Some v ->
  NoDup (cells n s' hv') ->
  (forall l, In l (cells n s' hv') ->
     l <> A /\ ~ In l (cells_of (cells n s) (dict_del aobj k))) ->
  (forall l, In l (cells_of (cells n s) (dict_del aobj k)) -> s' !! l = s !! l) ->
  value_at (S n) s' (HRef A) = Some (PDict (dict_set a k v))
  /\ NoDup (cells (S n) s' (HRef A))
  /\ forall l, In l (cells (S n) s' (HRef A)) <->
       l = A \/ In l (cells n s' hv')
       \/ In l (cells_of (cells n s) (dict_del aobj k)).
Proof.
  intros HA Ha Hnd HA' Hv' Hnd' Hav Hfr.
  apply NoDup_cons_In in Hnd as [HnA Hnd].
  assert (Hc : forall kv, In kv (dict_del aobj k) ->
            value_at n s' (snd kv) = value_at n s (snd kv)
            /\ cells n s' (snd kv) = cells n s (snd kv)).
  { intros kv Hin. apply value_at_frame. intros l Hl. apply Hfr.
    apply in_flat_map; eauto. }
  assert (Hc' : forall kv, In kv (dict_del aobj k) ->
            cells n s' (snd kv) = cells n s (snd kv)) by (intros; now apply Hc).
  simpl. rewrite HA'.
  rewrite (items_value_set (value_at n s) (value_at n s') aobj a k hv' v Ha Hv')
    by (intros; now apply Hc).
  split; [reflexivity|]. split.
  - apply NoDup_cons_In. split.
    + intros Hin.
      apply (cells_set_In (cells n s) (cells n s') aobj k hv' A Hc') in Hin.
      destruct Hin as [Hin|Hin]; [apply Hav in Hin as [Hin _]; congruence|].
      apply HnA. exact (cells_del_In (cells n s) aobj k A Hin).
    + apply (cells_set_NoDup (cells n s)); auto.
      * now apply cells_del_NoDup.
      * intros l Hl. now apply Hav.
  - intros l.
    rewrite <- (cells_set_In (cells n s) (cells n s') aobj k hv' l Hc').
    split; intros [H|H]; auto.
Qed.

Lemma value_at_lit n s x v :
  value_at n s (HLit x) = Some v -> v = x /\ forall d, x <> PDict d.
Proof. destruct n, x; simpl; intros H; inversion H; split; congruence. Qed.

Lemma value_at_ref n s l v :
  value_at n s (HRef l) = Some v -> exists d, v = PDict d.
Proof.
  destruct n as [|n']; simpl; [discriminate|].
  destruct (s !! l) as [items|]; [|discriminate].
  destruct (items_value (value_at n' s) items) as [d|] eqn:Ed; [|discriminate].
  intros H; inversion H. eauto.
Qed.

Lemma merge_entry_plain (a : pydict) k v :
  (forall x y, dict_get a k = Some (PDict x) -> v = PDict y -> False) ->
  merge_entry a k v = dict_set a k v.
Proof.
  unfold merge_entry. intros H.
  destruct (dict_get a k) as [[]|]; try reflexivity.
  destruct v; try reflexivity. exfalso; eauto.
Qed.

Lemma assign_copy_spec n s A si ai k hv v :
  overwritten (S n) s A si ai ->
  value_at n si hv = Some v ->
  exists s1, assign_copy (deepcopy n) A si k hv = Some s1
             /\ overwritten (S n) s A s1 (dict_set ai k v).
Proof.
  intros (I1 & I2 & I3 & I4 & I5) Hv.
  assert (HA0 : In A (cells (S n) s (HRef A))) by (simpl; now left).
  unfold overwritten.
  remember (cells (S n) s (HRef A)) as CA0 eqn:ECA0. clear ECA0.
  simpl in I1, I2, I3.
  destruct (si !! A) as [aobj|] eqn:EA; [|discriminate].
  destruct (items_value (value_at n si) aobj) as [a'|] eqn:Ea; [|discriminate].
  inversion I1; subst a'; clear I1.
  pose proof (lookup_lt_Some _ _ _ EA) as HlA.
  destruct (deepcopy_spec n si hv v Hv) as (ext & hv' & Hc & Hv' & Hnd' & Hfr').
  unfold assign_copy. rewrite Hc, (lookup_app_l si ext A HlA), EA.
  eexists. split; [reflexivity|].
  set (s1 := <[A:=dict_set aobj k hv']> (si ++ ext)%list).
  assert (Hne : forall l, l <> A -> s1 !! l = (si ++ ext)%list !! l).
  { intros l Hl. unfold s1. now apply list_lookup_insert_ne. }
  destruct (value_at_frame n (si ++ ext)%list s1 hv') as [Hv1 Hc1].
  { intros l Hl. apply Hne. apply Hfr' in Hl. lia. }
  rewrite <- Hc1 in Hnd', Hfr'. rewrite <- Hv1 in Hv'.
  destruct (object_update n si s1 A aobj ai k hv' v EA Ea I2) as (U1 & U2 & U3);
    auto.
  - unfold s1. apply list_lookup_insert_eq. rewrite length_app. lia.
  - intros l Hl. apply Hfr' in Hl. split; [lia|].
    intros Hin. apply cells_del_In in Hin.
    pose proof (items_cells_valid _ _ _ _ Ea _ Hin). lia.
  - intros l Hl. apply cells_del_In in Hl.
    pose proof (items_cells_valid _ _ _ _ Ea _ Hl).
    rewrite Hne, lookup_app_l; auto.
    apply NoDup_cons_In in I2 as [I2 _]. congruence.
  - split; [exact U1|]. split; [exact U2|]. split; [|split].
    + intros l Hl. apply U3 in Hl as [->|[Hl|Hl]].
      * apply I3. now left.
      * apply Hfr' in Hl. right. lia.
      * apply I3. right. eapply cells_del_In; eauto.
    + intros l Hl Hnl. rewrite Hne by congruence.
      rewrite lookup_app_l by lia. now apply I4.
    + unfold s1. rewrite length_insert, length_app. lia.
Qed.

Lemma overwrite_item_spec n (IHn : overwrites n) s A si ai k hv v :
  overwritten (S n) s A si ai ->
  value_at n s hv = Some v ->
  NoDup (cells n s hv) ->
  (forall l, In l (cells n s hv) -> ~ In l (cells (S n) s (HRef A))) ->
  exists s1,
    overwrite_item (recursive_overwrite_at n) (deepcopy n) A si (k, hv) = Some s1
    /\ overwritten (S n) s A s1 (merge_entry ai k v).
Proof.
  intros Inv Hv Hnd Hdj.
  pose proof Inv as (I1 & I2 & I3 & I4 & I5).
  destruct (value_at_agree n s si hv v Hv) as [Hvi Hci].
  { intros l Hl Hin. apply I4; auto. }
  pose proof (cells_valid _ _ _ _ Hv) as Hval.
  assert (Hcopy : (forall x y, dict_get ai k = Some (PDict x) -> v = PDict y -> False) ->
            exists s1, assign_copy (deepcopy n) A si k hv = Some s1
                       /\ overwritten (S n) s A s1 (merge_entry ai k v)).
  { intros Hp. rewrite (merge_entry_plain _ _ _ Hp).
    now apply (assign_copy_spec n s A si ai k hv v). }
  simpl in I1.
  destruct (si !! A) as [aobj|] eqn:EA; [|discriminate].
  destruct (items_value (value_at n si) aobj) as [a'|] eqn:Ea; [|discriminate].
  inversion I1; subst a'; clear I1.
  pose proof (items_value_get _ aobj ai k Ea) as Hget.
  unfold overwrite_item. rewrite EA.
  destruct (dict_get aobj k) as [[x|a']|] eqn:Eg.
  -     assert (Hp : forall x0 y, dict_get ai k = Some (PDict x0) -> v = PDict y -> False).
    { intros x0 y E _. rewrite E in Hget. symmetry in Hget.
      apply value_at_lit in Hget as [<- Hget]. eapply Hget; eauto. }
    destruct hv; apply Hcopy; exact Hp.
  - destruct hv as [y|b'].
    + apply Hcopy. intros x0 y0 _ ->.
      apply value_at_lit in Hv as [<- Hv]. eapply Hv; eauto.
    + (* both are mappings: the recursive call *)
      destruct (items_value_Some _ _ _ Ea (k, HRef a') (dict_get_Some_In _ _ _ Eg))
        as [va Hva]. simpl in Hva.
      destruct (value_at_ref _ _ _ _ Hva) as [da ->].
      destruct (value_at_ref _ _ _ _ Hvi) as [db ->].
      rewrite Hva in Hget.
      simpl in I2. rewrite EA in I2.
      pose proof I2 as [HnA Hnda]%NoDup_cons_In.
      destruct (cells_get (cells n si) aobj k (HRef a') Eg Hnda) as [Hnd' Hin'].
      assert (Hold : forall l, In l (cells n si (HRef a')) ->
                In l (cells (S n) s (HRef A)) \/ length s <= l).
      { intros l Hl. apply I3. simpl. rewrite EA. right. now apply Hin'. }
      destruct (IHn si a' b' da db Hva Hvi) as (s2 & Hrun & J1 & J2 & J3 & J4 & J5).
      { apply NoDup_app_In. split; [exact Hnd'|]. split; [|now rewrite Hci].
        intros l Hl Hl'. rewrite Hci in Hl'.
        destruct (Hold l Hl) as [H|H]; [now apply (Hdj l Hl')|].
        specialize (Hval l Hl'). lia. }
      exists s2. split; [exact Hrun|].
      pose proof (lookup_lt_Some _ _ _ EA) as HlA.
      assert (HA2 : s2 !! A = Some (dict_set aobj k (HRef a'))).
      { rewrite (dict_set_same _ _ _ Eg), <- EA. apply J4; [exact HlA|].
        intros Hin. apply HnA. now apply Hin'. }
      destruct (object_update n si s2 A aobj ai k (HRef a')
                  (PDict (recursive_overwrite da db)) EA Ea I2 HA2 J1 J2)
        as (U1 & U2 & U3).
      * intros l Hl. destruct (J3 l Hl) as [H|H].
        -- split; [intros ->; apply HnA; now apply Hin' | now apply Hin'].
        -- split; [lia|]. intros Hin. apply cells_del_In in Hin.
           pose proof (items_cells_valid _ _ _ _ Ea _ Hin). lia.
      * intros l Hl. apply J4.
        -- apply cells_del_In in Hl. exact (items_cells_valid _ _ _ _ Ea _ Hl).
        -- intros Hin. now apply Hin' in Hin.
      * unfold merge_entry. rewrite Hget.
        split; [exact U1|]. split; [exact U2|]. split; [|split].
        -- intros l Hl. apply U3 in Hl as [->|[Hl|Hl]].
           ++ apply I3. simpl. now left.
           ++ destruct (J3 l Hl) as [H|H]; [now apply Hold | right; lia].
           ++ apply I3. simpl. rewrite EA. right. eapply cells_del_In; eauto.
        -- intros l Hl Hnl. rewrite J4; [now apply I4 | lia |].
           intros Hin. destruct (Hold l Hin); [tauto | lia].
        -- lia.
  - apply Hcopy. intros x y E _. rewrite E in Hget. discriminate.
Qed.

Lemma overwrite_loop n (IHn : overwrites n) s A :
  forall (items : hdict) bv si ai,
    overwritten (S n) s A si ai ->
    items_value (value_at n s) items = Some bv ->
    NoDup (cells_of (cells n s) items) ->
    (forall l, In l (cells_of (cells n s) items) ->
       ~ In l (cells (S n) s (HRef A))) ->
    exists s',
      fold_items (overwrite_item (recursive_overwrite_at n) (deepcopy n) A)
        items si = Some s'
      /\ overwritten (S n) s A s' (recursive_overwrite ai bv).
Proof.
  induction items as [|[k hv] rest IH]; intros bv si ai Inv Hb Hnd Hdj.
  - inversion Hb. exists si. split; [reflexivity | exact Inv].
  - cbn [items_value] in Hb.
    destruct (value_at n s hv) as [v|] eqn:Ev; [|discriminate].
    destruct (items_value (value_at n s) rest) as [bv'|] eqn:Er; [|discriminate].
    inversion Hb; subst bv; clear Hb.
    cbn [flat_map snd] in Hnd, Hdj.
    apply NoDup_app_In in Hnd as (N1 & _ & N3).
    destruct (overwrite_item_spec n IHn s A si ai k hv v Inv Ev N1)
      as (s1 & Hstep & Inv1).
    { intros l Hl. apply Hdj. apply in_app_iff. now left. }
    destruct (IH bv' s1 (merge_entry ai k v) Inv1 eq_refl N3) as (s' & Hrun & Inv').
    { intros l Hl. apply Hdj. apply in_app_iff. now right. }
    exists s'. rewrite recursive_overwrite_cons.
    split; [|exact Inv']. cbn [fold_items]. now rewrite Hstep.
Qed.

Lemma recursive_overwrite_at_spec n : overwrites n.
Proof.
  induction n as [|n IHn]; intros s A B a b Ha Hb Hnd; [discriminate|].
  assert (Inv : overwritten (S n) s A s a).
  { apply NoDup_app_In in Hnd as (N1 & _ & _).
    repeat split; auto. }
  cbn [value_at] in Hb. cbn [recursive_overwrite_at].
  destruct (s !! B) as [bobj|] eqn:EB; [|discriminate].
  destruct (items_value (value_at n s) bobj) as [b'|] eqn:Eb; [|discriminate].
  inversion Hb; subst b'; clear Hb.
  apply NoDup_app_In in Hnd as (_ & N2 & N3).
  cbn [cells] in N2, N3. rewrite EB in N2, N3.
  apply NoDup_cons_In in N3 as [_ N3].
  apply (overwrite_loop n IHn s A bobj b s a Inv Eb N3).
  intros l Hl Hin. apply (N2 l Hin). now right.
Qed.

(** X1: [recursive_overwrite(A, B)] on a store where [A] and [B] are
    dicts that share no object.  The call returns; [A] then stands for
    the merged value that [Utils.recursive_overwrite] computes; [B] stands
    for what it stood for; and the two still share no object, so what was
    taken from [B] was copied. *)
Theorem recursive_overwrite_in_place n s A B a b :
  value_at n s (HRef A) = Some (PDict a) ->
  value_at n s (HRef B) = Some (PDict b) ->
  NoDup (cells n s (HRef A) ++ cells n s (HRef B)) ->
  exists s',
    recursive_overwrite_at n s A B = Some s'
    /\ value_at n s' (HRef A) = Some (PDict (recursive_overwrite a b))
    /\ value_at n s' (HRef B) = Some (PDict b)
    /\ NoDup (cells n s' (HRef A) ++ cells n s' (HRef B)).
Proof.
  intros Ha Hb Hnd.
  destruct (recursive_overwrite_at_spec n s A B a b Ha Hb Hnd)
    as (s' & Hrun & I1 & I2 & I3 & I4 & I5).
  apply NoDup_app_In in Hnd as (N1 & N2 & N3).
  destruct (value_at_agree n s s' (HRef B) (PDict b) Hb) as [Hb' Hc'].
  { intros l Hl Hin. apply I4; [exact Hl|]. intros HinA. exact (N2 l HinA Hin). }
  exists s'. split; [exact Hrun|]. split; [exact I1|]. split; [exact Hb'|].
  rewrite Hc'. apply NoDup_app_In. split; [exact I2|]. split; [|exact N3].
  intros l Hl Hin. destruct (I3 l Hl) as [H|H]; [exact (N2 l H Hin)|].
  pose proof (cells_valid _ _ _ _ Hb l Hin). lia.
Qed.

Lemma recursive_overwrite_in_place_witness :
  exists s',
    recursive_overwrite_at 2 Fixtures.override_store 0 2 = Some s'
    /\ value_at 2 s' (HRef 0)
       = Some (PDict [("resolution", PList [PInt 256]);
                      ("normal", PDict [("uri", PStr "n.png"); ("scale", PInt 2)]);
                      ("diffuse", PDict [("strength", PInt 2)])])
    /\ value_at 2 s' (HRef 2)
       = Some (PDict [("resolution", PList [PInt 256]);
                      ("normal", PDict [("scale", PInt 2)]);
                      ("diffuse", PDict [("strength", PInt 2)])])
    /\ NoDup (cells 2 s' (HRef 0) ++ cells 2 s' (HRef 2)).
Proof.
  exact (recursive_overwrite_in_place 2 Fixtures.override_store 0 2
           [("resolution", PList [PInt 512]);
            ("normal", PDict [("uri", PStr "n.png"); ("scale", PInt 1)])]
           [("resolution", PList [PInt 256]);
            ("normal", PDict [("scale", PInt 2)]);
            ("diffuse", PDict [("strength", PInt 2)])]
           eq_refl eq_refl (@bool_decide_unpack (NoDup [0; 1; 2; 3; 4]) _ I)).
Defined.

(** On that store the merged override is held in the objects 0 and 1 and
    in the new object 5, the copy of the object 4 of the global entry. *)
Example override_store_cells :
  exists s',
    recursive_overwrite_at 2 Fixtures.override_store 0 2 = Some s'
    /\ cells 2 s' (HRef 0) = [0; 1; 5]
    /\ cells 2 s' (HRef 2) = [2; 3; 4]
    /\ s' !! 5 = Some [("strength", HLit (PInt 2))].
Proof. eexists. repeat split. Qed.
